(** * The CRAS audio thread: command handlers, stream attach and wake planning

    A shallow embedding of [cras/src/server/audio_thread.c].  Pointers to
    devices and streams are addresses into two finite maps, so that a stream
    attached to several devices is one shared object; the intrusive
    doubly-linked lists of the source ([DL_APPEND], [DL_FOREACH],
    [DL_SEARCH_SCALAR]) are lists traversed in insertion order. *)

From Stdlib Require Import ZArith Lia List Bool.
From stdpp Require Import base option list gmap.
Import ListNotations.

Local Open Scope Z_scope.

(** ** Constants *)

(** [errno.h] values used by the handlers. *)
Definition ENOENT : Z := 2.
Definition ENOMEM : Z := 12.
Definition EEXIST : Z := 17.
Definition EINVAL : Z := 22.
Definition EPIPE : Z := 32.

(** [#define MAX_CONTINUOUS_ZERO_SLEEP_COUNT 2] *)
Definition MAX_CONTINUOUS_ZERO_SLEEP_COUNT : Z := 2.

Definition NSEC_PER_SEC : Z := 1000000000.

(** ** Data *)

(** [struct timespec]. *)
Record timespec : Type := Timespec { tv_sec : Z; tv_nsec : Z }.

(** [enum CRAS_STREAM_DIRECTION], restricted to the two directions that index
    [thread->open_devs] in this file. *)
Inductive CRAS_STREAM_DIRECTION : Type :=
| CRAS_STREAM_OUTPUT
| CRAS_STREAM_INPUT.

Definition direction_eqb (a b : CRAS_STREAM_DIRECTION) : bool :=
  match a, b with
  | CRAS_STREAM_OUTPUT, CRAS_STREAM_OUTPUT => true
  | CRAS_STREAM_INPUT, CRAS_STREAM_INPUT => true
  | _, _ => false
  end.

(** Addresses of [struct cras_iodev] and [struct cras_rstream] objects. *)
Abbreviation ptr := positive.

(** [struct cras_rstream]: the fields and accessors the audio thread uses.
    [rs_shm_frames] is what [cras_shm_get_frames] reports for the stream's
    output shared memory; [rs_dev_offsets] is the per-device offset table
    behind [cras_rstream_dev_offset] / [cras_rstream_dev_offset_update]. *)
Record cras_rstream : Type := {
  rs_stream_id : Z;
  rs_direction : CRAS_STREAM_DIRECTION;
  rs_cb_threshold : Z;
  rs_frame_rate : Z;
  rs_is_draining : bool;
  rs_shm_frames : Z;
  rs_dev_offsets : gmap Z Z
}.

(** [struct dev_stream]: the binding of one stream to one device.
    [ds_next_cb_ts] is the nullable result of [dev_stream_next_cb_ts];
    [ds_offset] is the offset the device keeps for this binding
    ([cras_iodev_stream_offset] / [cras_iodev_stream_written]). *)
Record dev_stream : Type := {
  ds_stream : ptr;
  ds_dev_id : Z;
  ds_init_cb_ts : timespec;
  ds_next_cb_ts : option timespec;
  ds_can_fetch : bool;
  ds_playback_frames : Z;
  ds_poll_stream_fd : Z;
  ds_offset : Z
}.

(** [struct cras_iodev].  [dev_flush_buffer] is the value a call of the
    device's [flush_buffer] capability returns. *)
Record cras_iodev : Type := {
  dev_direction : CRAS_STREAM_DIRECTION;
  dev_info_idx : Z;
  dev_min_buffer_level : Z;
  dev_streams : list dev_stream;
  dev_flush_buffer : Z;
  dev_is_open : bool;
  dev_odev_should_wake : bool;
  dev_zeros_filled : Z
}.

(** [struct open_dev]. *)
Record open_dev : Type := { od_dev : ptr; od_wake_ts : timespec }.

(** One record of [info->devs] and of [info->streams] in a thread dump. *)
Record audio_dev_debug_info : Type := {
  di_direction : CRAS_STREAM_DIRECTION;
  di_min_buffer_level : Z
}.

Record audio_stream_debug_info : Type := {
  si_stream_id : Z;
  si_dev_idx : Z;
  si_direction : CRAS_STREAM_DIRECTION;
  si_cb_threshold : Z;
  si_frame_rate : Z
}.

Record audio_debug_info : Type := {
  info_devs : list audio_dev_debug_info;
  info_streams : list audio_stream_debug_info;
  info_num_devs : Z;
  info_num_streams : Z
}.

(** The state the audio thread works on: [thread->open_devs] (one list per
    direction), the file-level statics [longest_wake] and
    [continuous_zero_sleep_count], and the memory the thread reaches through
    device and stream pointers.  [busyloop_events] counts the calls of
    [cras_audio_thread_busyloop], [clock_reads] the calls of
    [clock_gettime], and [destroyed] lists the bindings handed to
    [dev_stream_destroy]. *)
Record audio_thread : Type := {
  open_odevs : list open_dev;
  open_idevs : list open_dev;
  iodevs : gmap ptr cras_iodev;
  rstreams : gmap ptr cras_rstream;
  longest_wake : timespec;
  continuous_zero_sleep_count : Z;
  busyloop_events : nat;
  clock_reads : nat;
  destroyed : list dev_stream;
  debug_info : option audio_debug_info
}.

(** [thread->open_devs[dir]] *)
Definition open_devs (t : audio_thread) (dir : CRAS_STREAM_DIRECTION) : list open_dev :=
  match dir with
  | CRAS_STREAM_OUTPUT => open_odevs t
  | CRAS_STREAM_INPUT => open_idevs t
  end.

Definition set_open_devs (dir : CRAS_STREAM_DIRECTION) (l : list open_dev)
    (t : audio_thread) : audio_thread :=
  {| open_odevs := match dir with CRAS_STREAM_OUTPUT => l | _ => open_odevs t end;
     open_idevs := match dir with CRAS_STREAM_INPUT => l | _ => open_idevs t end;
     iodevs := iodevs t; rstreams := rstreams t;
     longest_wake := longest_wake t;
     continuous_zero_sleep_count := continuous_zero_sleep_count t;
     busyloop_events := busyloop_events t; clock_reads := clock_reads t;
     destroyed := destroyed t; debug_info := debug_info t |}.

Definition set_iodevs (m : gmap ptr cras_iodev) (t : audio_thread) : audio_thread :=
  {| open_odevs := open_odevs t; open_idevs := open_idevs t;
     iodevs := m; rstreams := rstreams t;
     longest_wake := longest_wake t;
     continuous_zero_sleep_count := continuous_zero_sleep_count t;
     busyloop_events := busyloop_events t; clock_reads := clock_reads t;
     destroyed := destroyed t; debug_info := debug_info t |}.

Definition set_rstreams (m : gmap ptr cras_rstream) (t : audio_thread) : audio_thread :=
  {| open_odevs := open_odevs t; open_idevs := open_idevs t;
     iodevs := iodevs t; rstreams := m;
     longest_wake := longest_wake t;
     continuous_zero_sleep_count := continuous_zero_sleep_count t;
     busyloop_events := busyloop_events t; clock_reads := clock_reads t;
     destroyed := destroyed t; debug_info := debug_info t |}.

Definition set_longest_wake (ts : timespec) (t : audio_thread) : audio_thread :=
  {| open_odevs := open_odevs t; open_idevs := open_idevs t;
     iodevs := iodevs t; rstreams := rstreams t;
     longest_wake := ts;
     continuous_zero_sleep_count := continuous_zero_sleep_count t;
     busyloop_events := busyloop_events t; clock_reads := clock_reads t;
     destroyed := destroyed t; debug_info := debug_info t |}.

Definition set_zero_sleep_count (n : Z) (t : audio_thread) : audio_thread :=
  {| open_odevs := open_odevs t; open_idevs := open_idevs t;
     iodevs := iodevs t; rstreams := rstreams t;
     longest_wake := longest_wake t;
     continuous_zero_sleep_count := n;
     busyloop_events := busyloop_events t; clock_reads := clock_reads t;
     destroyed := destroyed t; debug_info := debug_info t |}.

Definition set_busyloop_events (n : nat) (t : audio_thread) : audio_thread :=
  {| open_odevs := open_odevs t; open_idevs := open_idevs t;
     iodevs := iodevs t; rstreams := rstreams t;
     longest_wake := longest_wake t;
     continuous_zero_sleep_count := continuous_zero_sleep_count t;
     busyloop_events := n; clock_reads := clock_reads t;
     destroyed := destroyed t; debug_info := debug_info t |}.

Definition set_clock_reads (n : nat) (t : audio_thread) : audio_thread :=
  {| open_odevs := open_odevs t; open_idevs := open_idevs t;
     iodevs := iodevs t; rstreams := rstreams t;
     longest_wake := longest_wake t;
     continuous_zero_sleep_count := continuous_zero_sleep_count t;
     busyloop_events := busyloop_events t; clock_reads := n;
     destroyed := destroyed t; debug_info := debug_info t |}.

Definition set_destroyed (l : list dev_stream) (t : audio_thread) : audio_thread :=
  {| open_odevs := open_odevs t; open_idevs := open_idevs t;
     iodevs := iodevs t; rstreams := rstreams t;
     longest_wake := longest_wake t;
     continuous_zero_sleep_count := continuous_zero_sleep_count t;
     busyloop_events := busyloop_events t; clock_reads := clock_reads t;
     destroyed := l; debug_info := debug_info t |}.

Definition set_debug_info (i : option audio_debug_info) (t : audio_thread) : audio_thread :=
  {| open_odevs := open_odevs t; open_idevs := open_idevs t;
     iodevs := iodevs t; rstreams := rstreams t;
     longest_wake := longest_wake t;
     continuous_zero_sleep_count := continuous_zero_sleep_count t;
     busyloop_events := busyloop_events t; clock_reads := clock_reads t;
     destroyed := destroyed t; debug_info := i |}.

(** Reading through a pointer.  An address that holds no object reads as a
    blank object; the handlers only follow pointers the main thread hands
    them, which are live. *)
Definition blank_rstream : cras_rstream :=
  {| rs_stream_id := 0; rs_direction := CRAS_STREAM_OUTPUT; rs_cb_threshold := 0;
     rs_frame_rate := 0; rs_is_draining := false; rs_shm_frames := 0;
     rs_dev_offsets := ∅ |}.

Definition blank_iodev : cras_iodev :=
  {| dev_direction := CRAS_STREAM_OUTPUT; dev_info_idx := 0;
     dev_min_buffer_level := 0; dev_streams := []; dev_flush_buffer := 0;
     dev_is_open := false; dev_odev_should_wake := false; dev_zeros_filled := 0 |}.

Definition get_rstream (t : audio_thread) (p : ptr) : cras_rstream :=
  default blank_rstream (rstreams t !! p).

Definition get_iodev (t : audio_thread) (p : ptr) : cras_iodev :=
  default blank_iodev (iodevs t !! p).

Definition set_dev_streams (l : list dev_stream) (d : cras_iodev) : cras_iodev :=
  {| dev_direction := dev_direction d; dev_info_idx := dev_info_idx d;
     dev_min_buffer_level := dev_min_buffer_level d; dev_streams := l;
     dev_flush_buffer := dev_flush_buffer d; dev_is_open := dev_is_open d;
     dev_odev_should_wake := dev_odev_should_wake d;
     dev_zeros_filled := dev_zeros_filled d |}.

Definition set_ds_offset (n : Z) (s : dev_stream) : dev_stream :=
  {| ds_stream := ds_stream s; ds_dev_id := ds_dev_id s;
     ds_init_cb_ts := ds_init_cb_ts s; ds_next_cb_ts := ds_next_cb_ts s;
     ds_can_fetch := ds_can_fetch s; ds_playback_frames := ds_playback_frames s;
     ds_poll_stream_fd := ds_poll_stream_fd s; ds_offset := n |}.

(** ** Helpers of [cras_util.h] *)

(** Modelled from the spec: [timespec_after] of [cras_util.h] (§6, helpers),
    true when the first deadline is strictly later than the second. *)
Definition timespec_after (a b : timespec) : bool :=
  (tv_sec b <? tv_sec a) || ((tv_sec a =? tv_sec b) && (tv_nsec b <? tv_nsec a)).

(** Modelled from the spec: [add_timespecs] of [cras_util.h] (§6, helpers),
    [a += b] with the nanoseconds carried into the seconds. *)
Definition add_timespecs (a b : timespec) : timespec :=
  let s := tv_sec a + tv_sec b in
  let n := tv_nsec a + tv_nsec b in
  if NSEC_PER_SEC <=? n then Timespec (s + 1) (n - NSEC_PER_SEC) else Timespec s n.

(** Modelled from the spec: [subtract_timespecs] of [cras_util.h] (§6,
    helpers), [end - beg] with seconds and nanoseconds brought to one sign. *)
Definition subtract_timespecs (end_ beg : timespec) : timespec :=
  let s := tv_sec end_ - tv_sec beg in
  let n := tv_nsec end_ - tv_nsec beg in
  if (0 <? s) && (n <? 0) then Timespec (s - 1) (n + NSEC_PER_SEC)
  else if (s <? 0) && (0 <? n) then Timespec (s + 1) (n - NSEC_PER_SEC)
  else Timespec s n.

(** Modelled from the spec: [cras_frames_to_ms] of [cras_util.h] (§4.5, §8
    E4: 4800 frames at 48000 Hz are 100 ms), the whole milliseconds that
    [frames] frames last at [rate] frames per second. *)
Definition cras_frames_to_ms (frames rate : Z) : Z := 1000 * frames / rate.

(** A timespec in normal form, and its value in nanoseconds. *)
Definition timespec_valid (a : timespec) : Prop := 0 <= tv_nsec a < NSEC_PER_SEC.

Definition timespec_ns (a : timespec) : Z := tv_sec a * NSEC_PER_SEC + tv_nsec a.

(** [DL_SEARCH_SCALAR(head, out, dev, iodev)] on a list of open devices. *)
Definition search_open_dev (l : list open_dev) (iodev : ptr) : option open_dev :=
  find (fun adev => Pos.eqb (od_dev adev) iodev) l.

(** [DL_SEARCH_SCALAR(dev->streams, out, stream, stream)]. *)
Definition search_dev_stream (l : list dev_stream) (stream : ptr) : option dev_stream :=
  find (fun out => Pos.eqb (ds_stream out) stream) l.

(** ** Busy-loop detection *)

(** Modelled from the spec: [cras_audio_thread_busyloop] of
    [cras_audio_thread_monitor.h], which raises one [BusyLoop] telemetry
    signal (§4.3). *)
Definition cras_audio_thread_busyloop (t : audio_thread) : audio_thread :=
  set_busyloop_events (S (busyloop_events t)) t.

(** [INT_MAX] of the 32-bit [int] that holds [continuous_zero_sleep_count]. *)
Definition INT_MAX : Z := 2 ^ 31 - 1.

(** [check_busyloop].  The counter is a C [int]: [continuous_zero_sleep_count ++]
    at [INT_MAX] is a signed overflow, which C leaves undefined, and the
    result is [None] there. *)
Definition check_busyloop (wait_ts : timespec) (t : audio_thread) : option audio_thread :=
  if (tv_sec wait_ts =? 0) && (tv_nsec wait_ts =? 0) then
    if continuous_zero_sleep_count t =? INT_MAX then None
    else
      let t := set_zero_sleep_count (continuous_zero_sleep_count t + 1) t in
      if continuous_zero_sleep_count t =? MAX_CONTINUOUS_ZERO_SLEEP_COUNT
      then Some (cras_audio_thread_busyloop t)
      else Some t
  else Some (set_zero_sleep_count 0 t).

(** The call site in [audio_io_thread]: [if (wait_ts) check_busyloop(wait_ts)].
    A null [wait_ts] (no waker, unbounded wait) is [None]. *)
Definition busyloop_step (t : audio_thread) (wait_ts : option timespec)
    : option audio_thread :=
  match wait_ts with
  | Some ts => check_busyloop ts t
  | None => Some t
  end.

(** The call site over the successive iterations of the loop. *)
Fixpoint busyloop_run (waits : list (option timespec)) (t : audio_thread)
    : option audio_thread :=
  match waits with
  | [] => Some t
  | wait_ts :: rest =>
      match busyloop_step t wait_ts with
      | None => None
      | Some t => busyloop_run rest t
      end
  end.

(** ** The device and stream layer, as far as the thread calls it *)

(** Modelled from the spec: [dev_io_find_open_dev] of [dev_io.h], the lookup
    of a device in an open-device list (§4.5, "Lookup only"). *)
Definition dev_io_find_open_dev (l : list open_dev) (iodev : ptr) : option open_dev :=
  search_open_dev l iodev.

(** Modelled from the spec: [dev_io_rm_open_dev] of [dev_io.h], which takes
    the found entry out of its direction list (§4.5, [RmOpenDev]). *)
Fixpoint dev_io_rm_open_dev (l : list open_dev) (iodev : ptr) : list open_dev :=
  match l with
  | [] => []
  | adev :: rest =>
      if Pos.eqb (od_dev adev) iodev then rest
      else adev :: dev_io_rm_open_dev rest iodev
  end.

Definition update_iodev (p : ptr) (f : cras_iodev -> cras_iodev)
    (t : audio_thread) : audio_thread :=
  set_iodevs (<[p := f (get_iodev t p)]> (iodevs t)) t.

Definition update_rstream (p : ptr) (f : cras_rstream -> cras_rstream)
    (t : audio_thread) : audio_thread :=
  set_rstreams (<[p := f (get_rstream t p)]> (rstreams t)) t.

(** Modelled from the spec: [cras_iodev_fill_odev_zeros] of [cras_iodev.h],
    which puts [frames] frames of silence into the output buffer (§4.5,
    [AddOpenDev]). *)
Definition cras_iodev_fill_odev_zeros (odev : ptr) (frames : Z)
    (t : audio_thread) : audio_thread :=
  update_iodev odev (fun d =>
    {| dev_direction := dev_direction d; dev_info_idx := dev_info_idx d;
       dev_min_buffer_level := dev_min_buffer_level d; dev_streams := dev_streams d;
       dev_flush_buffer := dev_flush_buffer d; dev_is_open := dev_is_open d;
       dev_odev_should_wake := dev_odev_should_wake d;
       dev_zeros_filled := dev_zeros_filled d + frames |}) t.

(** Modelled from the spec: [cras_iodev_add_stream] of [cras_iodev.h], which
    binds a [DevStream] to the device, at the end of its stream list (§3,
    §4.6 step 6). *)
Definition cras_iodev_add_stream (dev : ptr) (out : dev_stream)
    (t : audio_thread) : audio_thread :=
  update_iodev dev (fun d => set_dev_streams (dev_streams d ++ [out]) d) t.

(** Modelled from the spec: [cras_iodev_rm_stream] of [cras_iodev.h], which
    takes the binding of [stream] off the device (§4.6, rollback). *)
Definition cras_iodev_rm_stream (dev : ptr) (stream : ptr)
    (t : audio_thread) : audio_thread :=
  update_iodev dev (fun d =>
    set_dev_streams
      (filter (fun out => ds_stream out <> stream) (dev_streams d)) d) t.

(** Modelled from the spec: [dev_stream_destroy] of [dev_stream.h] (§6). *)
Definition dev_stream_destroy (out : dev_stream) (t : audio_thread) : audio_thread :=
  set_destroyed (destroyed t ++ [out]) t.

(** Modelled from the spec: [cras_iodev_stream_offset] of [cras_iodev.h], the
    offset the device holds for one of its bindings (§4.6 step 7). *)
Definition cras_iodev_stream_offset (out : dev_stream) : Z := ds_offset out.

(** Modelled from the spec: [cras_iodev_stream_written] of [cras_iodev.h],
    which records an offset into a binding of the device (§4.6 step 7).  A
    binding of a device is designated by its stream (§3, invariant 1). *)
Definition cras_iodev_stream_written (dev : ptr) (out : dev_stream) (nwritten : Z)
    (t : audio_thread) : audio_thread :=
  update_iodev dev (fun d =>
    set_dev_streams
      (map (fun s => if Pos.eqb (ds_stream s) (ds_stream out)
                     then set_ds_offset nwritten s else s) (dev_streams d)) d) t.

(** Modelled from the spec: [cras_rstream_dev_offset] of [cras_rstream.h]
    (§6, [dev_offset(dev_idx)]). *)
Definition cras_rstream_dev_offset (r : cras_rstream) (dev_idx : Z) : Z :=
  default 0 (rs_dev_offsets r !! dev_idx).

(** Modelled from the spec: [cras_rstream_dev_offset_update] of
    [cras_rstream.h] (§6, [dev_offset_update(offset, dev_idx)]), which records
    the offset of the stream for one device. *)
Definition cras_rstream_dev_offset_update (stream : ptr) (offset dev_idx : Z)
    (t : audio_thread) : audio_thread :=
  update_rstream stream (fun r =>
    {| rs_stream_id := rs_stream_id r; rs_direction := rs_direction r;
       rs_cb_threshold := rs_cb_threshold r; rs_frame_rate := rs_frame_rate r;
       rs_is_draining := rs_is_draining r; rs_shm_frames := rs_shm_frames r;
       rs_dev_offsets := <[dev_idx := offset]> (rs_dev_offsets r) |}) t.

(** Modelled from the spec: [cras_rstream_set_is_draining] of
    [cras_rstream.h] (§6). *)
Definition cras_rstream_set_is_draining (stream : ptr) (v : bool)
    (t : audio_thread) : audio_thread :=
  update_rstream stream (fun r =>
    {| rs_stream_id := rs_stream_id r; rs_direction := rs_direction r;
       rs_cb_threshold := rs_cb_threshold r; rs_frame_rate := rs_frame_rate r;
       rs_is_draining := v; rs_shm_frames := rs_shm_frames r;
       rs_dev_offsets := rs_dev_offsets r |}) t.

(** Modelled from the spec: [dev_io_remove_stream] of [dev_io.h], the
    external removal helper: with a device it detaches the stream from that
    device, with a null device from every device of the list (§4.5,
    [DisconnectStream] and [DrainStream] "detach everywhere").  The spec
    leaves the value it returns open ("0 or err"); 0 stands for it here, and
    no property below concludes from that value. *)
Fixpoint detach_everywhere (l : list open_dev) (stream : ptr)
    (t : audio_thread) : audio_thread :=
  match l with
  | [] => t
  | open_dev :: rest =>
      detach_everywhere rest stream (cras_iodev_rm_stream (od_dev open_dev) stream t)
  end.

Definition dev_io_remove_stream (dir : CRAS_STREAM_DIRECTION) (stream : ptr)
    (dev : option ptr) (t : audio_thread) : Z * audio_thread :=
  match dev with
  | None => (0, detach_everywhere (open_devs t dir) stream t)
  | Some d => (0, cras_iodev_rm_stream d stream t)
  end.

(** ** The handlers of [audio_thread.c] *)

(** Local variables of [append_stream] that live across the iterations of
    its device loop.  [init_cb_ts] is uninitialised at entry; it is written
    before every read. *)
Record append_locals : Type := { init_cb_ts : timespec; cb_ts_set : bool }.

(** What one iteration of the device loop of [append_stream] ends in. *)
Inductive loop_exit : Type :=
| Next (t : audio_thread) (l : append_locals)
| Break (rc : Z) (t : audio_thread) (l : append_locals).

Section Handlers.

(** The n-th reading of [CLOCK_MONOTONIC_RAW]. *)
Variable clock_monotonic_raw : nat -> timespec.

(** Whether [dev_stream_create] succeeds for a stream on a device. *)
Variable dev_stream_create_ok : ptr -> ptr -> bool.

(** [MAX_DEBUG_DEVS] and [MAX_DEBUG_STREAMS] of [cras_types.h]. *)
Variable MAX_DEBUG_DEVS MAX_DEBUG_STREAMS : Z.

Definition clock_gettime (t : audio_thread) : timespec * audio_thread :=
  (clock_monotonic_raw (clock_reads t), set_clock_reads (S (clock_reads t)) t).

(** Modelled from the spec: [dev_stream_create] of [dev_stream.h], which
    instantiates a [DevStream] from [(stream, dev idx, format, dev,
    init_cb_ts)] or fails (§4.6 step 4).  The new binding starts with the
    given callback time as its next deadline. *)
Definition dev_stream_create (stream : ptr) (dev_id : Z) (dev : ptr)
    (cb_ts : timespec) : option dev_stream :=
  if dev_stream_create_ok stream dev then
    Some {| ds_stream := stream; ds_dev_id := dev_id; ds_init_cb_ts := cb_ts;
            ds_next_cb_ts := Some cb_ts; ds_can_fetch := true;
            ds_playback_frames := 0; ds_poll_stream_fd := -1; ds_offset := 0 |}
  else None.

(** [DL_FOREACH(dev->streams, out)] of [append_stream], lines 289-296. *)
Fixpoint earliest_next_cb_ts (streams : list dev_stream) (l : append_locals)
    : append_locals :=
  match streams with
  | [] => l
  | out :: rest =>
      earliest_next_cb_ts rest
        match ds_next_cb_ts out with
        | Some stream_ts =>
            if negb (cb_ts_set l) || timespec_after (init_cb_ts l) stream_ts
            then {| init_cb_ts := stream_ts; cb_ts_set := true |}
            else l
        | None => l
        end
  end.

(** The offset alignment of [append_stream], lines 331-342.  [first] is
    [dev->streams], the head of the device's list. *)
Definition align_input_offsets (stream iodev : ptr) (out first : dev_stream)
    (t : audio_thread) : audio_thread :=
  let offset := cras_iodev_stream_offset first in
  let offset :=
    if rs_cb_threshold (get_rstream t stream) <? offset
    then rs_cb_threshold (get_rstream t stream) else offset in
  let t := cras_iodev_stream_written iodev out offset t in
  let offset :=
    cras_rstream_dev_offset (get_rstream t (ds_stream first))
                            (dev_info_idx (get_iodev t iodev)) in
  let offset :=
    if rs_cb_threshold (get_rstream t stream) <? offset
    then rs_cb_threshold (get_rstream t stream) else offset in
  cras_rstream_dev_offset_update stream offset (dev_info_idx (get_iodev t iodev)) t.

(** The body of [for (i = 0; i < num_iodevs; i++)] in [append_stream], for
    [iodevs[i] = iodev].  After [DL_APPEND] the head of [dev->streams] is the
    new binding exactly when the list was empty before, which is how
    [dev->streams != out] is decided here. *)
Definition append_stream_dev (stream iodev : ptr) (t : audio_thread)
    (l : append_locals) : loop_exit :=
  let dir := rs_direction (get_rstream t stream) in
  match search_open_dev (open_devs t dir) iodev with
  | None => Next t l
  | Some _ =>
      let dev := get_iodev t iodev in
      match search_dev_stream (dev_streams dev) stream with
      | Some _ => Next t l
      | None =>
          let l :=
            match dir, dev_streams dev with
            | CRAS_STREAM_OUTPUT, _ :: _ => earliest_next_cb_ts (dev_streams dev) l
            | _, _ => l
            end in
          let '(t, l) :=
            if cb_ts_set l then (t, l)
            else let '(now, t) := clock_gettime t in
                 (t, {| init_cb_ts := now; cb_ts_set := cb_ts_set l |}) in
          match dev_stream_create stream (dev_info_idx dev) iodev (init_cb_ts l) with
          | None => Break (- EINVAL) t l
          | Some out =>
              match dir, dev_streams dev with
              | CRAS_STREAM_INPUT, [] =>
                  let num_flushed := dev_flush_buffer dev in
                  if num_flushed <? 0 then Break num_flushed t l
                  else Next (cras_iodev_add_stream iodev out t) l
              | CRAS_STREAM_INPUT, first :: _ =>
                  Next (align_input_offsets stream iodev out first
                          (cras_iodev_add_stream iodev out t)) l
              | CRAS_STREAM_OUTPUT, _ =>
                  Next (cras_iodev_add_stream iodev out t) l
              end
          end
      end
  end.

(** The device loop of [append_stream]: the result code at loop exit, the
    state and the locals. *)
Fixpoint append_stream_loop (stream : ptr) (iodevs_ : list ptr) (t : audio_thread)
    (l : append_locals) : Z * audio_thread * append_locals :=
  match iodevs_ with
  | [] => (0, t, l)
  | iodev :: rest =>
      match append_stream_dev stream iodev t l with
      | Next t l => append_stream_loop stream rest t l
      | Break rc t l => (rc, t, l)
      end
  end.

(** [if (rc) DL_FOREACH(thread->open_devs[stream->direction], open_dev)] of
    [append_stream], lines 346-356. *)
Fixpoint append_stream_rollback (stream : ptr) (devs : list open_dev)
    (t : audio_thread) : audio_thread :=
  match devs with
  | [] => t
  | open_dev :: rest =>
      let dev := od_dev open_dev in
      match search_dev_stream (dev_streams (get_iodev t dev)) stream with
      | None => append_stream_rollback stream rest t
      | Some out =>
          append_stream_rollback stream rest
            (dev_stream_destroy out (cras_iodev_rm_stream dev stream t))
      end
  end.

Definition append_locals_init : append_locals :=
  {| init_cb_ts := Timespec 0 0; cb_ts_set := false |}.

(** [append_stream] *)
Definition append_stream (stream : ptr) (iodevs_ : list ptr) (t : audio_thread)
    : Z * audio_thread :=
  let '(rc, t, _) := append_stream_loop stream iodevs_ t append_locals_init in
  if rc =? 0 then (rc, t)
  else (rc, append_stream_rollback stream
              (open_devs t (rs_direction (get_rstream t stream))) t).

(** [thread_add_stream].  The event-log write does not touch the state
    modelled here. *)
Definition thread_add_stream (stream : ptr) (iodevs_ : list ptr) (t : audio_thread)
    : Z * audio_thread :=
  let '(rc, t) := append_stream stream iodevs_ t in
  if rc <? 0 then (rc, t) else (0, t).

(** [fill_odevs_zeros_min_level] *)
Definition fill_odevs_zeros_min_level (odev : ptr) (t : audio_thread) : audio_thread :=
  cras_iodev_fill_odev_zeros odev (dev_min_buffer_level (get_iodev t odev)) t.

(** [thread_add_open_dev] *)
Definition thread_add_open_dev (iodev : ptr) (t : audio_thread) : Z * audio_thread :=
  let dir := dev_direction (get_iodev t iodev) in
  match search_open_dev (open_devs t dir) iodev with
  | Some _ => (- EEXIST, t)
  | None =>
      let adev := {| od_dev := iodev; od_wake_ts := Timespec 0 0 |} in
      let t := match dir with
               | CRAS_STREAM_OUTPUT => fill_odevs_zeros_min_level iodev t
               | CRAS_STREAM_INPUT => t
               end in
      (0, set_open_devs dir (open_devs t dir ++ [adev]) t)
  end.

(** [thread_rm_open_dev] *)
Definition thread_rm_open_dev (iodev : ptr) (t : audio_thread) : Z * audio_thread :=
  let dir := dev_direction (get_iodev t iodev) in
  match dev_io_find_open_dev (open_devs t dir) iodev with
  | None => (- EINVAL, t)
  | Some adev =>
      (0, set_open_devs dir (dev_io_rm_open_dev (open_devs t dir) (od_dev adev)) t)
  end.

(** [thread_is_dev_open] *)
Definition thread_is_dev_open (iodev : ptr) (t : audio_thread) : Z :=
  let dir := dev_direction (get_iodev t iodev) in
  match dev_io_find_open_dev (open_devs t dir) iodev with
  | None => 0
  | Some _ => 1
  end.

(** [thread_find_stream]: non-zero if the stream is attached to any device. *)
Definition thread_find_stream (rstream : ptr) (t : audio_thread) : bool :=
  existsb (fun open_dev =>
             existsb (fun s => Pos.eqb (ds_stream s) rstream)
                     (dev_streams (get_iodev t (od_dev open_dev))))
          (open_devs t (rs_direction (get_rstream t rstream))).

(** [thread_disconnect_stream] *)
Definition thread_disconnect_stream (stream dev : ptr) (t : audio_thread)
    : Z * audio_thread :=
  if negb (thread_find_stream stream t) then (0, t)
  else dev_io_remove_stream (rs_direction (get_rstream t stream)) stream (Some dev) t.

(** [thread_drain_stream_ms_remaining] *)
Definition thread_drain_stream_ms_remaining (rstream : ptr) (t : audio_thread)
    : Z * audio_thread :=
  match rs_direction (get_rstream t rstream) with
  | CRAS_STREAM_INPUT => (0, t)
  | CRAS_STREAM_OUTPUT =>
      let fr_in_buff := rs_shm_frames (get_rstream t rstream) in
      if fr_in_buff <=? 0 then (0, t)
      else
        let t := cras_rstream_set_is_draining rstream true t in
        (1 + cras_frames_to_ms fr_in_buff (rs_frame_rate (get_rstream t rstream)), t)
  end.

(** [thread_drain_stream] *)
Definition thread_drain_stream (rstream : ptr) (t : audio_thread) : Z * audio_thread :=
  if negb (thread_find_stream rstream t) then (0, t)
  else
    let '(ms_left, t) := thread_drain_stream_ms_remaining rstream t in
    if ms_left =? 0 then
      (ms_left,
       snd (dev_io_remove_stream (rs_direction (get_rstream t rstream)) rstream None t))
    else (ms_left, t).

(** *** Thread dump *)

(** The locals [num_devs] and [num_streams] of the dump and the arrays
    [info->devs] and [info->streams] filled so far; a slot is written at the
    running count, that is at the end. *)
Record dump_locals : Type := {
  num_devs : Z;
  num_streams : Z;
  dumped_devs : list audio_dev_debug_info;
  dumped_streams : list audio_stream_debug_info
}.

(** [append_dev_dump_info] *)
Definition append_dev_dump_info (adev : open_dev) (t : audio_thread) (d : dump_locals)
    : dump_locals :=
  let dev := get_iodev t (od_dev adev) in
  {| num_devs := num_devs d; num_streams := num_streams d;
     dumped_devs := dumped_devs d ++
       [{| di_direction := dev_direction dev;
           di_min_buffer_level := dev_min_buffer_level dev |}];
     dumped_streams := dumped_streams d |}.

(** [append_stream_dump_info], called with [index = num_streams++]. *)
Definition append_stream_dump_info (stream : dev_stream) (dev_idx : Z)
    (d : dump_locals) (t : audio_thread) : dump_locals * audio_thread :=
  let r := get_rstream t (ds_stream stream) in
  ({| num_devs := num_devs d; num_streams := num_streams d + 1;
      dumped_devs := dumped_devs d;
      dumped_streams := dumped_streams d ++
        [{| si_stream_id := rs_stream_id r; si_dev_idx := dev_idx;
            si_direction := rs_direction r; si_cb_threshold := rs_cb_threshold r;
            si_frame_rate := rs_frame_rate r |}] |},
   set_longest_wake (Timespec 0 0) t).

Definition incr_num_devs (d : dump_locals) : dump_locals :=
  {| num_devs := num_devs d + 1; num_streams := num_streams d;
     dumped_devs := dumped_devs d; dumped_streams := dumped_streams d |}.

(** [DL_FOREACH(adev->dev->streams, curr)] of the dump. *)
Fixpoint dump_dev_streams (streams : list dev_stream) (dev_idx : Z)
    (d : dump_locals) (t : audio_thread) : dump_locals * audio_thread :=
  match streams with
  | [] => (d, t)
  | curr :: rest =>
      if num_streams d =? MAX_DEBUG_STREAMS then (d, t)
      else
        let '(d, t) := append_stream_dump_info curr dev_idx d t in
        dump_dev_streams rest dev_idx d t
  end.

(** [DL_FOREACH(thread->open_devs[CRAS_STREAM_OUTPUT], adev)] of the dump. *)
Fixpoint dump_output_devs (devs : list open_dev) (d : dump_locals) (t : audio_thread)
    : dump_locals * audio_thread :=
  match devs with
  | [] => (d, t)
  | adev :: rest =>
      let d := incr_num_devs (append_dev_dump_info adev t d) in
      if num_devs d =? MAX_DEBUG_DEVS then (d, t)
      else
        let dev := get_iodev t (od_dev adev) in
        let '(d, t) := dump_dev_streams (dev_streams dev) (dev_info_idx dev) d t in
        dump_output_devs rest d t
  end.

(** [DL_FOREACH(thread->open_devs[CRAS_STREAM_INPUT], adev)] of the dump. *)
Fixpoint dump_input_devs (devs : list open_dev) (d : dump_locals) (t : audio_thread)
    : dump_locals * audio_thread :=
  match devs with
  | [] => (d, t)
  | adev :: rest =>
      if num_devs d =? MAX_DEBUG_DEVS then (d, t)
      else
        let d := append_dev_dump_info adev t d in
        let dev := get_iodev t (od_dev adev) in
        let '(d, t) := dump_dev_streams (dev_streams dev) (dev_info_idx dev) d t in
        dump_input_devs rest (incr_num_devs d) t
  end.

(** [case AUDIO_THREAD_DUMP_THREAD_INFO] of [handle_playback_thread_message].
    The copy of the event log is left out. *)
Definition thread_dump_thread_info (t : audio_thread) : Z * audio_thread :=
  let d := {| num_devs := 0; num_streams := 0;
              dumped_devs := []; dumped_streams := [] |} in
  let '(d, t) := dump_output_devs (open_devs t CRAS_STREAM_OUTPUT) d t in
  let '(d, t) := dump_input_devs (open_devs t CRAS_STREAM_INPUT) d t in
  (0, set_debug_info
        (Some {| info_devs := dumped_devs d; info_streams := dumped_streams d;
                 info_num_devs := num_devs d; info_num_streams := num_streams d |}) t).

(** *** Command dispatch *)

(** The decoded messages of [enum AUDIO_THREAD_COMMAND] whose handlers are
    modelled, with their payload. *)
Inductive audio_thread_msg : Type :=
| AUDIO_THREAD_ADD_OPEN_DEV (dev : ptr)
| AUDIO_THREAD_RM_OPEN_DEV (dev : ptr)
| AUDIO_THREAD_IS_DEV_OPEN (dev : ptr)
| AUDIO_THREAD_ADD_STREAM (stream : ptr) (devs : list ptr)
| AUDIO_THREAD_DISCONNECT_STREAM (stream : ptr) (dev : ptr)
| AUDIO_THREAD_DUMP_THREAD_INFO
| AUDIO_THREAD_DRAIN_STREAM (stream : ptr).

(** [handle_playback_thread_message], after the command has been read: the
    [switch (msg->id)] and the reply [ret] sent to the main thread. *)
Definition handle_playback_thread_message (msg : audio_thread_msg) (t : audio_thread)
    : Z * audio_thread :=
  match msg with
  | AUDIO_THREAD_ADD_STREAM stream devs => thread_add_stream stream devs t
  | AUDIO_THREAD_DISCONNECT_STREAM stream dev => thread_disconnect_stream stream dev t
  | AUDIO_THREAD_ADD_OPEN_DEV dev => thread_add_open_dev dev t
  | AUDIO_THREAD_RM_OPEN_DEV dev => thread_rm_open_dev dev t
  | AUDIO_THREAD_IS_DEV_OPEN dev => (thread_is_dev_open dev t, t)
  | AUDIO_THREAD_DUMP_THREAD_INFO => thread_dump_thread_info t
  | AUDIO_THREAD_DRAIN_STREAM stream => thread_drain_stream stream t
  end.

(** *** Wake planning *)

(** [get_next_stream_wake_from_list]: the number of streams to wait on and
    the lowered [*min_ts]. *)
Fixpoint get_next_stream_wake_from_list (t : audio_thread) (streams : list dev_stream)
    (min_ts : timespec) : Z * timespec :=
  match streams with
  | [] => (0, min_ts)
  | dev_stream :: rest =>
      if rs_is_draining (get_rstream t (ds_stream dev_stream))
         && (ds_playback_frames dev_stream <=? 0)
      then get_next_stream_wake_from_list t rest min_ts
      else if negb (ds_can_fetch dev_stream)
      then get_next_stream_wake_from_list t rest min_ts
      else
        match ds_next_cb_ts dev_stream with
        | None => get_next_stream_wake_from_list t rest min_ts
        | Some next_cb_ts =>
            let min_ts := if timespec_after min_ts next_cb_ts then next_cb_ts else min_ts in
            let '(ret, min_ts) := get_next_stream_wake_from_list t rest min_ts in
            (ret + 1, min_ts)
        end
  end.

(** First [DL_FOREACH] over the output devices in [get_next_output_wake]. *)
Fixpoint output_wake_streams (t : audio_thread) (odevs : list open_dev)
    (min_ts : timespec) : Z * timespec :=
  match odevs with
  | [] => (0, min_ts)
  | adev :: rest =>
      let '(n, min_ts) :=
        get_next_stream_wake_from_list t (dev_streams (get_iodev t (od_dev adev))) min_ts in
      let '(ret, min_ts) := output_wake_streams t rest min_ts in
      (n + ret, min_ts)
  end.

(** Second [DL_FOREACH] over the output devices in [get_next_output_wake]. *)
Fixpoint output_wake_devs (t : audio_thread) (odevs : list open_dev)
    (min_ts : timespec) : Z * timespec :=
  match odevs with
  | [] => (0, min_ts)
  | adev :: rest =>
      if negb (dev_odev_should_wake (get_iodev t (od_dev adev)))
      then output_wake_devs t rest min_ts
      else
        let min_ts := if timespec_after min_ts (od_wake_ts adev)
                      then od_wake_ts adev else min_ts in
        let '(ret, min_ts) := output_wake_devs t rest min_ts in
        (ret + 1, min_ts)
  end.

(** [get_next_output_wake] *)
Definition get_next_output_wake (t : audio_thread) (odevs : list open_dev)
    (min_ts now : timespec) : Z * timespec :=
  let '(ret, min_ts) := output_wake_streams t odevs min_ts in
  let '(ret', min_ts) := output_wake_devs t odevs min_ts in
  (ret + ret', min_ts).

(** Modelled from the spec: [dev_io_next_input_wake] of [dev_io.h], the
    input-scheduling helper, which returns a count and the updated [min_ts]
    (§4.3 step 4): every open input device counts and lowers [min_ts] to its
    hardware wake time. *)
Fixpoint dev_io_next_input_wake (t : audio_thread) (idevs : list open_dev)
    (min_ts : timespec) : Z * timespec :=
  match idevs with
  | [] => (0, min_ts)
  | adev :: rest =>
      if negb (dev_is_open (get_iodev t (od_dev adev)))
      then dev_io_next_input_wake t rest min_ts
      else
        let min_ts := if timespec_after min_ts (od_wake_ts adev)
                      then od_wake_ts adev else min_ts in
        let '(ret, min_ts) := dev_io_next_input_wake t rest min_ts in
        (ret + 1, min_ts)
  end.

(** The deadline [min_ts] of [fill_next_sleep_interval] just before the final
    comparison with [now], and the count [ret]. *)
Definition next_wake_deadline (t : audio_thread) (now : timespec) : Z * timespec :=
  let min_ts := add_timespecs (Timespec 20 0) now in
  let '(ret, min_ts) :=
    get_next_output_wake t (open_devs t CRAS_STREAM_OUTPUT) min_ts now in
  let '(ret', min_ts) :=
    dev_io_next_input_wake t (open_devs t CRAS_STREAM_INPUT) min_ts in
  (ret + ret', min_ts).

(** [fill_next_sleep_interval]: the count, [*ts], and the state after the
    clock read. *)
Definition fill_next_sleep_interval (t : audio_thread) : Z * timespec * audio_thread :=
  let ts := Timespec 0 0 in
  let '(now, t) := clock_gettime t in
  let '(ret, min_ts) := next_wake_deadline t now in
  let ts := if timespec_after min_ts now then subtract_timespecs min_ts now else ts in
  (ret, ts, t).

End Handlers.

(** ** Error kinds of the reply channel *)

(** Modelled from the spec: the error kinds returned through the reply
    channel (§7) and the [errno] codes that carry them. *)
Inductive error_kind : Type :=
| AlreadyExists
| NotFound
| InvalidArg
| OutOfMemory
| Pipe.

Definition reply_error_kind (rc : Z) : option error_kind :=
  if rc =? - EEXIST then Some AlreadyExists
  else if rc =? - ENOENT then Some NotFound
  else if rc =? - EINVAL then Some InvalidArg
  else if rc =? - ENOMEM then Some OutOfMemory
  else if rc =? - EPIPE then Some Pipe
  else None.

(** ** Vocabulary of the properties, and example states *)

(** The stream is bound on none of the listed open devices. *)
Definition unbound_on (stream : ptr) (devs : list open_dev) (t : audio_thread) : Prop :=
  forall adev out,
    adev ∈ devs ->
    out ∈ dev_streams (get_iodev t (od_dev adev)) ->
    ds_stream out <> stream.

Definition zero_wait : option timespec := Some (Timespec 0 0).

(** A thread with nothing open, as [audio_thread_create] leaves it. *)
Definition idle_thread : audio_thread :=
  {| open_odevs := []; open_idevs := []; iodevs := ∅; rstreams := ∅;
     longest_wake := Timespec 0 0; continuous_zero_sleep_count := 0;
     busyloop_events := 0; clock_reads := 0; destroyed := [];
     debug_info := None |}.

Definition example_clock (n : nat) : timespec := Timespec (100 + Z.of_nat n) 0.

Definition create_always_ok (stream dev : ptr) : bool := true.

Definition speaker : cras_iodev :=
  {| dev_direction := CRAS_STREAM_OUTPUT; dev_info_idx := 3;
     dev_min_buffer_level := 240; dev_streams := []; dev_flush_buffer := 0;
     dev_is_open := true; dev_odev_should_wake := false; dev_zeros_filled := 0 |}.

(** A started thread that knows the speaker (address 1) but has not opened it. *)
Definition thread_speaker_closed : audio_thread :=
  set_iodevs {[ 1%positive := speaker ]} idle_thread.

(** The speaker is open and idle; the longest wake seen so far is 5 ms. *)
Definition thread_speaker_idle : audio_thread :=
  set_longest_wake (Timespec 0 5000000)
    (set_open_devs CRAS_STREAM_OUTPUT
       [{| od_dev := 1%positive; od_wake_ts := Timespec 0 0 |}]
       thread_speaker_closed).

Definition mk_binding (stream : ptr) (dev_id : Z) (cb_ts : option timespec)
    (offset : Z) : dev_stream :=
  {| ds_stream := stream; ds_dev_id := dev_id; ds_init_cb_ts := Timespec 0 0;
     ds_next_cb_ts := cb_ts; ds_can_fetch := true; ds_playback_frames := 0;
     ds_poll_stream_fd := -1; ds_offset := offset |}.

Definition mic : cras_iodev :=
  {| dev_direction := CRAS_STREAM_INPUT; dev_info_idx := 5;
     dev_min_buffer_level := 0; dev_streams := []; dev_flush_buffer := 0;
     dev_is_open := true; dev_odev_should_wake := false; dev_zeros_filled := 0 |}.

Definition mk_rstream (id : Z) (dir : CRAS_STREAM_DIRECTION) (cb_threshold frames : Z)
    (offsets : gmap Z Z) : cras_rstream :=
  {| rs_stream_id := id; rs_direction := dir; rs_cb_threshold := cb_threshold;
     rs_frame_rate := 48000; rs_is_draining := false; rs_shm_frames := frames;
     rs_dev_offsets := offsets |}.

(** The microphone (address 2) is open and has the capture stream at
    address 10 attached. *)
Definition thread_capturing : audio_thread :=
  set_rstreams {[ 10%positive := mk_rstream 65537 CRAS_STREAM_INPUT 512 0 ∅ ]}
    (set_iodevs
       {[ 2%positive := set_dev_streams [mk_binding 10 5 None 0] mic ]}
       (set_open_devs CRAS_STREAM_INPUT
          [{| od_dev := 2%positive; od_wake_ts := Timespec 0 0 |}] idle_thread)).

(** The speaker is open and plays the stream at address 20, which still has
    4800 frames in its shared memory. *)
Definition thread_playing : audio_thread :=
  set_rstreams {[ 20%positive := mk_rstream 131073 CRAS_STREAM_OUTPUT 480 4800 ∅ ]}
    (set_iodevs
       {[ 1%positive := set_dev_streams [mk_binding 20 3 (Some (Timespec 99 0)) 0] speaker ]}
       (set_open_devs CRAS_STREAM_OUTPUT
          [{| od_dev := 1%positive; od_wake_ts := Timespec 0 0 |}] idle_thread)).

(** Binding the stream to [iodev] fails in state [t]: the device is open in
    the stream's direction and not yet bound to the stream, and either
    [dev_stream_create] fails or the device is an input device without
    streams whose flush returns a negative result. *)
Definition attach_fails (ok : ptr -> ptr -> bool) (stream iodev : ptr)
    (t : audio_thread) : Prop :=
  let dir := rs_direction (get_rstream t stream) in
  let dev := get_iodev t iodev in
  search_open_dev (open_devs t dir) iodev <> None /\
  search_dev_stream (dev_streams dev) stream = None /\
  (ok stream iodev = false \/
   (dir = CRAS_STREAM_INPUT /\ dev_streams dev = [] /\ dev_flush_buffer dev < 0)).

(** What no attach changes: the open-device lists and the direction of the
    streams. *)
Definition same_lists (t t' : audio_thread) : Prop :=
  open_odevs t' = open_odevs t /\ open_idevs t' = open_idevs t /\
  forall p, rs_direction (get_rstream t' p) = rs_direction (get_rstream t p).

Definition headphones : cras_iodev :=
  {| dev_direction := CRAS_STREAM_OUTPUT; dev_info_idx := 7;
     dev_min_buffer_level := 240; dev_streams := []; dev_flush_buffer := 0;
     dev_is_open := true; dev_odev_should_wake := false; dev_zeros_filled := 0 |}.

Definition hdmi : cras_iodev :=
  {| dev_direction := CRAS_STREAM_OUTPUT; dev_info_idx := 9;
     dev_min_buffer_level := 240; dev_streams := []; dev_flush_buffer := 0;
     dev_is_open := true; dev_odev_should_wake := false; dev_zeros_filled := 0 |}.

Definition opened (p : ptr) : open_dev := {| od_dev := p; od_wake_ts := Timespec 0 0 |}.

(** Three open output devices (addresses 1, 3 and 4) without streams, and a
    playback stream at address 21 that is not attached yet. *)
Definition thread_three_outputs : audio_thread :=
  set_rstreams {[ 21%positive := mk_rstream 196609 CRAS_STREAM_OUTPUT 480 0 ∅ ]}
    (set_iodevs
       (<[ 1%positive := speaker ]>
          (<[ 3%positive := headphones ]> {[ 4%positive := hdmi ]}))
       (set_open_devs CRAS_STREAM_OUTPUT [opened 1; opened 3; opened 4] idle_thread)).

(** [dev_stream_create] fails on the device at address 4 only. *)
Definition create_fails_on_4 (stream dev : ptr) : bool := negb (Pos.eqb dev 4).

(** The state once the stream is bound to the devices at 1 and 3. *)
Definition thread_three_outputs_two_bound : audio_thread :=
  snd (fst (append_stream_loop example_clock create_fails_on_4 21 [1; 3]%positive
              thread_three_outputs append_locals_init)).

(** The number of bindings of a stream on a device. *)
Definition bound_count (stream iodev : ptr) (t : audio_thread) : nat :=
  length (filter (fun out => ds_stream out = stream) (dev_streams (get_iodev t iodev))).

(** The microphone is open and the capture stream at address 10 exists but
    is not attached. *)
Definition thread_mic_open : audio_thread :=
  set_rstreams {[ 10%positive := mk_rstream 65537 CRAS_STREAM_INPUT 512 0 ∅ ]}
    (set_iodevs {[ 2%positive := mic ]}
       (set_open_devs CRAS_STREAM_INPUT [opened 2] idle_thread)).

(** Scenario E2: the microphone already serves the stream at address 11,
    whose offset on it is 800; the stream at address 10 has a callback
    threshold of 512. *)
Definition thread_second_capture : audio_thread :=
  set_rstreams
    (<[ 10%positive := mk_rstream 65537 CRAS_STREAM_INPUT 512 0 ∅ ]>
       {[ 11%positive := mk_rstream 65538 CRAS_STREAM_INPUT 1024 0 {[ 5 := 800 ]} ]})
    (set_iodevs {[ 2%positive := set_dev_streams [mk_binding 11 5 None 800] mic ]}
       (set_open_devs CRAS_STREAM_INPUT [opened 2] idle_thread)).

(** The speaker (address 1) plays the stream at address 20, due at 99.99 s;
    the headphones (address 3) are open without streams; the playback stream
    at address 21 is not attached yet.  The clock stands at 100 s. *)
Definition thread_two_outputs : audio_thread :=
  set_rstreams
    (<[ 20%positive := mk_rstream 131073 CRAS_STREAM_OUTPUT 480 0 ∅ ]>
       {[ 21%positive := mk_rstream 196609 CRAS_STREAM_OUTPUT 480 0 ∅ ]})
    (set_iodevs
       (<[ 1%positive :=
             set_dev_streams [mk_binding 20 3 (Some (Timespec 99 990000000)) 0] speaker ]>
          {[ 3%positive := headphones ]})
       (set_open_devs CRAS_STREAM_OUTPUT [opened 1; opened 3] idle_thread)).

(** Every deadline the wake planner reads is a timespec in normal form. *)
Definition deadlines_valid (t : audio_thread) : Prop :=
  (forall adev, adev ∈ open_odevs t ++ open_idevs t -> timespec_valid (od_wake_ts adev)) /\
  (forall adev out ts,
     adev ∈ open_odevs t ->
     out ∈ dev_streams (get_iodev t (od_dev adev)) ->
     ds_next_cb_ts out = Some ts ->
     timespec_valid ts).

(** [b] is a valid deadline not later than [a]. *)
Definition lowered (a b : timespec) : Prop :=
  timespec_valid b /\ timespec_ns b <= timespec_ns a.

(** The speaker plays one stream due 10 ms after the clock reading of 100 s. *)
Definition thread_playing_due : audio_thread :=
  set_rstreams {[ 20%positive := mk_rstream 131073 CRAS_STREAM_OUTPUT 480 4800 ∅ ]}
    (set_iodevs
       {[ 1%positive :=
            set_dev_streams [mk_binding 20 3 (Some (Timespec 100 10000000)) 0] speaker ]}
       (set_open_devs CRAS_STREAM_OUTPUT [opened 1] idle_thread)).

(** [ts] is the earliest deadline present on the bindings of a list: some
    binding has it and none has an earlier one. *)
Definition earliest_cb_ts (ts : timespec) (streams : list dev_stream) : Prop :=
  (exists out, out ∈ streams /\ ds_next_cb_ts out = Some ts) /\
  (forall out x, out ∈ streams -> ds_next_cb_ts out = Some x ->
                 timespec_after ts x = false).

(** No binding of the list has a deadline. *)
Definition no_cb_ts (streams : list dev_stream) : Prop :=
  forall out, out ∈ streams -> ds_next_cb_ts out = None.

(** Two open microphones (addresses 2 and 5); flushing the second one fails
    with -5.  The capture stream at address 10 is not attached yet. *)
Definition thread_two_mics : audio_thread :=
  set_rstreams {[ 10%positive := mk_rstream 65537 CRAS_STREAM_INPUT 512 0 ∅ ]}
    (set_iodevs
       (<[ 2%positive := mic ]>
          {[ 5%positive :=
               {| dev_direction := CRAS_STREAM_INPUT; dev_info_idx := 6;
                  dev_min_buffer_level := 0; dev_streams := [];
                  dev_flush_buffer := -5; dev_is_open := true;
                  dev_odev_should_wake := false; dev_zeros_filled := 0 |} ]})
       (set_open_devs CRAS_STREAM_INPUT [opened 2; opened 5] idle_thread)).

(** ** The callback registry *)

(** [struct iodev_callback_list]: one registered callback.  [icb_cb] is the
    address of the handler, [icb_cb_data] its opaque argument, [icb_pollfd]
    the slot of [thread->pollfds] the record points into (null when absent). *)
Record iodev_callback_list : Type := {
  icb_fd : Z;
  icb_is_write : Z;
  icb_enabled : Z;
  icb_cb : Z;
  icb_cb_data : Z;
  icb_pollfd : option nat
}.

(** [_audio_thread_add_callback], on the static list [iodev_callbacks]. *)
Definition _audio_thread_add_callback (fd cb data is_write : Z)
    (iodev_callbacks : list iodev_callback_list) : list iodev_callback_list :=
  if existsb (fun iodev_cb => (icb_fd iodev_cb =? fd) && (icb_cb_data iodev_cb =? data))
             iodev_callbacks
  then iodev_callbacks
  else iodev_callbacks ++
       [{| icb_fd := fd; icb_is_write := is_write; icb_enabled := 1;
           icb_cb := cb; icb_cb_data := data; icb_pollfd := None |}].

(** [audio_thread_add_callback] *)
Definition audio_thread_add_callback (fd cb data : Z)
    (iodev_callbacks : list iodev_callback_list) : list iodev_callback_list :=
  _audio_thread_add_callback fd cb data 0 iodev_callbacks.

(** [audio_thread_add_write_callback] *)
Definition audio_thread_add_write_callback (fd cb data : Z)
    (iodev_callbacks : list iodev_callback_list) : list iodev_callback_list :=
  _audio_thread_add_callback fd cb data 1 iodev_callbacks.

(** [audio_thread_rm_callback] *)
Fixpoint audio_thread_rm_callback (fd : Z) (iodev_callbacks : list iodev_callback_list)
    : list iodev_callback_list :=
  match iodev_callbacks with
  | [] => []
  | iodev_cb :: rest =>
      if icb_fd iodev_cb =? fd then rest
      else iodev_cb :: audio_thread_rm_callback fd rest
  end.

Definition set_icb_enabled (v : Z) (c : iodev_callback_list) : iodev_callback_list :=
  {| icb_fd := icb_fd c; icb_is_write := icb_is_write c; icb_enabled := v;
     icb_cb := icb_cb c; icb_cb_data := icb_cb_data c; icb_pollfd := icb_pollfd c |}.

(** [audio_thread_enable_callback]; [!!enabled] is 0 for 0 and 1 otherwise. *)
Fixpoint audio_thread_enable_callback (fd enabled : Z)
    (iodev_callbacks : list iodev_callback_list) : list iodev_callback_list :=
  match iodev_callbacks with
  | [] => []
  | iodev_cb :: rest =>
      if icb_fd iodev_cb =? fd
      then set_icb_enabled (if enabled =? 0 then 0 else 1) iodev_cb :: rest
      else iodev_cb :: audio_thread_enable_callback fd enabled rest
  end.

(** The uniqueness key of a record. *)
Definition icb_key (c : iodev_callback_list) : Z * Z := (icb_fd c, icb_cb_data c).

Definition mk_callback (fd is_write enabled cb data : Z) : iodev_callback_list :=
  {| icb_fd := fd; icb_is_write := is_write; icb_enabled := enabled;
     icb_cb := cb; icb_cb_data := data; icb_pollfd := None |}.

(** ** Well-formed open-device lists *)

(** No device is listed twice in an open-device list, and every entry sits in
    the list of its device's direction. *)
Definition open_devs_wf (t : audio_thread) : Prop :=
  NoDup (map od_dev (open_odevs t)) /\
  NoDup (map od_dev (open_idevs t)) /\
  forall dir adev,
    adev ∈ open_devs t dir -> dev_direction (get_iodev t (od_dev adev)) = dir.

(** What the stream handlers leave alone: the open-device lists and the
    direction of every device. *)
Definition same_devs (t t' : audio_thread) : Prop :=
  open_odevs t' = open_odevs t /\ open_idevs t' = open_idevs t /\
  forall p, dev_direction (get_iodev t' p) = dev_direction (get_iodev t p).

(** The thread after a sequence of commands, replies dropped. *)
Definition run_commands (clk : nat -> timespec) (ok : ptr -> ptr -> bool) (md ms : Z)
    (msgs : list audio_thread_msg) (t : audio_thread) : audio_thread :=
  fold_left (fun t msg => snd (handle_playback_thread_message clk ok md ms msg t)) msgs t.

(** The speaker and the microphone are known, nothing is open. *)
Definition thread_started : audio_thread :=
  set_iodevs (<[ 1%positive := speaker ]> {[ 2%positive := mic ]}) idle_thread.

(** The speaker and the microphone are both open. *)
Definition thread_both_open : audio_thread :=
  set_open_devs CRAS_STREAM_INPUT [opened 2]
    (set_open_devs CRAS_STREAM_OUTPUT [opened 1] thread_started).

(** Invariant 1 of the data model: a device holds at most one binding of a
    stream. *)
Definition bindings_unique (t : audio_thread) : Prop :=
  forall stream iodev, (bound_count stream iodev t <= 1)%nat.

(** The counts of a dump agree with the filled part of its arrays, and the
    stream count is within its bound. *)
Definition dump_counts_ok (ms : Z) (d : dump_locals) : Prop :=
  Z.of_nat (length (dumped_devs d)) = num_devs d /\
  Z.of_nat (length (dumped_streams d)) = num_streams d /\
  num_streams d <= ms.

(** A binding that [get_next_stream_wake_from_list] waits on: not drained
    out, fetchable, and with a deadline. *)
Definition stream_wakes (t : audio_thread) (s : dev_stream) : bool :=
  negb (rs_is_draining (get_rstream t (ds_stream s)) && (ds_playback_frames s <=? 0))
  && ds_can_fetch s
  && match ds_next_cb_ts s with Some _ => true | None => false end.

(** The number of wakers of a thread: the bindings waited on over all open
    output devices, the output devices that ask to be woken, and the open
    input devices. *)
Definition wake_count (t : audio_thread) : nat :=
  (length (List.filter (stream_wakes t)
             (concat (map (fun adev => dev_streams (get_iodev t (od_dev adev)))
                          (open_odevs t))))
   + length (List.filter (fun adev => dev_odev_should_wake (get_iodev t (od_dev adev)))
               (open_odevs t))
   + length (List.filter (fun adev => dev_is_open (get_iodev t (od_dev adev)))
               (open_idevs t)))%nat.

(** The speaker plays one stream that was due 10 ms before the clock
    reading of 100 s. *)
Definition thread_playing_overdue : audio_thread :=
  set_rstreams {[ 20%positive := mk_rstream 131073 CRAS_STREAM_OUTPUT 480 4800 ∅ ]}
    (set_iodevs
       {[ 1%positive :=
            set_dev_streams [mk_binding 20 3 (Some (Timespec 99 990000000)) 0] speaker ]}
       (set_open_devs CRAS_STREAM_OUTPUT [opened 1] idle_thread)).

(** ** The command pipe *)

Definition EINTR : Z := 4.

(** A C [int] holding the value [z] after conversion (two's complement,
    32 bits). *)
Definition int_of (z : Z) : Z := (z + 2 ^ 31) mod 2 ^ 32 - 2 ^ 31.

(** How successive [read] calls on the pipe turn out: data is there (at
    least one byte), the call fails with an errno, or the write end is
    closed.  Bytes are [uint8_t] values. *)
Inductive read_event : Type :=
| ReadBytes (b : Z) (bs : list Z)
| ReadErrno (errno : Z)
| ReadEof.

(** Data a [read] left behind stays at the head of the pipe. *)
Definition unread (bytes : list Z) (pipe : list read_event) : list read_event :=
  match bytes with
  | [] => pipe
  | b :: bs => ReadBytes b bs :: pipe
  end.

(** The [while (count_left > 0)] loop of [read_until_finished], entered with
    [count_left > 0].  A [read] of [count_left] bytes returns what is there, up
    to [count_left]; a failed [read] returns -1.  The result is the return
    value, the bytes stored into [buf], and the pipe left; [None] when the
    pipe stays silent and the call never returns. *)
Fixpoint read_loop (pipe : list read_event) (count count_left : Z) (buf : list Z)
    : option (Z * list Z * list read_event) :=
  match pipe with
  | [] => None
  | ReadErrno errno :: rest =>
      let nread := -1 in
      if errno =? EINTR then read_loop rest count count_left buf
      else Some (nread, buf, rest)
  | ReadEof :: rest => Some (- EPIPE, buf, ReadEof :: rest)
  | ReadBytes b bs :: rest =>
      let nread := Z.min count_left (Z.of_nat (length (b :: bs))) in
      let buf := buf ++ take (Z.to_nat nread) (b :: bs) in
      let count_left := count_left - nread in
      if 0 <? count_left then read_loop rest count count_left buf
      else Some (int_of count, buf, unread (drop (Z.to_nat nread) (b :: bs)) rest)
  end.

(** [read_until_finished]; [count] is the [size_t] argument. *)
Definition read_until_finished (pipe : list read_event) (count : Z)
    : option (Z * list Z * list read_event) :=
  let count_left := int_of count in
  if 0 <? count_left then read_loop pipe count count_left []
  else Some (int_of count, [], pipe).

(** The bytes a pipe delivers before its first end of file or error other
    than [EINTR]. *)
Fixpoint pipe_bytes (pipe : list read_event) : list Z :=
  match pipe with
  | [] => []
  | ReadBytes b bs :: rest => (b :: bs) ++ pipe_bytes rest
  | ReadErrno errno :: rest => if errno =? EINTR then pipe_bytes rest else []
  | ReadEof :: _ => []
  end.

(** What ends the data of a pipe: the code [read_until_finished] returns
    there, or [None] when the pipe just stays silent. *)
Fixpoint pipe_end (pipe : list read_event) : option Z :=
  match pipe with
  | [] => None
  | ReadBytes _ _ :: rest => pipe_end rest
  | ReadErrno errno :: rest => if errno =? EINTR then pipe_end rest else Some (-1)
  | ReadEof :: _ => Some (- EPIPE)
  end.

Section Codec.

(** [sizeof(msg->length)], the size of a [size_t]. *)
Variable sizeof_length : Z.

(** The [size_t] value the machine reads from the first [sizeof_length]
    bytes of a buffer. *)
Variable decode_length : list Z -> Z.

Definition size_t_modulus : Z := 2 ^ (8 * sizeof_length).

(** [audio_thread_read_command]: the return value, the bytes stored into
    [buf], the pipe left. *)
Definition audio_thread_read_command (pipe : list read_event) (max_len : Z)
    : option (Z * list Z * list read_event) :=
  match read_until_finished pipe sizeof_length with
  | None => None
  | Some (nread, buf, pipe) =>
      if nread <? 0 then Some (nread, buf, pipe)
      else
        let length := decode_length buf in
        if max_len <? length then Some (- ENOMEM, buf, pipe)
        else
          let to_read := int_of ((length - sizeof_length) mod size_t_modulus) in
          match read_until_finished pipe (to_read mod size_t_modulus) with
          | None => None
          | Some (rc, payload, pipe) =>
              if rc <? 0 then Some (rc, buf ++ payload, pipe)
              else Some (0, buf ++ payload, pipe)
          end
  end.

End Codec.

(** A [size_t] stored least significant byte first. *)
Fixpoint le_decode (bytes : list Z) : Z :=
  match bytes with
  | [] => 0
  | b :: rest => b + 256 * le_decode rest
  end.

Definition le_length (buf : list Z) : Z := le_decode (take 8 buf).

(** ** The global remix matrix *)

(** C [unsigned int] arithmetic wraps modulo [2^32]. *)
Definition uint_of (z : Z) : Z := z mod 2 ^ 32.

Section Remix.

(** The [float] values of the matrix and the two comparisons the check makes
    on them, [x != 1.0f] and [x != 0]. *)
Variable float : Type.
Variable ne_one : float -> bool.
Variable ne_zero : float -> bool.

(** The inner loop of [audio_thread_config_global_remix],
    [for (j = i + 1; j < num_channels; j++)], over the values [js] that [j]
    takes; a [break] leaves the loop with [identity_remix = 0]. *)
Fixpoint remix_row_loop (num_channels : Z) (coefficient : Z -> float) (i : Z)
    (js : list Z) (identity_remix : Z) : Z :=
  match js with
  | [] => identity_remix
  | j :: js =>
      if ne_zero (coefficient (uint_of (i * num_channels + j)))
         || ne_zero (coefficient (uint_of (j * num_channels + i)))
      then 0
      else remix_row_loop num_channels coefficient i js identity_remix
  end.

(** The outer loop, [for (i = 0; i < num_channels; i++)], over the values
    [rows] that [i] takes.  Its [break] leaves the whole check; the [break] of
    the inner loop leaves the row only, and the next row is checked with
    [identity_remix] already cleared. *)
Fixpoint remix_loop (num_channels : Z) (coefficient : Z -> float)
    (rows : list Z) (identity_remix : Z) : Z :=
  match rows with
  | [] => identity_remix
  | i :: rows =>
      if ne_one (coefficient (uint_of (i * num_channels + i))) then 0
      else
        let identity_remix :=
          remix_row_loop num_channels coefficient i
            (seqZ (i + 1) (num_channels - (i + 1))) identity_remix in
        remix_loop num_channels coefficient rows identity_remix
  end.

(** The local [identity_remix] of [audio_thread_config_global_remix] once
    the check of the coefficients is over; the converter is created when it
    is [0].  The counters [i] and [j] stay below [num_channels], so that
    [i++] and [j++] never wrap. *)
Definition identity_remix (num_channels : Z) (coefficient : Z -> float) : Z :=
  remix_loop num_channels coefficient (seqZ 0 num_channels) 1.

End Remix.

(** A matrix of integers standing for floats, stored row by row. *)
Definition matrix_of (l : list Z) (k : Z) : Z := nth (Z.to_nat k) l 7.

(** ** The poll set *)

(** [poll.h] event bits. *)
Definition POLLIN : Z := 1.
Definition POLLOUT : Z := 4.

(** [sizeof(struct pollfd)]: an [int] and two [short]. *)
Definition sizeof_pollfd : Z := 8.

(** [struct pollfd] *)
Record pollfd : Type := {
  pfd_fd : Z;
  pfd_events : Z;
  pfd_revents : Z
}.

(** The descriptor array of [struct audio_thread]: the allocation
    [thread->pollfds], the number [thread->num_pollfds] of entries in use and
    the capacity [thread->pollfds_size], both of type [size_t]. *)
Record poll_set : Type := {
  pollfds : list pollfd;
  num_pollfds : Z;
  pollfds_size : Z
}.

Definition set_num_pollfds (n : Z) (p : poll_set) : poll_set :=
  {| pollfds := pollfds p; num_pollfds := n; pollfds_size := pollfds_size p |}.

Definition set_icb_pollfd (slot : option nat) (c : iodev_callback_list)
    : iodev_callback_list :=
  {| icb_fd := icb_fd c; icb_is_write := icb_is_write c; icb_enabled := icb_enabled c;
     icb_cb := icb_cb c; icb_cb_data := icb_cb_data c; icb_pollfd := slot |}.

Section PollSet.

(** [sizeof(size_t)] *)
Variable sizeof_size_t : Z.

(** What an entry handed out by [realloc] holds before it is written. *)
Variable uninit : pollfd.

(** A value stored into a [size_t]. *)
Definition size_t_of (z : Z) : Z := z mod size_t_modulus sizeof_size_t.

(** [realloc] of the C library on the descriptor array, taken to succeed:
    an allocation of [size] bytes that keeps the entries it has room for. *)
Definition realloc (pollfds : list pollfd) (size : Z) : list pollfd :=
  resize (Z.to_nat (size / sizeof_pollfd)) uninit pollfds.

(** [add_pollfd]: the slot returned, null when the array has grown, and the
    array left; [None] when the entry is written behind the allocation.
    [revents] of the entry is left as it was. *)
Definition add_pollfd (fd is_write : Z) (p : poll_set) : option (option nat * poll_set) :=
  let i := Z.to_nat (num_pollfds p) in
  match pollfds p !! i with
  | None => None
  | Some slot =>
      let pollfds :=
        <[i := {| pfd_fd := fd;
                  pfd_events := if is_write =? 0 then POLLIN else POLLOUT;
                  pfd_revents := pfd_revents slot |}]> (pollfds p) in
      let num_pollfds := size_t_of (num_pollfds p + 1) in
      if pollfds_size p <=? num_pollfds then
        let pollfds_size := size_t_of (pollfds_size p * 2) in
        Some (None,
              {| pollfds := realloc pollfds (size_t_of (sizeof_pollfd * pollfds_size));
                 num_pollfds := num_pollfds;
                 pollfds_size := pollfds_size |})
      else
        Some (Some (Z.to_nat (size_t_of (num_pollfds - 1))),
              {| pollfds := pollfds;
                 num_pollfds := num_pollfds;
                 pollfds_size := pollfds_size p |})
  end.

(** The loop of [audio_io_thread] over [iodev_callbacks]: whether it left
    through [goto restart_poll_loop], the callbacks with the slots recorded,
    and the array. *)
Fixpoint poll_callbacks (iodev_callbacks : list iodev_callback_list) (p : poll_set)
    : option (bool * list iodev_callback_list * poll_set) :=
  match iodev_callbacks with
  | [] => Some (false, [], p)
  | iodev_cb :: rest =>
      if icb_enabled iodev_cb =? 0 then
        match poll_callbacks rest p with
        | None => None
        | Some (restart, rest, p) => Some (restart, iodev_cb :: rest, p)
        end
      else
        match add_pollfd (icb_fd iodev_cb) (icb_is_write iodev_cb) p with
        | None => None
        | Some (slot, p) =>
            let iodev_cb := set_icb_pollfd slot iodev_cb in
            match slot with
            | None => Some (true, iodev_cb :: rest, p)
            | Some _ =>
                match poll_callbacks rest p with
                | None => None
                | Some (restart, rest, p) => Some (restart, iodev_cb :: rest, p)
                end
            end
        end
  end.

(** The loop over the streams of one open device, [DL_FOREACH(adev->dev->streams, curr)]. *)
Fixpoint poll_streams (streams : list dev_stream) (p : poll_set)
    : option (bool * poll_set) :=
  match streams with
  | [] => Some (false, p)
  | curr :: rest =>
      let fd := ds_poll_stream_fd curr in
      if fd <? 0 then poll_streams rest p
      else
        match add_pollfd fd 0 p with
        | None => None
        | Some (None, p) => Some (true, p)
        | Some (Some _, p) => poll_streams rest p
        end
  end.

(** The loop over the open devices of one direction. *)
Fixpoint poll_open_devs (t : audio_thread) (devs : list open_dev) (p : poll_set)
    : option (bool * poll_set) :=
  match devs with
  | [] => Some (false, p)
  | adev :: rest =>
      match poll_streams (dev_streams (get_iodev t (od_dev adev))) p with
      | None => None
      | Some (true, p) => Some (true, p)
      | Some (false, p) => poll_open_devs t rest p
      end
  end.

(** One pass of [audio_io_thread] from the label [restart_poll_loop] to the
    end of the three loops, or to the first [goto restart_poll_loop]. *)
Definition poll_pass (t : audio_thread) (iodev_callbacks : list iodev_callback_list)
    (p : poll_set) : option (bool * list iodev_callback_list * poll_set) :=
  let p := set_num_pollfds 1 p in
  match poll_callbacks iodev_callbacks p with
  | None => None
  | Some (true, iodev_callbacks, p) => Some (true, iodev_callbacks, p)
  | Some (false, iodev_callbacks, p) =>
      match poll_open_devs t (open_devs t CRAS_STREAM_OUTPUT) p with
      | None => None
      | Some (true, p) => Some (true, iodev_callbacks, p)
      | Some (false, p) =>
          match poll_open_devs t (open_devs t CRAS_STREAM_INPUT) p with
          | None => None
          | Some (restart, p) => Some (restart, iodev_callbacks, p)
          end
      end
  end.

(** The passes repeated until one reaches the end of the three loops;
    [None] when [fuel] passes do not get there, or when an entry is written
    behind the allocation. *)
Fixpoint restart_poll_loop (fuel : nat) (t : audio_thread)
    (iodev_callbacks : list iodev_callback_list) (p : poll_set)
    : option (list iodev_callback_list * poll_set) :=
  match fuel with
  | O => None
  | S fuel =>
      match poll_pass t iodev_callbacks p with
      | None => None
      | Some (true, iodev_callbacks, p) => restart_poll_loop fuel t iodev_callbacks p
      | Some (false, iodev_callbacks, p) => Some (iodev_callbacks, p)
      end
  end.

End PollSet.

(** *** Vocabulary of the poll set *)

(** What [ppoll] is asked about one entry. *)
Definition pfd_req (s : pollfd) : Z * Z := (pfd_fd s, pfd_events s).

(** The requests of the entries in use, in the order of the array. *)
Definition polled (p : poll_set) : list (Z * Z) :=
  map pfd_req (take (Z.to_nat (num_pollfds p)) (pollfds p)).

Definition callback_req (c : iodev_callback_list) : Z * Z :=
  (icb_fd c, if icb_is_write c =? 0 then POLLIN else POLLOUT).

(** The requests of the enabled callbacks, in the order of the registry. *)
Definition callback_reqs (iodev_callbacks : list iodev_callback_list) : list (Z * Z) :=
  map callback_req (List.filter (fun c => negb (icb_enabled c =? 0)) iodev_callbacks).

(** The requests of the streams that have a descriptor to poll. *)
Definition stream_reqs (streams : list dev_stream) : list (Z * Z) :=
  map (fun curr => (ds_poll_stream_fd curr, POLLIN))
      (List.filter (fun curr => negb (ds_poll_stream_fd curr <? 0)) streams).

Definition open_dev_reqs (t : audio_thread) (devs : list open_dev) : list (Z * Z) :=
  flat_map (fun adev => stream_reqs (dev_streams (get_iodev t (od_dev adev)))) devs.

(** Everything behind slot 0: the enabled callbacks, then the streams of the
    open output devices, then those of the open input devices. *)
Definition poll_reqs (t : audio_thread) (iodev_callbacks : list iodev_callback_list)
    : list (Z * Z) :=
  callback_reqs iodev_callbacks
  ++ open_dev_reqs t (open_devs t CRAS_STREAM_OUTPUT)
  ++ open_dev_reqs t (open_devs t CRAS_STREAM_INPUT).

(** The callback points at an entry in use that asks about its descriptor. *)
Definition slot_holds (p : poll_set) (c : iodev_callback_list) : Prop :=
  exists k, icb_pollfd c = Some k /\ polled p !! k = Some (callback_req c).

(** [c'] is [c] with another slot recorded, the same one if [c] is disabled. *)
Definition callback_kept (c c' : iodev_callback_list) : Prop :=
  c' = set_icb_pollfd (icb_pollfd c') c /\
  (icb_enabled c = 0 -> icb_pollfd c' = icb_pollfd c).

(** [c'] is [c] after a build of the poll set that ended in [p]. *)
Definition callback_polled (p : poll_set) (c c' : iodev_callback_list) : Prop :=
  callback_kept c c' /\ (icb_enabled c <> 0 -> slot_holds p c').

(** The array has room behind the entries in use, and [thread->pollfds_size]
    is the size of the allocation. *)
Definition poll_set_ok (p : poll_set) : Prop :=
  0 <= num_pollfds p < pollfds_size p /\
  Z.of_nat (length (pollfds p)) = pollfds_size p.

(** [p'] is [p] with [reqs] added behind the entries in use. *)
Definition grown (p p' : poll_set) (reqs : list (Z * Z)) : Prop :=
  poll_set_ok p' /\
  num_pollfds p' = num_pollfds p + Z.of_nat (length reqs) /\
  polled p' = polled p ++ reqs.

(** [p'] is [p] after a pass that left through [goto restart_poll_loop]
    with at most [n] entries to add. *)
Definition restarted (p p' : poll_set) (n : Z) : Prop :=
  poll_set_ok p' /\
  pollfds_size p' = 2 * pollfds_size p /\
  pollfds_size p <= num_pollfds p + n /\
  exists reqs, polled p' = polled p ++ reqs.

Definition pass_outcome (restart : bool) (p p' : poll_set) (reqs : list (Z * Z)) : Prop :=
  if restart then restarted p p' (Z.of_nat (length reqs))
  else grown p p' reqs /\ pollfds_size p' = pollfds_size p.

(** *** Example poll sets *)

Definition mk_pollfd (fd events : Z) : pollfd :=
  {| pfd_fd := fd; pfd_events := events; pfd_revents := 0 |}.

(** An array of two entries whose slot 0 holds the message pipe, descriptor 5. *)
Definition small_poll_set : poll_set :=
  {| pollfds := [mk_pollfd 5 POLLIN; mk_pollfd 0 0];
     num_pollfds := 1; pollfds_size := 2 |}.

(** A read callback on descriptor 9, a disabled write callback on 11 and a
    write callback on 12. *)
Definition three_callbacks : list iodev_callback_list :=
  [mk_callback 9 0 1 200 0; mk_callback 11 1 0 201 0; mk_callback 12 1 1 202 0].

Definition mk_polled_binding (stream : ptr) (dev_id fd : Z) : dev_stream :=
  {| ds_stream := stream; ds_dev_id := dev_id; ds_init_cb_ts := Timespec 0 0;
     ds_next_cb_ts := None; ds_can_fetch := true; ds_playback_frames := 0;
     ds_poll_stream_fd := fd; ds_offset := 0 |}.

(** The speaker (address 1) plays a stream polled on descriptor 30 and one
    without a descriptor; the microphone (address 2) has a stream polled on
    descriptor 31. *)
Definition thread_polling : audio_thread :=
  set_iodevs
    {[ 1%positive := set_dev_streams
                       [mk_polled_binding 20 3 30; mk_polled_binding 21 3 (-1)] speaker;
       2%positive := set_dev_streams [mk_polled_binding 10 5 31] mic ]}
    (set_open_devs CRAS_STREAM_OUTPUT [opened 1]
       (set_open_devs CRAS_STREAM_INPUT [opened 2] idle_thread)).

(** ** Properties *)

(** *** Reading the state after an update *)

Lemma get_iodev_update p f t q :
  get_iodev (update_iodev p f t) q =
  if decide (p = q) then f (get_iodev t p) else get_iodev t q.
Proof.
  unfold get_iodev, update_iodev; simpl.
  rewrite lookup_insert. destruct (decide (p = q)); reflexivity.
Qed.

Lemma get_rstream_update_iodev p f t q :
  get_rstream (update_iodev p f t) q = get_rstream t q.
Proof. reflexivity. Qed.

Lemma get_rstream_update p f t q :
  get_rstream (update_rstream p f t) q =
  if decide (p = q) then f (get_rstream t p) else get_rstream t q.
Proof.
  unfold get_rstream, update_rstream; simpl.
  rewrite lookup_insert. destruct (decide (p = q)); reflexivity.
Qed.

Lemma dev_streams_rm_stream dev stream t q :
  dev_streams (get_iodev (cras_iodev_rm_stream dev stream t) q) =
  if decide (dev = q)
  then filter (fun out => ds_stream out <> stream) (dev_streams (get_iodev t q))
  else dev_streams (get_iodev t q).
Proof.
  unfold cras_iodev_rm_stream. rewrite get_iodev_update.
  destruct (decide (dev = q)) as [->|]; reflexivity.
Qed.

Lemma rm_stream_subset dev stream t q out :
  out ∈ dev_streams (get_iodev (cras_iodev_rm_stream dev stream t) q) ->
  out ∈ dev_streams (get_iodev t q).
Proof.
  rewrite dev_streams_rm_stream. destruct (decide (dev = q)); [|tauto].
  rewrite list_elem_of_filter. tauto.
Qed.

Lemma search_dev_stream_none l stream :
  search_dev_stream l stream = None <-> (forall out, out ∈ l -> ds_stream out <> stream).
Proof.
  unfold search_dev_stream. split.
  - intros H out Hin Heq. apply list_elem_of_In in Hin.
    pose proof (find_none _ _ H _ Hin) as Hf. simpl in Hf.
    apply Pos.eqb_neq in Hf. contradiction.
  - intros H. destruct (find _ l) as [out|] eqn:E; [|reflexivity].
    apply find_some in E as [Hin Heq]. apply Pos.eqb_eq in Heq.
    apply list_elem_of_In in Hin. exfalso. exact (H _ Hin Heq).
Qed.

Lemma search_dev_stream_some l stream out :
  search_dev_stream l stream = Some out -> out ∈ l /\ ds_stream out = stream.
Proof.
  unfold search_dev_stream. intros E. apply find_some in E as [Hin Heq].
  apply Pos.eqb_eq in Heq. apply list_elem_of_In in Hin. tauto.
Qed.

(** *** Detaching a stream from every device of a list *)

Lemma detach_everywhere_subset stream l : forall t q out,
  out ∈ dev_streams (get_iodev (detach_everywhere l stream t) q) ->
  out ∈ dev_streams (get_iodev t q).
Proof.
  induction l as [|adev rest IH]; intros t q out H; simpl in H; [exact H|].
  apply IH in H. eapply rm_stream_subset; eassumption.
Qed.

Lemma detach_everywhere_unbound stream l : forall t,
  unbound_on stream l (detach_everywhere l stream t).
Proof.
  induction l as [|adev rest IH]; intros t a out Hin Hout.
  - apply elem_of_nil in Hin. contradiction.
  - simpl in Hout. apply elem_of_cons in Hin as [->|Hin].
    + apply detach_everywhere_subset in Hout.
      rewrite dev_streams_rm_stream in Hout.
      destruct (decide (od_dev adev = od_dev adev)); [|congruence].
      apply list_elem_of_filter in Hout. tauto.
    + eapply IH; eassumption.
Qed.

Lemma detach_everywhere_frame stream l : forall t,
  open_odevs (detach_everywhere l stream t) = open_odevs t /\
  open_idevs (detach_everywhere l stream t) = open_idevs t /\
  rstreams (detach_everywhere l stream t) = rstreams t /\
  longest_wake (detach_everywhere l stream t) = longest_wake t.
Proof.
  induction l as [|adev rest IH]; intros t; simpl; [tauto|].
  destruct (IH (cras_iodev_rm_stream (od_dev adev) stream t)) as (-> & -> & -> & ->).
  simpl. tauto.
Qed.

Lemma thread_find_stream_false rstream t :
  thread_find_stream rstream t = false <->
  unbound_on rstream (open_devs t (rs_direction (get_rstream t rstream))) t.
Proof.
  unfold thread_find_stream, unbound_on. split.
  - intros H adev out Ha Ho Heq.
    assert (existsb (fun open_dev =>
              existsb (fun s => Pos.eqb (ds_stream s) rstream)
                      (dev_streams (get_iodev t (od_dev open_dev))))
              (open_devs t (rs_direction (get_rstream t rstream))) = true) as Ht.
    { apply existsb_exists. exists adev. split; [by apply list_elem_of_In|].
      apply existsb_exists. exists out. split; [by apply list_elem_of_In|].
      by apply Pos.eqb_eq. }
    congruence.
  - intros H. apply not_true_is_false. intros Ht.
    apply existsb_exists in Ht as (adev & Ha & Ht).
    apply existsb_exists in Ht as (out & Ho & Heq).
    apply Pos.eqb_eq in Heq. apply list_elem_of_In in Ha, Ho.
    exact (H adev out Ha Ho Heq).
Qed.

(** *** Busy-loop detection *)

Lemma check_busyloop_zero t :
  continuous_zero_sleep_count t <> INT_MAX ->
  check_busyloop (Timespec 0 0) t =
  let t' := set_zero_sleep_count (continuous_zero_sleep_count t + 1) t in
  if continuous_zero_sleep_count t + 1 =? MAX_CONTINUOUS_ZERO_SLEEP_COUNT
  then Some (cras_audio_thread_busyloop t') else Some t'.
Proof.
  intros H. unfold check_busyloop. cbn [tv_sec tv_nsec Z.eqb andb].
  destruct (Z.eqb_spec (continuous_zero_sleep_count t) INT_MAX); [contradiction|].
  reflexivity.
Qed.

Ltac case_cmp :=
  repeat match goal with
  | |- context [?a <? ?b] => destruct (Z.ltb_spec a b)
  | |- context [?a <=? ?b] => destruct (Z.leb_spec a b)
  | |- context [?a =? ?b] => destruct (Z.eqb_spec a b)
  | |- context [Nat.leb ?a ?b] => destruct (Nat.leb_spec a b)
  end.

Lemma busyloop_run_zero_waits n : forall t,
  0 <= continuous_zero_sleep_count t ->
  continuous_zero_sleep_count t + Z.of_nat n <= INT_MAX ->
  exists t',
    busyloop_run (repeat zero_wait n) t = Some t' /\
    continuous_zero_sleep_count t' = continuous_zero_sleep_count t + Z.of_nat n /\
    busyloop_events t'
      = Nat.add (busyloop_events t)
          (if (continuous_zero_sleep_count t <? 2)
              && (2 <=? continuous_zero_sleep_count t + Z.of_nat n)
           then 1%nat else 0%nat).
Proof.
  induction n as [|n IH]; intros t Hc Hmax.
  - exists t. split; [reflexivity|]. split; [simpl; lia|]. case_cmp; simpl; lia.
  - change (busyloop_run (repeat zero_wait (S n)) t)
      with (match check_busyloop (Timespec 0 0) t with
            | None => None
            | Some t => busyloop_run (repeat zero_wait n) t
            end).
    rewrite check_busyloop_zero by lia. cbv zeta.
    unfold MAX_CONTINUOUS_ZERO_SLEEP_COUNT.
    destruct (Z.eqb_spec (continuous_zero_sleep_count t + 1) 2) as [E|E].
    + edestruct (IH (cras_audio_thread_busyloop
                       (set_zero_sleep_count (continuous_zero_sleep_count t + 1) t)))
        as (t' & Hrun & H1 & H2); [simpl; lia|simpl; lia|].
      exists t'. split; [exact Hrun|]. rewrite H1, H2. simpl.
      split; [lia|]. case_cmp; simpl; lia.
    + edestruct (IH (set_zero_sleep_count (continuous_zero_sleep_count t + 1) t))
        as (t' & Hrun & H1 & H2); [simpl; lia|simpl; lia|].
      exists t'. split; [exact Hrun|]. rewrite H1, H2. simpl.
      split; [lia|]. case_cmp; simpl; lia.
Qed.

(** C5.  Starting with the counter at zero (its initial value, and its value
    after any non-zero wait), a run of [n] consecutive invocations of the
    checker with a zero wait, [n] within the range of the [int] counter, is
    defined and raises exactly one BusyLoop signal as soon as it has two
    invocations, and none beyond the second; and an invocation with a
    non-zero wait, in any state, is defined, puts the counter back to zero
    and raises no signal. *)
Theorem check_busyloop_two_zero_waits (t u : audio_thread) (n : nat) (wait_ts : timespec) :
  continuous_zero_sleep_count t = 0 ->
  Z.of_nat n <= INT_MAX ->
  tv_sec wait_ts <> 0 \/ tv_nsec wait_ts <> 0 ->
  (exists t',
     busyloop_run (repeat zero_wait n) t = Some t' /\
     busyloop_events t' = (busyloop_events t + if (2 <=? n)%nat then 1 else 0)%nat) /\
  (exists u',
     check_busyloop wait_ts u = Some u' /\
     continuous_zero_sleep_count u' = 0 /\
     busyloop_events u' = busyloop_events u).
Proof.
  intros H0 Hn Hnz. split.
  - destruct (busyloop_run_zero_waits n t) as (t' & Hrun & _ & H); [lia|lia|].
    exists t'. split; [exact Hrun|].
    rewrite H, H0. case_cmp; simpl; lia.
  - unfold check_busyloop.
    destruct ((tv_sec wait_ts =? 0) && (tv_nsec wait_ts =? 0)) eqn:E.
    + apply andb_true_iff in E as [E1 E2]. lia.
    + eexists. split; [reflexivity|]. split; reflexivity.
Qed.

Lemma check_busyloop_two_zero_waits_witness :
  (exists t',
     busyloop_run (repeat zero_wait 3) idle_thread = Some t' /\
     busyloop_events t' = (busyloop_events idle_thread + 1)%nat) /\
  (exists u',
     check_busyloop (Timespec 0 1000) idle_thread = Some u' /\
     continuous_zero_sleep_count u' = 0 /\
     busyloop_events u' = busyloop_events idle_thread).
Proof.
  apply (check_busyloop_two_zero_waits idle_thread idle_thread 3 (Timespec 0 1000)).
  - reflexivity.
  - vm_compute. discriminate.
  - right. simpl. lia.
Defined.

(** *** Removing an open device *)

(** C8, as stated, fails: removing a device that is not open is answered
    with [-EINVAL], the [InvalidArg] kind, not with [NotFound]. *)
Lemma thread_rm_open_dev_absent_not_NotFound :
  dev_io_find_open_dev
    (open_devs thread_speaker_closed
       (dev_direction (get_iodev thread_speaker_closed 1))) 1 = None /\
  reply_error_kind
    (fst (handle_playback_thread_message example_clock create_always_ok 4 8
            (AUDIO_THREAD_RM_OPEN_DEV 1) thread_speaker_closed))
  <> Some NotFound.
Proof. split; [reflexivity|]. vm_compute. discriminate. Qed.

(** C8, amended.  For every RmOpenDev(dev) where [dev] is not in the
    open-device list of its direction, the reply is [-EINVAL], which is the
    InvalidArg error kind, and the state, the open-device lists included, is
    left as it was. *)
Theorem thread_rm_open_dev_absent clk ok md ms (t : audio_thread) (dev : ptr) :
  dev_io_find_open_dev (open_devs t (dev_direction (get_iodev t dev))) dev = None ->
  handle_playback_thread_message clk ok md ms (AUDIO_THREAD_RM_OPEN_DEV dev) t
    = (- EINVAL, t) /\
  reply_error_kind (- EINVAL) = Some InvalidArg.
Proof.
  intros H. split; [|reflexivity].
  simpl. unfold thread_rm_open_dev. rewrite H. reflexivity.
Qed.

Lemma thread_rm_open_dev_absent_witness :
  handle_playback_thread_message example_clock create_always_ok 4 8
    (AUDIO_THREAD_RM_OPEN_DEV 1) thread_speaker_closed
    = (- EINVAL, thread_speaker_closed) /\
  reply_error_kind (- EINVAL) = Some InvalidArg.
Proof.
  apply (thread_rm_open_dev_absent example_clock create_always_ok 4 8
           thread_speaker_closed 1).
  reflexivity.
Defined.

(** *** Thread dump and [longest_wake] *)

Lemma dump_output_devs_no_streams ms md devs : forall d t,
  (forall adev, adev ∈ devs -> dev_streams (get_iodev t (od_dev adev)) = []) ->
  snd (dump_output_devs md ms devs d t) = t.
Proof.
  induction devs as [|adev rest IH]; intros d t H; simpl; [reflexivity|].
  destruct (_ =? md); [reflexivity|].
  rewrite (H adev) by (apply elem_of_cons; auto). simpl.
  apply IH. intros a Ha. apply H. apply elem_of_cons; auto.
Qed.

Lemma dump_input_devs_no_streams ms md devs : forall d t,
  (forall adev, adev ∈ devs -> dev_streams (get_iodev t (od_dev adev)) = []) ->
  snd (dump_input_devs md ms devs d t) = t.
Proof.
  induction devs as [|adev rest IH]; intros d t H; simpl; [reflexivity|].
  destruct (_ =? md); [reflexivity|].
  rewrite (H adev) by (apply elem_of_cons; auto). simpl.
  apply IH. intros a Ha. apply H. apply elem_of_cons; auto.
Qed.

(** A dump over open devices none of which has a stream attached leaves
    [longest_wake] as it was. *)
Lemma thread_dump_no_streams_keeps_longest_wake md ms (t : audio_thread) :
  (forall adev, adev ∈ open_odevs t ++ open_idevs t ->
                dev_streams (get_iodev t (od_dev adev)) = []) ->
  longest_wake (snd (thread_dump_thread_info md ms t)) = longest_wake t.
Proof.
  intros H. unfold thread_dump_thread_info.
  destruct (dump_output_devs md ms (open_devs t CRAS_STREAM_OUTPUT) _ t)
    as [d1 t1] eqn:E1.
  assert (t1 = t) as ->.
  { change t1 with (snd (d1, t1)). rewrite <- E1.
    apply dump_output_devs_no_streams. intros a Ha. apply H.
    apply elem_of_app. left. exact Ha. }
  destruct (dump_input_devs md ms (open_devs t CRAS_STREAM_INPUT) d1 t)
    as [d2 t2] eqn:E2.
  assert (t2 = t) as ->.
  { change t2 with (snd (d2, t2)). rewrite <- E2.
    apply dump_input_devs_no_streams. intros a Ha. apply H.
    apply elem_of_app. right. exact Ha. }
  reflexivity.
Qed.

(** C9, on the code.  With one open output device and no stream attached,
    DumpThreadInfo replies 0 and leaves [longest_wake] at 5 ms: the reset sits
    in [append_stream_dump_info], which runs once per recorded stream. *)
Theorem thread_dump_idle_keeps_longest_wake md ms :
  fst (handle_playback_thread_message example_clock create_always_ok md ms
         AUDIO_THREAD_DUMP_THREAD_INFO thread_speaker_idle) = 0 /\
  longest_wake
    (snd (handle_playback_thread_message example_clock create_always_ok md ms
            AUDIO_THREAD_DUMP_THREAD_INFO thread_speaker_idle))
  = Timespec 0 5000000.
Proof.
  split.
  - simpl. unfold thread_dump_thread_info.
    repeat match goal with |- context [let '(_, _) := ?x in _] => destruct x end.
    reflexivity.
  - simpl. rewrite thread_dump_no_streams_keeps_longest_wake; [reflexivity|].
    intros adev Ha. simpl in Ha. apply list_elem_of_singleton in Ha. subst adev.
    reflexivity.
Qed.

Example thread_dump_with_stream_resets_longest_wake :
  longest_wake
    (snd (handle_playback_thread_message example_clock create_always_ok 4 8
            AUDIO_THREAD_DUMP_THREAD_INFO
            (set_longest_wake (Timespec 0 5000000) thread_playing)))
  = Timespec 0 0.
Proof. reflexivity. Qed.

(** *** Draining a stream *)

Lemma drain_detach_everywhere (rstream : ptr) (t : audio_thread) :
  let dir := rs_direction (get_rstream t rstream) in
  let t' := snd (dev_io_remove_stream dir rstream None t) in
  unbound_on rstream (open_devs t dir) t' /\
  thread_find_stream rstream t' = false /\
  open_odevs t' = open_odevs t /\ open_idevs t' = open_idevs t /\
  rstreams t' = rstreams t.
Proof.
  cbv zeta. simpl.
  set (dir := rs_direction (get_rstream t rstream)).
  destruct (detach_everywhere_frame rstream (open_devs t dir) t) as (Ho & Hi & Hr & _).
  assert (get_rstream (detach_everywhere (open_devs t dir) rstream t) rstream
          = get_rstream t rstream) as Hg.
  { unfold get_rstream. rewrite Hr. reflexivity. }
  assert (open_devs (detach_everywhere (open_devs t dir) rstream t) dir
          = open_devs t dir) as Hd.
  { destruct dir; simpl; assumption. }
  split; [apply detach_everywhere_unbound|].
  split; [|tauto].
  apply thread_find_stream_false. rewrite Hg. fold dir. rewrite Hd.
  apply detach_everywhere_unbound.
Qed.

(** C10.  DrainStream on an attached stream whose direction is not output
    replies 0 and detaches the stream from every open device of its
    direction, leaving it attached nowhere. *)
Theorem thread_drain_stream_input clk ok md ms (rstream : ptr) (t : audio_thread) :
  thread_find_stream rstream t = true ->
  rs_direction (get_rstream t rstream) <> CRAS_STREAM_OUTPUT ->
  let r := handle_playback_thread_message clk ok md ms
             (AUDIO_THREAD_DRAIN_STREAM rstream) t in
  fst r = 0 /\
  unbound_on rstream (open_devs t (rs_direction (get_rstream t rstream))) (snd r) /\
  thread_find_stream rstream (snd r) = false /\
  open_odevs (snd r) = open_odevs t /\ open_idevs (snd r) = open_idevs t.
Proof.
  intros Hf Hd. cbv zeta. simpl. unfold thread_drain_stream. rewrite Hf. simpl.
  unfold thread_drain_stream_ms_remaining.
  destruct (rs_direction (get_rstream t rstream)) eqn:E; [congruence|].
  cbn [Z.eqb fst snd].
  destruct (drain_detach_everywhere rstream t) as (Hu & Hn & Ho & Hi & Hr).
  cbv zeta in Hu, Hn, Ho, Hi, Hr. rewrite E in Hu, Hn, Ho, Hi, Hr.
  rewrite ?E. tauto.
Qed.

Lemma thread_drain_stream_input_witness :
  let r := handle_playback_thread_message example_clock create_always_ok 4 8
             (AUDIO_THREAD_DRAIN_STREAM 10) thread_capturing in
  fst r = 0 /\
  unbound_on 10
    (open_devs thread_capturing (rs_direction (get_rstream thread_capturing 10)))
    (snd r) /\
  thread_find_stream 10 (snd r) = false /\
  open_odevs (snd r) = open_odevs thread_capturing /\
  open_idevs (snd r) = open_idevs thread_capturing.
Proof.
  apply (thread_drain_stream_input example_clock create_always_ok 4 8 10
           thread_capturing).
  - reflexivity.
  - vm_compute. discriminate.
Defined.








(** *** Rolling back a failed attach *)

Lemma rollback_subset stream devs : forall t q out,
  out ∈ dev_streams (get_iodev (append_stream_rollback stream devs t) q) ->
  out ∈ dev_streams (get_iodev t q).
Proof.
  induction devs as [|adev rest IH]; intros t q out H; simpl in H; [exact H|].
  destruct (search_dev_stream _ stream) as [found|].
  - apply IH in H. eapply rm_stream_subset. exact H.
  - apply IH in H. exact H.
Qed.

Lemma rollback_unbound stream devs : forall t,
  unbound_on stream devs (append_stream_rollback stream devs t).
Proof.
  induction devs as [|adev rest IH]; intros t a out Hin Hout.
  - apply elem_of_nil in Hin. contradiction.
  - simpl in Hout. apply elem_of_cons in Hin as [->|Hin].
    + destruct (search_dev_stream _ stream) as [found|] eqn:E.
      * apply rollback_subset in Hout.
        change (out ∈ dev_streams (get_iodev
                  (cras_iodev_rm_stream (od_dev adev) stream t) (od_dev adev))) in Hout.
        rewrite dev_streams_rm_stream in Hout.
        destruct (decide (od_dev adev = od_dev adev)); [|congruence].
        apply list_elem_of_filter in Hout. tauto.
      * apply rollback_subset in Hout.
        exact (proj1 (search_dev_stream_none _ _) E _ Hout).
    + destruct (search_dev_stream _ stream); eapply IH; eassumption.
Qed.

Lemma rollback_frame stream devs : forall t,
  open_odevs (append_stream_rollback stream devs t) = open_odevs t /\
  open_idevs (append_stream_rollback stream devs t) = open_idevs t /\
  rstreams (append_stream_rollback stream devs t) = rstreams t.
Proof.
  induction devs as [|adev rest IH]; intros t; simpl; [tauto|].
  destruct (search_dev_stream _ stream); [|apply IH].
  destruct (IH (dev_stream_destroy d (cras_iodev_rm_stream (od_dev adev) stream t)))
    as (-> & -> & ->).
  simpl. tauto.
Qed.

Lemma rollback_destroyed_mono stream devs : forall t out,
  out ∈ destroyed t -> out ∈ destroyed (append_stream_rollback stream devs t).
Proof.
  induction devs as [|adev rest IH]; intros t out H; simpl; [exact H|].
  destruct (search_dev_stream _ stream); apply IH; [|exact H].
  simpl. apply elem_of_app. left. exact H.
Qed.

(** The binding that [DL_SEARCH_SCALAR] finds for the stream on an open
    device is handed to [dev_stream_destroy] by the rollback. *)
Lemma rollback_destroys stream devs : forall t adev out,
  adev ∈ devs ->
  search_dev_stream (dev_streams (get_iodev t (od_dev adev))) stream = Some out ->
  out ∈ destroyed (append_stream_rollback stream devs t).
Proof.
  induction devs as [|a rest IH]; intros t adev out Hin Hs.
  - apply elem_of_nil in Hin. contradiction.
  - simpl. destruct (decide (od_dev a = od_dev adev)) as [Heq|Hne].
    + rewrite Heq, Hs. apply rollback_destroyed_mono. simpl.
      apply elem_of_app. right. apply list_elem_of_singleton. reflexivity.
    + apply elem_of_cons in Hin as [->|Hin]; [congruence|].
      destruct (search_dev_stream (dev_streams (get_iodev t (od_dev a))) stream)
        as [found|]; [|eapply IH; eassumption].
      eapply IH; [eassumption|].
      change (get_iodev (dev_stream_destroy found
                (cras_iodev_rm_stream (od_dev a) stream t)) (od_dev adev))
        with (get_iodev (cras_iodev_rm_stream (od_dev a) stream t) (od_dev adev)).
      unfold cras_iodev_rm_stream. rewrite get_iodev_update.
      destruct (decide (od_dev a = od_dev adev)); [congruence|exact Hs].
Qed.

(** *** Failure of an attach *)

Section Attach.

Variable clk : nat -> timespec.
Variable ok : ptr -> ptr -> bool.

Lemma append_stream_dev_break stream iodev t l rc t' l' :
  append_stream_dev clk ok stream iodev t l = Break rc t' l' -> rc < 0.
Proof.
  unfold append_stream_dev.
  destruct (search_open_dev _ iodev); [|discriminate].
  destruct (search_dev_stream _ stream); [discriminate|].
  destruct (if cb_ts_set _ then _ else _) as [t2 l2].
  destruct (dev_stream_create ok stream _ iodev _).
  - destruct (rs_direction _); [discriminate|].
    destruct (dev_streams _); [|discriminate].
    destruct (Z.ltb_spec (dev_flush_buffer (get_iodev t iodev)) 0); [|discriminate].
    intros [= <- _ _]. assumption.
  - intros [= <- _ _]. unfold EINVAL. lia.
Qed.

Lemma append_stream_loop_break stream devs : forall t l rc t' l',
  append_stream_loop clk ok stream devs t l = (rc, t', l') -> rc <= 0.
Proof.
  induction devs as [|iodev rest IH]; intros t l rc t' l' H; simpl in H.
  - injection H as <- _ _. lia.
  - destruct (append_stream_dev clk ok stream iodev t l) as [t2 l2|rc2 t2 l2] eqn:E.
    + eapply IH. exact H.
    + injection H as <- _ _. apply append_stream_dev_break in E. lia.
Qed.

Lemma append_stream_loop_app stream pre rest : forall t l t1 l1,
  append_stream_loop clk ok stream pre t l = (0, t1, l1) ->
  append_stream_loop clk ok stream (pre ++ rest) t l
  = append_stream_loop clk ok stream rest t1 l1.
Proof.
  induction pre as [|iodev pre IH]; intros t l t1 l1 H; simpl in H |- *.
  - injection H as <- <-. reflexivity.
  - destruct (append_stream_dev clk ok stream iodev t l) as [t2 l2|rc2 t2 l2] eqn:E.
    + apply IH. exact H.
    + injection H as -> _ _. apply append_stream_dev_break in E. lia.
Qed.

(** A failing attach breaks out of the loop with a negative code, having at
    most read the clock. *)
Lemma append_stream_dev_fails stream iodev t l :
  attach_fails ok stream iodev t ->
  exists rc t' l',
    append_stream_dev clk ok stream iodev t l = Break rc t' l' /\
    rc < 0 /\
    (ok stream iodev = false -> rc = - EINVAL) /\
    (ok stream iodev = true -> rc = dev_flush_buffer (get_iodev t iodev)) /\
    open_odevs t' = open_odevs t /\ open_idevs t' = open_idevs t /\
    iodevs t' = iodevs t /\ rstreams t' = rstreams t /\ destroyed t' = destroyed t.
Proof.
  intros (Hopen & Hnone & Hcause). cbv zeta in Hopen, Hnone, Hcause.
  unfold append_stream_dev.
  destruct (search_open_dev _ iodev); [|congruence].
  rewrite Hnone.
  set (l2 := match rs_direction (get_rstream t stream) with
             | CRAS_STREAM_OUTPUT => _ | CRAS_STREAM_INPUT => _ end).
  assert (exists t3 l3,
            (if cb_ts_set l2 then (t, l2)
             else let '(now, t0) := clock_gettime clk t in
                  (t0, {| init_cb_ts := now; cb_ts_set := cb_ts_set l2 |})) = (t3, l3) /\
            open_odevs t3 = open_odevs t /\ open_idevs t3 = open_idevs t /\
            iodevs t3 = iodevs t /\ rstreams t3 = rstreams t /\
            destroyed t3 = destroyed t) as (t3 & l3 & -> & Hframe).
  { destruct (cb_ts_set l2); eexists _, _; (split; [reflexivity|]); simpl; tauto. }
  unfold dev_stream_create.
  destruct (ok stream iodev) eqn:Hok.
  - destruct Hcause as [?|(Hdir & Hnil & Hneg)]; [congruence|].
    rewrite Hdir, Hnil.
    destruct (Z.ltb_spec (dev_flush_buffer (get_iodev t iodev)) 0); [|lia].
    eexists _, _, _. split; [reflexivity|].
    split; [assumption|]. split; [congruence|]. split; [reflexivity|]. exact Hframe.
  - eexists _, _, _. split; [reflexivity|].
    split; [unfold EINVAL; lia|]. split; [reflexivity|]. split; [congruence|].
    exact Hframe.
Qed.

(** Whenever [append_stream] returns a non-zero code, the stream is bound on
    no open device of its direction, and what was found bound before the
    rollback has been destroyed. *)
Lemma append_stream_error_unbound stream devs t :
  let r := append_stream clk ok stream devs t in
  fst r <> 0 ->
  unbound_on stream (open_devs (snd r) (rs_direction (get_rstream (snd r) stream)))
    (snd r).
Proof.
  cbv zeta. unfold append_stream.
  destruct (append_stream_loop clk ok stream devs t append_locals_init)
    as [[rc t1] l1].
  destruct (Z.eqb_spec rc 0) as [->|Hrc]; cbn [fst snd]; [congruence|].
  intros _.
  set (dir := rs_direction (get_rstream t1 stream)).
  destruct (rollback_frame stream (open_devs t1 dir) t1) as (Ho & Hi & Hr).
  assert (get_rstream (append_stream_rollback stream (open_devs t1 dir) t1) stream
          = get_rstream t1 stream) as ->.
  { unfold get_rstream. rewrite Hr. reflexivity. }
  fold dir.
  assert (open_devs (append_stream_rollback stream (open_devs t1 dir) t1) dir
          = open_devs t1 dir) as ->.
  { destruct dir; simpl; assumption. }
  apply rollback_unbound.
Qed.

End Attach.

Lemma same_lists_refl t : same_lists t t.
Proof. unfold same_lists. tauto. Qed.

Lemma same_lists_trans t1 t2 t3 :
  same_lists t1 t2 -> same_lists t2 t3 -> same_lists t1 t3.
Proof.
  intros (A1 & A2 & A3) (B1 & B2 & B3). unfold same_lists.
  rewrite B1, B2, A1, A2. split; [reflexivity|]. split; [reflexivity|].
  intros p. rewrite B3. apply A3.
Qed.

Lemma same_lists_update_iodev p f t : same_lists t (update_iodev p f t).
Proof. unfold same_lists. simpl. tauto. Qed.

Lemma same_lists_dev_offset_update stream offset idx t :
  same_lists t (cras_rstream_dev_offset_update stream offset idx t).
Proof.
  unfold same_lists. split; [reflexivity|]. split; [reflexivity|].
  intros p. unfold cras_rstream_dev_offset_update. rewrite get_rstream_update.
  destruct (decide (stream = p)) as [->|]; reflexivity.
Qed.

Lemma same_lists_open_devs t t' dir :
  same_lists t t' -> open_devs t' dir = open_devs t dir.
Proof. intros (H1 & H2 & _). destruct dir; simpl; assumption. Qed.

Section AttachFrame.

Variable clk : nat -> timespec.
Variable ok : ptr -> ptr -> bool.

Lemma align_input_offsets_same_lists stream iodev out first t :
  same_lists t (align_input_offsets stream iodev out first t).
Proof.
  unfold align_input_offsets.
  eapply same_lists_trans; [|apply same_lists_dev_offset_update].
  apply same_lists_update_iodev.
Qed.

Lemma append_stream_dev_same_lists stream iodev t l :
  match append_stream_dev clk ok stream iodev t l with
  | Next t' _ => same_lists t t'
  | Break _ t' _ => same_lists t t'
  end.
Proof.
  unfold append_stream_dev.
  destruct (search_open_dev _ iodev); [|apply same_lists_refl].
  destruct (search_dev_stream _ stream); [apply same_lists_refl|].
  set (l2 := match rs_direction (get_rstream t stream) with
             | CRAS_STREAM_OUTPUT => _ | CRAS_STREAM_INPUT => _ end).
  assert (exists t3 l3,
            (if cb_ts_set l2 then (t, l2)
             else let '(now, t0) := clock_gettime clk t in
                  (t0, {| init_cb_ts := now; cb_ts_set := cb_ts_set l2 |})) = (t3, l3) /\
            same_lists t t3) as (t3 & l3 & -> & Hframe).
  { destruct (cb_ts_set l2); eexists _, _; (split; [reflexivity|]).
    - apply same_lists_refl.
    - unfold same_lists. simpl. tauto. }
  destruct (dev_stream_create ok stream _ iodev _) as [out|]; [|exact Hframe].
  destruct (rs_direction (get_rstream t stream)).
  - eapply same_lists_trans; [exact Hframe|apply same_lists_update_iodev].
  - destruct (dev_streams (get_iodev t iodev)) as [|first rest].
    + destruct (_ <? 0); [exact Hframe|].
      eapply same_lists_trans; [exact Hframe|apply same_lists_update_iodev].
    + eapply same_lists_trans; [exact Hframe|].
      eapply same_lists_trans; [|apply align_input_offsets_same_lists].
      apply same_lists_update_iodev.
Qed.

Lemma append_stream_loop_same_lists stream devs : forall t l,
  same_lists t (snd (fst (append_stream_loop clk ok stream devs t l))).
Proof.
  induction devs as [|iodev rest IH]; intros t l; simpl; [apply same_lists_refl|].
  pose proof (append_stream_dev_same_lists stream iodev t l) as H.
  destruct (append_stream_dev clk ok stream iodev t l) as [t2 l2|rc2 t2 l2].
  - eapply same_lists_trans; [exact H|apply IH].
  - exact H.
Qed.

End AttachFrame.

(** C1.  In an AddStream(stream, devs) command, let the devices before
    [iodev] be handled without error and let binding fail on [iodev]
    ([dev_stream_create] fails, or the flush of the still empty input device
    is negative).  Then the reply is an error ([-EINVAL] when the creation
    fails, the flush result otherwise); afterwards no open device of the
    stream's direction has a binding of the stream; and the binding found for
    the stream on any of these devices, those made earlier in the command
    included, has been destroyed. *)
Theorem thread_add_stream_all_or_nothing clk ok md ms
    (stream : ptr) (pre : list ptr) (iodev : ptr) (post : list ptr)
    (t tp : audio_thread) (lp : append_locals) :
  append_stream_loop clk ok stream pre t append_locals_init = (0, tp, lp) ->
  attach_fails ok stream iodev tp ->
  let r := handle_playback_thread_message clk ok md ms
             (AUDIO_THREAD_ADD_STREAM stream (pre ++ iodev :: post)) t in
  let dir := rs_direction (get_rstream t stream) in
  fst r < 0 /\
  (ok stream iodev = false -> fst r = - EINVAL) /\
  (ok stream iodev = true -> fst r = dev_flush_buffer (get_iodev tp iodev)) /\
  open_devs (snd r) dir = open_devs t dir /\
  unbound_on stream (open_devs t dir) (snd r) /\
  (forall adev out,
     adev ∈ open_devs t dir ->
     search_dev_stream (dev_streams (get_iodev tp (od_dev adev))) stream = Some out ->
     out ∈ destroyed (snd r)).
Proof.
  intros Hpre Hfail. cbv zeta.
  change (handle_playback_thread_message clk ok md ms
            (AUDIO_THREAD_ADD_STREAM stream (pre ++ iodev :: post)) t)
    with (thread_add_stream clk ok stream (pre ++ iodev :: post) t).
  pose proof (append_stream_loop_same_lists clk ok stream pre t append_locals_init)
    as Hsame.
  rewrite Hpre in Hsame. cbn [fst snd] in Hsame.
  destruct (append_stream_dev_fails clk ok stream iodev tp lp Hfail)
    as (rc & t' & l' & Hstep & Hneg & Hinval & Hflush & Ho & Hi & Hio & Hrs & Hde).
  unfold thread_add_stream, append_stream.
  rewrite (append_stream_loop_app clk ok stream pre (iodev :: post) _ _ _ _ Hpre).
  cbn [append_stream_loop]. rewrite Hstep.
  destruct (Z.eqb_spec rc 0) as [?|_]; [lia|].
  destruct (Z.ltb_spec rc 0) as [_|?]; [|lia].
  cbn [fst snd].
  assert (rs_direction (get_rstream t' stream) = rs_direction (get_rstream t stream))
    as ->.
  { unfold get_rstream at 1. rewrite Hrs. apply Hsame. }
  set (dir := rs_direction (get_rstream t stream)).
  assert (open_devs t' dir = open_devs t dir) as ->.
  { rewrite <- (same_lists_open_devs _ _ dir Hsame). destruct dir; simpl; assumption. }
  assert (forall p, get_iodev t' p = get_iodev tp p) as Hget.
  { intros p. unfold get_iodev. rewrite Hio. reflexivity. }
  split; [exact Hneg|]. split; [exact Hinval|]. split; [exact Hflush|].
  split; [|split].
  - destruct (rollback_frame stream (open_devs t dir) t') as (Ho' & Hi' & _).
    destruct Hsame as (S1 & S2 & _).
    clearbody dir. destruct dir; simpl in *; congruence.
  - apply rollback_unbound.
  - intros adev out Hin Hs. eapply rollback_destroys; [exact Hin|].
    rewrite Hget. exact Hs.
Qed.

Lemma thread_add_stream_all_or_nothing_witness :
  attach_fails create_fails_on_4 21 4 thread_three_outputs_two_bound /\
  let r := handle_playback_thread_message example_clock create_fails_on_4 4 8
             (AUDIO_THREAD_ADD_STREAM 21 ([1; 3]%positive ++ [4]%positive))
             thread_three_outputs in
  fst r = - EINVAL /\
  unbound_on 21 (open_devs thread_three_outputs CRAS_STREAM_OUTPUT) (snd r) /\
  (forall adev out,
     adev ∈ open_devs thread_three_outputs CRAS_STREAM_OUTPUT ->
     search_dev_stream
       (dev_streams (get_iodev thread_three_outputs_two_bound (od_dev adev))) 21
       = Some out ->
     out ∈ destroyed (snd r)).
Proof.
  assert (attach_fails create_fails_on_4 21 4 thread_three_outputs_two_bound) as Hfail.
  { split; [vm_compute; discriminate|]. split; [reflexivity|]. left. reflexivity. }
  split; [exact Hfail|].
  pose proof (thread_add_stream_all_or_nothing example_clock create_fails_on_4 4 8
                21 [1; 3]%positive 4%positive [] thread_three_outputs
                thread_three_outputs_two_bound
                (snd (append_stream_loop example_clock create_fails_on_4 21
                        [1; 3]%positive thread_three_outputs append_locals_init))
                eq_refl Hfail) as (_ & H2 & _ & _ & H5 & H6).
  split; [apply H2; reflexivity|]. split; [exact H5|exact H6].
Defined.

Example add_stream_failure_leaves_nothing :
  let r := handle_playback_thread_message example_clock create_fails_on_4 4 8
             (AUDIO_THREAD_ADD_STREAM 21 [1; 3; 4]%positive) thread_three_outputs in
  dev_streams (get_iodev thread_three_outputs_two_bound 1) <> [] /\
  dev_streams (get_iodev thread_three_outputs_two_bound 3) <> [] /\
  dev_streams (get_iodev (snd r) 1) = [] /\
  dev_streams (get_iodev (snd r) 3) = [] /\
  dev_streams (get_iodev (snd r) 4) = [] /\
  length (destroyed (snd r)) = 2%nat.
Proof. vm_compute. repeat split; discriminate. Qed.

Example add_stream_flush_failure_leaves_nothing :
  let r := handle_playback_thread_message example_clock create_always_ok 4 8
             (AUDIO_THREAD_ADD_STREAM 10 [2; 5]%positive) thread_two_mics in
  fst r = -5 /\
  dev_streams (get_iodev (snd r) 2) = [] /\
  dev_streams (get_iodev (snd r) 5) = [] /\
  length (destroyed (snd r)) = 1%nat.
Proof. vm_compute. repeat split. Qed.

(** *** Attaching twice *)

Lemma stream_written_others (l : list dev_stream) (stream : ptr) (n : Z) :
  (forall out, out ∈ l -> ds_stream out <> stream) ->
  map (fun s => if Pos.eqb (ds_stream s) stream then set_ds_offset n s else s) l = l.
Proof.
  induction l as [|x l IH]; intros H; simpl; [reflexivity|].
  rewrite IH by (intros out Hout; apply H; apply elem_of_cons; auto).
  destruct (Pos.eqb_spec (ds_stream x) stream) as [Heq|]; [|reflexivity].
  exfalso. apply (H x); [apply elem_of_cons; auto|exact Heq].
Qed.

Lemma filter_none (l : list dev_stream) (stream : ptr) :
  (forall out, out ∈ l -> ds_stream out <> stream) ->
  filter (fun out => ds_stream out = stream) l = [].
Proof.
  induction l as [|x l IH]; intros H; [reflexivity|].
  rewrite filter_cons_False by (apply H; apply elem_of_cons; auto).
  apply IH. intros out Hout. apply H. apply elem_of_cons. auto.
Qed.

Lemma search_dev_stream_count (l : list dev_stream) (stream : ptr) :
  search_dev_stream l stream <> None ->
  (1 <= length (filter (fun out => ds_stream out = stream) l))%nat.
Proof.
  induction l as [|x l IH]; intros H; [simpl in H; congruence|].
  unfold search_dev_stream in H. simpl in H.
  destruct (Pos.eqb_spec (ds_stream x) stream) as [Heq|Hne].
  - rewrite filter_cons_True by exact Heq. simpl. lia.
  - rewrite filter_cons_False by exact Hne. apply IH. exact H.
Qed.

Section AttachOnce.

Variable clk : nat -> timespec.
Variable ok : ptr -> ptr -> bool.

(** A device on which the stream is already bound is skipped: the state and
    the locals stay as they are. *)
Lemma append_stream_dev_bound_skip stream iodev t l :
  search_dev_stream (dev_streams (get_iodev t iodev)) stream <> None ->
  append_stream_dev clk ok stream iodev t l = Next t l.
Proof.
  intros H. unfold append_stream_dev.
  destruct (search_open_dev _ iodev); [|reflexivity].
  destruct (search_dev_stream _ stream); [reflexivity|congruence].
Qed.

Lemma streams_after_written iodev out n t :
  dev_streams (get_iodev (cras_iodev_stream_written iodev out n t) iodev) =
  map (fun s => if Pos.eqb (ds_stream s) (ds_stream out) then set_ds_offset n s else s)
      (dev_streams (get_iodev t iodev)).
Proof.
  unfold cras_iodev_stream_written. rewrite get_iodev_update.
  destruct (decide (iodev = iodev)); [reflexivity|congruence].
Qed.

Lemma streams_after_add iodev out t :
  dev_streams (get_iodev (cras_iodev_add_stream iodev out t) iodev) =
  dev_streams (get_iodev t iodev) ++ [out].
Proof.
  unfold cras_iodev_add_stream. rewrite get_iodev_update.
  destruct (decide (iodev = iodev)); [reflexivity|congruence].
Qed.

(** A device on which the stream was not bound and whose iteration falls
    through has got exactly one binding of the stream, at the end of its list. *)
Lemma append_stream_dev_attach stream iodev t l t' l' :
  search_open_dev (open_devs t (rs_direction (get_rstream t stream))) iodev <> None ->
  search_dev_stream (dev_streams (get_iodev t iodev)) stream = None ->
  append_stream_dev clk ok stream iodev t l = Next t' l' ->
  exists out,
    ds_stream out = stream /\
    dev_streams (get_iodev t' iodev) = dev_streams (get_iodev t iodev) ++ [out].
Proof.
  intros Hopen Hnone. unfold append_stream_dev.
  destruct (search_open_dev _ iodev); [|congruence].
  rewrite Hnone.
  set (l2 := match rs_direction (get_rstream t stream) with
             | CRAS_STREAM_OUTPUT => _ | CRAS_STREAM_INPUT => _ end).
  assert (exists t3 l3,
            (if cb_ts_set l2 then (t, l2)
             else let '(now, t0) := clock_gettime clk t in
                  (t0, {| init_cb_ts := now; cb_ts_set := cb_ts_set l2 |})) = (t3, l3) /\
            iodevs t3 = iodevs t) as (t3 & l3 & -> & Hio).
  { destruct (cb_ts_set l2); eexists _, _; (split; [reflexivity|]); reflexivity. }
  assert (get_iodev t3 iodev = get_iodev t iodev) as Hget.
  { unfold get_iodev. rewrite Hio. reflexivity. }
  unfold dev_stream_create. destruct (ok stream iodev); [|discriminate].
  set (out := {| ds_stream := stream; ds_offset := 0 |}).
  destruct (rs_direction (get_rstream t stream)).
  - intros [= <- _]. exists out. split; [reflexivity|].
    rewrite streams_after_add, Hget. reflexivity.
  - destruct (dev_streams (get_iodev t iodev)) as [|first rest] eqn:Hstreams.
    + destruct (_ <? 0); [discriminate|].
      intros [= <- _]. exists out. split; [reflexivity|].
      rewrite streams_after_add, Hget, Hstreams. reflexivity.
    + intros [= <- _]. unfold align_input_offsets.
      eexists (set_ds_offset _ out). split; [reflexivity|].
      change (get_iodev (cras_rstream_dev_offset_update ?s ?o ?i ?u) iodev)
        with (get_iodev u iodev).
      rewrite streams_after_written, streams_after_add, Hget.
      rewrite map_app.
      rewrite stream_written_others
        by (apply search_dev_stream_none; rewrite Hstreams; exact Hnone).
      cbn [map]. rewrite Pos.eqb_refl. rewrite Hstreams. reflexivity.
Qed.

End AttachOnce.

Lemma thread_add_stream_single clk ok stream iodev t :
  match append_stream_dev clk ok stream iodev t append_locals_init with
  | Next t' _ => thread_add_stream clk ok stream [iodev] t = (0, t')
  | Break rc _ _ => fst (thread_add_stream clk ok stream [iodev] t) = rc /\ rc < 0
  end.
Proof.
  unfold thread_add_stream, append_stream. cbn [append_stream_loop].
  destruct (append_stream_dev clk ok stream iodev t append_locals_init)
    as [t' l'|rc t' l'] eqn:E.
  - reflexivity.
  - apply append_stream_dev_break in E.
    destruct (Z.eqb_spec rc 0); [lia|].
    destruct (Z.ltb_spec rc 0); [|lia].
    split; [reflexivity|assumption].
Qed.

(** C7.  Attaching is idempotent per (device, stream) pair.  A requested
    device on which the stream is already bound is skipped, state and locals
    untouched.  Hence, for an open device with at most one binding of the
    stream (invariant 1), when AddStream(s, [d]) replies 0, a second
    AddStream(s, [d]) replies 0, changes nothing, and leaves exactly one
    binding of the stream on the device. *)
Theorem thread_add_stream_idempotent clk ok md ms (stream iodev : ptr)
    (t : audio_thread) :
  search_open_dev (open_devs t (rs_direction (get_rstream t stream))) iodev <> None ->
  (bound_count stream iodev t <= 1)%nat ->
  let r1 := handle_playback_thread_message clk ok md ms
              (AUDIO_THREAD_ADD_STREAM stream [iodev]) t in
  fst r1 = 0 ->
  let r2 := handle_playback_thread_message clk ok md ms
              (AUDIO_THREAD_ADD_STREAM stream [iodev]) (snd r1) in
  (forall u l,
     search_dev_stream (dev_streams (get_iodev u iodev)) stream <> None ->
     append_stream_dev clk ok stream iodev u l = Next u l) /\
  fst r2 = 0 /\ snd r2 = snd r1 /\ bound_count stream iodev (snd r2) = 1%nat.
Proof.
  intros Hopen Hinv. cbv zeta.
  change (handle_playback_thread_message clk ok md ms
            (AUDIO_THREAD_ADD_STREAM stream [iodev]))
    with (thread_add_stream clk ok stream [iodev]).
  intros Hr1. split; [apply append_stream_dev_bound_skip|].
  assert (forall u,
            search_dev_stream (dev_streams (get_iodev u iodev)) stream <> None ->
            thread_add_stream clk ok stream [iodev] u = (0, u)) as Hskip.
  { intros u Hu. pose proof (thread_add_stream_single clk ok stream iodev u) as H.
    rewrite (append_stream_dev_bound_skip clk ok stream iodev u _ Hu) in H. exact H. }
  destruct (search_dev_stream (dev_streams (get_iodev t iodev)) stream)
    as [found|] eqn:Hs.
  - assert (search_dev_stream (dev_streams (get_iodev t iodev)) stream <> None)
      as Hne by congruence.
    rewrite (Hskip t Hne). cbn [fst snd]. rewrite (Hskip t Hne). cbn [fst snd].
    split; [reflexivity|]. split; [reflexivity|].
    apply search_dev_stream_count in Hne. unfold bound_count in *. lia.
  - pose proof (thread_add_stream_single clk ok stream iodev t) as H.
    destruct (append_stream_dev clk ok stream iodev t append_locals_init)
      as [t' l'|rc t' l'] eqn:E.
    + rewrite H. cbn [fst snd].
      destruct (append_stream_dev_attach clk ok stream iodev t _ t' l' Hopen Hs E)
        as (out & Hout & Hstreams).
      assert (search_dev_stream (dev_streams (get_iodev t' iodev)) stream <> None)
        as Hne.
      { intros Hnone. rewrite search_dev_stream_none in Hnone.
        apply (Hnone out); [|exact Hout].
        rewrite Hstreams. apply elem_of_app. right.
        apply list_elem_of_singleton. reflexivity. }
      rewrite (Hskip t' Hne). cbn [fst snd].
      split; [reflexivity|]. split; [reflexivity|].
      unfold bound_count. rewrite Hstreams, filter_app.
      rewrite filter_none by (apply search_dev_stream_none; exact Hs).
      rewrite filter_cons_True by exact Hout. reflexivity.
    + destruct H as [H1 H2]. rewrite H1 in Hr1. lia.
Qed.

Lemma thread_add_stream_idempotent_witness :
  let r1 := handle_playback_thread_message example_clock create_always_ok 4 8
              (AUDIO_THREAD_ADD_STREAM 10 [2%positive]) thread_mic_open in
  let r2 := handle_playback_thread_message example_clock create_always_ok 4 8
              (AUDIO_THREAD_ADD_STREAM 10 [2%positive]) (snd r1) in
  fst r1 = 0 /\ fst r2 = 0 /\ snd r2 = snd r1 /\ bound_count 10 2 (snd r2) = 1%nat.
Proof.
  cbv zeta. split; [reflexivity|].
  apply (thread_add_stream_idempotent example_clock create_always_ok 4 8 10 2
           thread_mic_open).
  - vm_compute. discriminate.
  - vm_compute. lia.
  - reflexivity.
Defined.

(** *** Offset alignment of a later input stream *)

Lemma clamp_is_min (offset cb_threshold : Z) :
  (if cb_threshold <? offset then cb_threshold else offset) = Z.min offset cb_threshold.
Proof. destruct (Z.ltb_spec cb_threshold offset); lia. Qed.

(** What [align_input_offsets] leaves on the device and in the stream. *)
Lemma align_input_offsets_result (stream iodev : ptr) (out first : dev_stream)
    (t : audio_thread) :
  ds_stream out = stream ->
  ds_stream first <> stream ->
  let t' := align_input_offsets stream iodev out first t in
  let idx := dev_info_idx (get_iodev t iodev) in
  let cb := rs_cb_threshold (get_rstream t stream) in
  dev_streams (get_iodev t' iodev) =
    map (fun s => if Pos.eqb (ds_stream s) stream
                  then set_ds_offset (Z.min (cras_iodev_stream_offset first) cb) s
                  else s)
        (dev_streams (get_iodev t iodev)) /\
  cras_rstream_dev_offset (get_rstream t' stream) idx =
    Z.min (cras_rstream_dev_offset (get_rstream t (ds_stream first)) idx) cb.
Proof.
  intros Hout Hfirst. cbv zeta. unfold align_input_offsets.
  rewrite !clamp_is_min. split.
  - change (get_iodev (cras_rstream_dev_offset_update ?s ?o ?i ?u) iodev)
      with (get_iodev u iodev).
    rewrite streams_after_written, Hout. reflexivity.
  - unfold cras_rstream_dev_offset_update. rewrite get_rstream_update.
    destruct (decide (stream = stream)); [|congruence].
    unfold cras_rstream_dev_offset at 1. cbn [rs_dev_offsets].
    assert (dev_info_idx
              (get_iodev
                 (cras_iodev_stream_written iodev out
                    (Z.min (cras_iodev_stream_offset first)
                       (rs_cb_threshold (get_rstream t stream))) t) iodev)
            = dev_info_idx (get_iodev t iodev)) as ->.
    { unfold cras_iodev_stream_written. rewrite get_iodev_update.
      destruct (decide (iodev = iodev)); reflexivity. }
    rewrite lookup_insert_eq. reflexivity.
Qed.

(** C3.  When an input stream [s2] is attached by AddStream(s2, [d]) to an
    open input device [d] that already has bindings, the head [first] of its
    list being that of stream [s1], and [s2] is not yet bound to [d], the
    command replies 0 and appends one binding of [s2] to the device; the
    offset recorded into that binding is min(stream_offset of [first],
    s2.cb_threshold), and the offset recorded into [s2] for the index of [d]
    is min(dev_offset of [s1] for that index, s2.cb_threshold). *)
Theorem append_stream_input_offset_alignment clk ok md ms (s2 d : ptr)
    (t : audio_thread) (first : dev_stream) (rest : list dev_stream) :
  rs_direction (get_rstream t s2) = CRAS_STREAM_INPUT ->
  search_open_dev (open_devs t CRAS_STREAM_INPUT) d <> None ->
  dev_streams (get_iodev t d) = first :: rest ->
  search_dev_stream (first :: rest) s2 = None ->
  ok s2 d = true ->
  let r := handle_playback_thread_message clk ok md ms
             (AUDIO_THREAD_ADD_STREAM s2 [d]) t in
  let idx := dev_info_idx (get_iodev t d) in
  let cb_threshold := rs_cb_threshold (get_rstream t s2) in
  let s1 := ds_stream first in
  fst r = 0 /\
  exists out,
    dev_streams (get_iodev (snd r) d) = first :: rest ++ [out] /\
    ds_stream out = s2 /\
    cras_iodev_stream_offset out
      = Z.min (cras_iodev_stream_offset first) cb_threshold /\
    cras_rstream_dev_offset (get_rstream (snd r) s2) idx
      = Z.min (cras_rstream_dev_offset (get_rstream t s1) idx) cb_threshold.
Proof.
  intros Hdir Hopen Hstreams Hnone Hok. cbv zeta.
  change (handle_playback_thread_message clk ok md ms (AUDIO_THREAD_ADD_STREAM s2 [d]) t)
    with (thread_add_stream clk ok s2 [d] t).
  pose proof (thread_add_stream_single clk ok s2 d t) as Hsingle.
  set (out := {| ds_stream := s2; ds_dev_id := dev_info_idx (get_iodev t d);
                 ds_init_cb_ts := clk (clock_reads t);
                 ds_next_cb_ts := Some (clk (clock_reads t));
                 ds_can_fetch := true; ds_playback_frames := 0;
                 ds_poll_stream_fd := -1; ds_offset := 0 |}).
  set (t1 := cras_iodev_add_stream d out (snd (clock_gettime clk t))).
  assert (append_stream_dev clk ok s2 d t append_locals_init
          = Next (align_input_offsets s2 d out first t1)
                 {| init_cb_ts := clk (clock_reads t); cb_ts_set := false |}) as Hstep.
  { unfold append_stream_dev. rewrite Hdir.
    destruct (search_open_dev _ d); [|congruence].
    rewrite Hstreams, Hnone. cbn. unfold dev_stream_create. rewrite Hok.
    reflexivity. }
  rewrite Hstep in Hsingle. rewrite Hsingle. cbn [fst snd].
  split; [reflexivity|].
  assert (ds_stream first <> s2) as Hfirst.
  { apply (proj1 (search_dev_stream_none _ _) Hnone). apply elem_of_cons. auto. }
  destruct (align_input_offsets_result s2 d out first t1 eq_refl Hfirst) as [Hdev Hrs].
  cbv zeta in Hdev, Hrs.
  assert (dev_streams (get_iodev t1 d) = (first :: rest) ++ [out]) as Ht1.
  { unfold t1. rewrite streams_after_add.
    change (get_iodev (clock_gettime clk t).2 d) with (get_iodev t d).
    rewrite Hstreams. reflexivity. }
  assert (dev_info_idx (get_iodev t1 d) = dev_info_idx (get_iodev t d)) as Hidx.
  { unfold t1, cras_iodev_add_stream. rewrite get_iodev_update.
    destruct (decide (d = d)); reflexivity. }
  assert (forall p, get_rstream t1 p = get_rstream t p) as Hget by reflexivity.
  rewrite Hidx, !Hget in Hrs. rewrite Hget, Ht1 in Hdev.
  exists (set_ds_offset (Z.min (cras_iodev_stream_offset first)
                           (rs_cb_threshold (get_rstream t s2))) out).
  split; [|split; [reflexivity|split; [reflexivity|exact Hrs]]].
  rewrite Hdev, map_app.
  rewrite stream_written_others by (apply search_dev_stream_none; exact Hnone).
  cbn [map]. change (ds_stream out) with s2. rewrite Pos.eqb_refl. reflexivity.
Qed.

Lemma append_stream_input_offset_alignment_witness :
  let r := handle_playback_thread_message example_clock create_always_ok 4 8
             (AUDIO_THREAD_ADD_STREAM 10 [2%positive]) thread_second_capture in
  fst r = 0 /\
  exists out,
    dev_streams (get_iodev (snd r) 2) = mk_binding 11 5 None 800 :: [] ++ [out] /\
    ds_stream out = 10%positive /\
    cras_iodev_stream_offset out = 512 /\
    cras_rstream_dev_offset (get_rstream (snd r) 10) 5 = 512.
Proof.
  apply (append_stream_input_offset_alignment example_clock create_always_ok 4 8
           10 2 thread_second_capture (mk_binding 11 5 None 800) []).
  - reflexivity.
  - vm_compute. discriminate.
  - reflexivity.
  - reflexivity.
  - reflexivity.
Defined.

(** *** Initial callback time of a new output binding *)

(** C2, on the code.  AddStream(21, [speaker, headphones]) replies 0 and
    binds the stream to both devices.  The headphones had no stream, yet the
    binding made on them starts at 99.99 s, the deadline of the speaker's
    stream, and the clock has not been read at all: [cb_ts_set] and
    [init_cb_ts] are not reset between the devices of one command.  Attached
    to the headphones alone, the stream starts at the clock reading. *)
Theorem append_stream_init_cb_ts_carried_over :
  let r := handle_playback_thread_message example_clock create_always_ok 4 8
             (AUDIO_THREAD_ADD_STREAM 21 [1; 3]%positive) thread_two_outputs in
  let alone := handle_playback_thread_message example_clock create_always_ok 4 8
                 (AUDIO_THREAD_ADD_STREAM 21 [3%positive]) thread_two_outputs in
  fst r = 0 /\
  dev_streams (get_iodev thread_two_outputs 3) = [] /\
  map ds_init_cb_ts (dev_streams (get_iodev (snd r) 3)) = [Timespec 99 990000000] /\
  clock_reads (snd r) = clock_reads thread_two_outputs /\
  (forall n, example_clock n <> Timespec 99 990000000) /\
  map ds_init_cb_ts (dev_streams (get_iodev (snd alone) 3))
    = [example_clock (clock_reads thread_two_outputs)].
Proof.
  cbv zeta. split; [reflexivity|]. split; [reflexivity|].
  split; [vm_compute; reflexivity|]. split; [reflexivity|].
  split; [|vm_compute; reflexivity].
  intros n. unfold example_clock. intros H. inversion H.
Qed.

Lemma timespec_after_false (a b : timespec) :
  timespec_after a b = false <->
  (tv_sec a < tv_sec b \/ (tv_sec a = tv_sec b /\ tv_nsec a <= tv_nsec b)).
Proof.
  unfold timespec_after.
  rewrite orb_false_iff, andb_false_iff, !Z.ltb_ge, Z.eqb_neq. lia.
Qed.

Lemma timespec_after_true (a b : timespec) :
  timespec_after a b = true <->
  (tv_sec b < tv_sec a \/ (tv_sec a = tv_sec b /\ tv_nsec b < tv_nsec a)).
Proof.
  unfold timespec_after.
  rewrite orb_true_iff, andb_true_iff, !Z.ltb_lt, Z.eqb_eq. lia.
Qed.

Lemma not_after_trans (a b c : timespec) :
  timespec_after a b = false -> timespec_after b c = false ->
  timespec_after a c = false.
Proof. rewrite !timespec_after_false. lia. Qed.

Lemma earliest_next_cb_ts_from_set streams : forall l,
  cb_ts_set l = true ->
  let l' := earliest_next_cb_ts streams l in
  cb_ts_set l' = true /\
  (init_cb_ts l' = init_cb_ts l \/
   exists out, out ∈ streams /\ ds_next_cb_ts out = Some (init_cb_ts l')) /\
  timespec_after (init_cb_ts l') (init_cb_ts l) = false /\
  (forall out x, out ∈ streams -> ds_next_cb_ts out = Some x ->
                 timespec_after (init_cb_ts l') x = false).
Proof.
  induction streams as [|s rest IH]; intros l Hset; cbv zeta.
  - simpl. split; [exact Hset|]. split; [auto|].
    split; [apply timespec_after_false; lia|].
    intros out x Hin. apply elem_of_nil in Hin. contradiction.
  - cbn [earliest_next_cb_ts].
    destruct (ds_next_cb_ts s) as [ts|] eqn:E.
    + rewrite Hset. cbn [negb orb].
      destruct (timespec_after (init_cb_ts l) ts) eqn:Ha.
      * destruct (IH {| init_cb_ts := ts; cb_ts_set := true |} eq_refl)
          as (H1 & H2 & H3 & H4). cbn [init_cb_ts] in H2, H3.
        split; [exact H1|]. split; [|split].
        -- right. destruct H2 as [->|(out & Hin & Ho)].
           ++ exists s. split; [apply elem_of_cons; auto|exact E].
           ++ exists out. split; [apply elem_of_cons; auto|exact Ho].
        -- eapply not_after_trans; [exact H3|].
           apply timespec_after_true in Ha. apply timespec_after_false. lia.
        -- intros out x Hin Ho. apply elem_of_cons in Hin as [->|Hin].
           ++ rewrite E in Ho. injection Ho as <-. exact H3.
           ++ eapply H4; eassumption.
      * destruct (IH l Hset) as (H1 & H2 & H3 & H4).
        split; [exact H1|]. split; [|split; [exact H3|]].
        -- destruct H2 as [->|(out & Hin & Ho)]; [auto|].
           right. exists out. split; [apply elem_of_cons; auto|exact Ho].
        -- intros out x Hin Ho. apply elem_of_cons in Hin as [->|Hin].
           ++ rewrite E in Ho. injection Ho as <-.
              eapply not_after_trans; [exact H3|exact Ha].
           ++ eapply H4; eassumption.
    + destruct (IH l Hset) as (H1 & H2 & H3 & H4).
      split; [exact H1|]. split; [|split; [exact H3|]].
      * destruct H2 as [->|(out & Hin & Ho)]; [auto|].
        right. exists out. split; [apply elem_of_cons; auto|exact Ho].
      * intros out x Hin Ho. apply elem_of_cons in Hin as [->|Hin]; [congruence|].
        eapply H4; eassumption.
Qed.

Lemma earliest_next_cb_ts_from_unset streams : forall l,
  cb_ts_set l = false ->
  let l' := earliest_next_cb_ts streams l in
  (no_cb_ts streams /\ l' = l) \/
  (cb_ts_set l' = true /\ earliest_cb_ts (init_cb_ts l') streams).
Proof.
  induction streams as [|s rest IH]; intros l Hset; cbv zeta.
  - left. split; [|reflexivity].
    intros out Hin. apply elem_of_nil in Hin. contradiction.
  - cbn [earliest_next_cb_ts].
    destruct (ds_next_cb_ts s) as [ts|] eqn:E.
    + rewrite Hset. cbn [negb orb]. right.
      destruct (earliest_next_cb_ts_from_set rest
                  {| init_cb_ts := ts; cb_ts_set := true |} eq_refl)
        as (H1 & H2 & H3 & H4). cbn [init_cb_ts] in H2, H3.
      split; [exact H1|]. split.
      * destruct H2 as [->|(out & Hin & Ho)].
        -- exists s. split; [apply elem_of_cons; auto|exact E].
        -- exists out. split; [apply elem_of_cons; auto|exact Ho].
      * intros out x Hin Ho. apply elem_of_cons in Hin as [->|Hin].
        -- rewrite E in Ho. injection Ho as <-. exact H3.
        -- eapply H4; eassumption.
    + destruct (IH l Hset) as [[Hno ->]|[H1 [(o & Hin & Ho) H3]]].
      * left. split; [|reflexivity].
        intros out Hin. apply elem_of_cons in Hin as [->|Hin]; [exact E|].
        apply Hno. exact Hin.
      * right. split; [exact H1|]. split.
        -- exists o. split; [apply elem_of_cons; auto|exact Ho].
        -- intros out x Hin' Hx. apply elem_of_cons in Hin' as [->|Hin'];
             [congruence|]. eapply H3; eassumption.
Qed.

(** An attach to an output device that is entered with [cb_ts_set] still
    unset (the first device of a command, for one) starts the new binding at
    the earliest deadline present on the device's streams, or at the clock
    reading when no stream of the device has one. *)
Lemma append_stream_dev_output_init_cb_ts clk ok stream iodev t l t' l' :
  cb_ts_set l = false ->
  rs_direction (get_rstream t stream) = CRAS_STREAM_OUTPUT ->
  search_open_dev (open_devs t CRAS_STREAM_OUTPUT) iodev <> None ->
  search_dev_stream (dev_streams (get_iodev t iodev)) stream = None ->
  append_stream_dev clk ok stream iodev t l = Next t' l' ->
  exists out,
    dev_streams (get_iodev t' iodev) = dev_streams (get_iodev t iodev) ++ [out] /\
    ds_stream out = stream /\
    ((no_cb_ts (dev_streams (get_iodev t iodev)) /\
      ds_init_cb_ts out = clk (clock_reads t)) \/
     earliest_cb_ts (ds_init_cb_ts out) (dev_streams (get_iodev t iodev))).
Proof.
  intros Hunset Hdir Hopen Hnone. unfold append_stream_dev. rewrite Hdir.
  destruct (search_open_dev _ iodev); [|congruence].
  rewrite Hnone.
  pose proof (earliest_next_cb_ts_from_unset (dev_streams (get_iodev t iodev)) l Hunset)
    as Hearly. cbv zeta in Hearly.
  assert (match dev_streams (get_iodev t iodev) with
          | [] => l
          | _ :: _ => earliest_next_cb_ts (dev_streams (get_iodev t iodev)) l
          end = earliest_next_cb_ts (dev_streams (get_iodev t iodev)) l) as ->.
  { destruct (dev_streams (get_iodev t iodev)); reflexivity. }
  destruct Hearly as [[Hno ->]|[Hset Hearly]].
  - rewrite Hunset. cbn [clock_gettime init_cb_ts cb_ts_set].
    unfold dev_stream_create. destruct (ok stream iodev); [|discriminate].
    intros [= <- _]. eexists. rewrite streams_after_add.
    split; [reflexivity|]. split; [reflexivity|]. left. split; [exact Hno|reflexivity].
  - rewrite Hset.
    unfold dev_stream_create. destruct (ok stream iodev); [|discriminate].
    intros [= <- _]. eexists. rewrite streams_after_add.
    split; [reflexivity|]. split; [reflexivity|]. right. exact Hearly.
Qed.

(** *** The sleep interval *)

Lemma timespec_after_ns (a b : timespec) :
  timespec_valid a -> timespec_valid b ->
  (timespec_after a b = true <-> timespec_ns b < timespec_ns a).
Proof.
  unfold timespec_valid, timespec_ns, timespec_after, NSEC_PER_SEC.
  intros Ha Hb. rewrite orb_true_iff, andb_true_iff, !Z.ltb_lt, Z.eqb_eq. nia.
Qed.

Lemma lowered_refl a : timespec_valid a -> lowered a a.
Proof. unfold lowered. intros H. split; [exact H|lia]. Qed.

Lemma lowered_trans a b c : lowered a b -> lowered b c -> lowered a c.
Proof. unfold lowered. intros [? ?] [? ?]. split; [assumption|lia]. Qed.

Lemma lowered_min (min_ts ts : timespec) :
  timespec_valid min_ts -> timespec_valid ts ->
  lowered min_ts (if timespec_after min_ts ts then ts else min_ts).
Proof.
  intros Hm Ht. destruct (timespec_after min_ts ts) eqn:E.
  - apply timespec_after_ns in E; [|assumption..]. split; [assumption|lia].
  - apply lowered_refl. assumption.
Qed.

Lemma stream_wake_lowered t streams : forall min_ts,
  timespec_valid min_ts ->
  (forall out ts, out ∈ streams -> ds_next_cb_ts out = Some ts -> timespec_valid ts) ->
  lowered min_ts (snd (get_next_stream_wake_from_list t streams min_ts)).
Proof.
  induction streams as [|s rest IH]; intros min_ts Hm H; simpl.
  - apply lowered_refl. assumption.
  - assert (forall out ts, out ∈ rest -> ds_next_cb_ts out = Some ts ->
                           timespec_valid ts) as Hrest.
    { intros out ts Hin. apply H. apply elem_of_cons. auto. }
    destruct (_ && _); [apply IH; assumption|].
    destruct (negb _); [apply IH; assumption|].
    destruct (ds_next_cb_ts s) as [next|] eqn:E; [|apply IH; assumption].
    assert (timespec_valid next) as Hn.
    { apply (H s next); [apply elem_of_cons; auto|exact E]. }
    pose proof (lowered_min min_ts next Hm Hn) as Hl.
    specialize (IH _ (proj1 Hl) Hrest).
    destruct (get_next_stream_wake_from_list t rest _) as [ret m].
    eapply lowered_trans; eassumption.
Qed.

Lemma output_wake_streams_lowered t odevs : forall min_ts,
  timespec_valid min_ts ->
  (forall adev out ts,
     adev ∈ odevs -> out ∈ dev_streams (get_iodev t (od_dev adev)) ->
     ds_next_cb_ts out = Some ts -> timespec_valid ts) ->
  lowered min_ts (snd (output_wake_streams t odevs min_ts)).
Proof.
  induction odevs as [|adev rest IH]; intros min_ts Hm H; simpl.
  - apply lowered_refl. assumption.
  - pose proof (stream_wake_lowered t (dev_streams (get_iodev t (od_dev adev)))
                  min_ts Hm) as Hl.
    destruct (get_next_stream_wake_from_list t _ min_ts) as [n m].
    assert (lowered min_ts m) as Hl'.
    { apply Hl. intros out ts. apply H. apply elem_of_cons. auto. }
    assert (lowered m (snd (output_wake_streams t rest m))) as Hl2.
    { apply IH; [exact (proj1 Hl')|].
      intros a out ts Hin. apply H. apply elem_of_cons. auto. }
    destruct (output_wake_streams t rest m) as [ret m2].
    eapply lowered_trans; eassumption.
Qed.

Lemma output_wake_devs_lowered t odevs : forall min_ts,
  timespec_valid min_ts ->
  (forall adev, adev ∈ odevs -> timespec_valid (od_wake_ts adev)) ->
  lowered min_ts (snd (output_wake_devs t odevs min_ts)).
Proof.
  induction odevs as [|adev rest IH]; intros min_ts Hm H; simpl.
  - apply lowered_refl. assumption.
  - assert (forall a, a ∈ rest -> timespec_valid (od_wake_ts a)) as Hrest.
    { intros a Hin. apply H. apply elem_of_cons. auto. }
    destruct (negb _); [apply IH; assumption|].
    assert (timespec_valid (od_wake_ts adev)) as Hw
      by (apply H; apply elem_of_cons; auto).
    pose proof (lowered_min min_ts (od_wake_ts adev) Hm Hw) as Hl.
    specialize (IH _ (proj1 Hl) Hrest).
    destruct (output_wake_devs t rest _) as [ret m].
    eapply lowered_trans; eassumption.
Qed.

Lemma next_input_wake_lowered t idevs : forall min_ts,
  timespec_valid min_ts ->
  (forall adev, adev ∈ idevs -> timespec_valid (od_wake_ts adev)) ->
  lowered min_ts (snd (dev_io_next_input_wake t idevs min_ts)).
Proof.
  induction idevs as [|adev rest IH]; intros min_ts Hm H; simpl.
  - apply lowered_refl. assumption.
  - assert (forall a, a ∈ rest -> timespec_valid (od_wake_ts a)) as Hrest.
    { intros a Hin. apply H. apply elem_of_cons. auto. }
    destruct (negb _); [apply IH; assumption|].
    assert (timespec_valid (od_wake_ts adev)) as Hw
      by (apply H; apply elem_of_cons; auto).
    pose proof (lowered_min min_ts (od_wake_ts adev) Hm Hw) as Hl.
    specialize (IH _ (proj1 Hl) Hrest).
    destruct (dev_io_next_input_wake t rest _) as [ret m].
    eapply lowered_trans; eassumption.
Qed.

Lemma add_timespecs_20s (now : timespec) :
  timespec_valid now ->
  timespec_valid (add_timespecs (Timespec 20 0) now) /\
  timespec_ns (add_timespecs (Timespec 20 0) now) = timespec_ns now + 20 * NSEC_PER_SEC.
Proof.
  unfold timespec_valid, timespec_ns, add_timespecs, NSEC_PER_SEC.
  cbn [tv_sec tv_nsec]. intros H.
  destruct (Z.leb_spec 1000000000 (0 + tv_nsec now)); cbn [tv_sec tv_nsec]; lia.
Qed.

Lemma subtract_timespecs_after (a b : timespec) :
  timespec_valid a -> timespec_valid b ->
  timespec_ns b < timespec_ns a ->
  timespec_valid (subtract_timespecs a b) /\
  0 <= tv_sec (subtract_timespecs a b) /\
  timespec_ns (subtract_timespecs a b) = timespec_ns a - timespec_ns b.
Proof.
  unfold timespec_valid, timespec_ns, subtract_timespecs, NSEC_PER_SEC.
  intros Ha Hb Hlt.
  destruct (Z.ltb_spec 0 (tv_sec a - tv_sec b));
    destruct (Z.ltb_spec (tv_nsec a - tv_nsec b) 0);
    destruct (Z.ltb_spec (tv_sec a - tv_sec b) 0);
    destruct (Z.ltb_spec 0 (tv_nsec a - tv_nsec b));
    cbn [andb tv_sec tv_nsec]; lia.
Qed.

Lemma next_wake_deadline_lowered (t : audio_thread) (now : timespec) :
  timespec_valid now ->
  deadlines_valid t ->
  lowered (add_timespecs (Timespec 20 0) now) (snd (next_wake_deadline t now)).
Proof.
  intros Hnow [Hwake Hcb]. unfold next_wake_deadline, get_next_output_wake.
  destruct (add_timespecs_20s now Hnow) as [Hv _].
  pose proof (output_wake_streams_lowered t (open_devs t CRAS_STREAM_OUTPUT)
                _ Hv Hcb) as H1.
  destruct (output_wake_streams t _ _) as [r1 m1]. cbn [snd] in H1.
  assert (lowered m1 (snd (output_wake_devs t (open_devs t CRAS_STREAM_OUTPUT) m1)))
    as H2.
  { apply output_wake_devs_lowered; [exact (proj1 H1)|].
    intros a Ha. apply Hwake. apply elem_of_app. left. exact Ha. }
  destruct (output_wake_devs t _ m1) as [r2 m2]. cbn [snd] in H2.
  assert (lowered m2 (snd (dev_io_next_input_wake t (open_devs t CRAS_STREAM_INPUT) m2)))
    as H3.
  { apply next_input_wake_lowered; [exact (proj1 H2)|].
    intros a Ha. apply Hwake. apply elem_of_app. right. exact Ha. }
  destruct (dev_io_next_input_wake t _ m2) as [r3 m3]. cbn [snd] in H3 |- *.
  eapply lowered_trans; [|exact H3]. eapply lowered_trans; eassumption.
Qed.

(** C6.  With the clock reading and every deadline in normal form, the
    interval [ts] that [fill_next_sleep_interval] computes is in normal form
    and not negative, is at most 20 seconds, and equals
    [max (min_ts - now, 0)], where [min_ts], initialised to [now + 20s] and
    lowered only, is at most [now + 20s]. *)
Theorem fill_next_sleep_interval_bounds clk (t : audio_thread) :
  timespec_valid (clk (clock_reads t)) ->
  deadlines_valid t ->
  let now := clk (clock_reads t) in
  let ts := snd (fst (fill_next_sleep_interval clk t)) in
  let min_ts := snd (next_wake_deadline (snd (clock_gettime clk t)) now) in
  timespec_valid ts /\ 0 <= tv_sec ts /\
  0 <= timespec_ns ts <= 20 * NSEC_PER_SEC /\
  timespec_ns ts = Z.max (timespec_ns min_ts - timespec_ns now) 0 /\
  timespec_ns min_ts <= timespec_ns now + 20 * NSEC_PER_SEC.
Proof.
  intros Hnow Hvalid. cbv zeta. unfold fill_next_sleep_interval.
  cbn [clock_gettime].
  set (now := clk (clock_reads t)) in *.
  set (t' := set_clock_reads (S (clock_reads t)) t).
  change (snd (clock_gettime clk t)) with t'.
  assert (deadlines_valid t') as Hvalid' by exact Hvalid.
  destruct (next_wake_deadline_lowered t' now Hnow Hvalid') as [Hv Hle].
  destruct (add_timespecs_20s now Hnow) as [_ H20]. rewrite H20 in Hle.
  destruct (next_wake_deadline t' now) as [ret min_ts]. cbn [fst snd] in *.
  destruct (timespec_after min_ts now) eqn:E.
  - apply timespec_after_ns in E; [|assumption..].
    destruct (subtract_timespecs_after min_ts now Hv Hnow E) as (H1 & H2 & H3).
    rewrite H3. split; [exact H1|]. split; [exact H2|]. split; [lia|]. split; lia.
  - assert (~ timespec_ns now < timespec_ns min_ts) as Hn.
    { intros Hlt. apply timespec_after_ns in Hlt; [|assumption..]. congruence. }
    unfold timespec_valid, timespec_ns, NSEC_PER_SEC in *. simpl. lia.
Qed.

Lemma fill_next_sleep_interval_bounds_witness :
  snd (fst (fill_next_sleep_interval example_clock thread_playing_due))
    = Timespec 0 10000000 /\
  let ts := snd (fst (fill_next_sleep_interval example_clock thread_playing_due)) in
  timespec_valid ts /\ 0 <= tv_sec ts /\
  0 <= timespec_ns ts <= 20 * NSEC_PER_SEC.
Proof.
  split; [reflexivity|].
  assert (deadlines_valid thread_playing_due) as Hvalid.
  { split.
    - intros adev Ha. simpl in Ha. apply list_elem_of_singleton in Ha. subst adev.
      unfold timespec_valid, NSEC_PER_SEC. simpl. lia.
    - intros adev out ts Ha Ho Hts. simpl in Ha.
      apply list_elem_of_singleton in Ha. subst adev.
      change (out ∈ [mk_binding 20 3 (Some (Timespec 100 10000000)) 0]) in Ho.
      apply list_elem_of_singleton in Ho. subst out.
      injection Hts as <-. unfold timespec_valid, NSEC_PER_SEC. simpl. lia. }
  assert (timespec_valid (example_clock (clock_reads thread_playing_due))) as Hnow.
  { unfold timespec_valid, NSEC_PER_SEC. simpl. lia. }
  destruct (fill_next_sleep_interval_bounds example_clock thread_playing_due
              Hnow Hvalid) as (H1 & H2 & H3 & _).
  cbv zeta. tauto.
Defined.

(** ** The callback registry *)

Lemma add_callback_present fd cb data is_write l :
  existsb (fun iodev_cb => (icb_fd iodev_cb =? fd) && (icb_cb_data iodev_cb =? data))
          (_audio_thread_add_callback fd cb data is_write l) = true.
Proof.
  unfold _audio_thread_add_callback.
  destruct (existsb _ l) eqn:E; [exact E|].
  rewrite existsb_app. simpl. rewrite !Z.eqb_refl. simpl. apply orb_true_r.
Qed.

(** X1.  Registering a (fd, data) pair that is already registered changes
    nothing, whatever handler and direction the second registration names: the
    first handler stays. *)
Theorem add_callback_duplicate_ignored (fd cb cb' data is_write is_write' : Z)
    (l : list iodev_callback_list) :
  _audio_thread_add_callback fd cb' data is_write'
    (_audio_thread_add_callback fd cb data is_write l)
  = _audio_thread_add_callback fd cb data is_write l.
Proof.
  unfold _audio_thread_add_callback at 1. rewrite add_callback_present. reflexivity.
Qed.

Lemma existsb_key_false fd data (l : list iodev_callback_list) :
  existsb (fun iodev_cb => (icb_fd iodev_cb =? fd) && (icb_cb_data iodev_cb =? data)) l
    = false ->
  (fd, data) ∉ map icb_key l.
Proof.
  intros H Hin. apply list_elem_of_In, in_map_iff in Hin as (c & Hk & Hc).
  assert (existsb (fun iodev_cb => (icb_fd iodev_cb =? fd)
                                   && (icb_cb_data iodev_cb =? data)) l = true) as Ht.
  { apply existsb_exists. exists c. split; [exact Hc|].
    unfold icb_key in Hk. injection Hk as -> ->. rewrite !Z.eqb_refl. reflexivity. }
  congruence.
Qed.

(** X2.  Registration keeps the (fd, data) keys of the registry pairwise
    distinct, appends at the end, and leaves the records already there as
    they are. *)
Theorem add_callback_keys_unique (fd cb data is_write : Z)
    (l : list iodev_callback_list) :
  NoDup (map icb_key l) ->
  NoDup (map icb_key (_audio_thread_add_callback fd cb data is_write l)) /\
  (exists tail, _audio_thread_add_callback fd cb data is_write l = l ++ tail) /\
  (fd, data) ∈ map icb_key (_audio_thread_add_callback fd cb data is_write l).
Proof.
  intros Hnd. unfold _audio_thread_add_callback.
  destruct (existsb _ l) eqn:E.
  - split; [exact Hnd|]. split; [exists []; symmetry; apply app_nil_r|].
    apply existsb_exists in E as (c & Hc & Hk).
    apply andb_true_iff in Hk as [H1 H2]. apply Z.eqb_eq in H1, H2.
    apply list_elem_of_In, in_map_iff. exists c. split; [|exact Hc].
    unfold icb_key. congruence.
  - split; [|split; [eexists; reflexivity|]].
    + rewrite map_app. apply NoDup_app. split; [exact Hnd|]. split.
      * intros k Hk Hk'. simpl in Hk'. apply list_elem_of_singleton in Hk'.
        subst k. exact (existsb_key_false _ _ _ E Hk).
      * simpl. apply NoDup_singleton.
    + rewrite map_app. apply elem_of_app. right. simpl.
      apply list_elem_of_singleton. reflexivity.
Qed.

Lemma add_callback_keys_unique_witness :
  let l := [mk_callback 7 0 1 100 0; mk_callback 7 0 1 100 5] in
  NoDup (map icb_key (_audio_thread_add_callback 9 200 0 1 l)) /\
  (exists tail, _audio_thread_add_callback 9 200 0 1 l = l ++ tail) /\
  (9, 0) ∈ map icb_key (_audio_thread_add_callback 9 200 0 1 l).
Proof.
  apply (add_callback_keys_unique 9 200 0 1
           [mk_callback 7 0 1 100 0; mk_callback 7 0 1 100 5]).
  simpl. apply NoDup_cons. split.
  - intros H. apply list_elem_of_singleton in H. discriminate.
  - apply NoDup_singleton.
Defined.

Lemma rm_callback_first (fd : Z) (before after : list iodev_callback_list)
    (c : iodev_callback_list) :
  (forall x, x ∈ before -> icb_fd x <> fd) ->
  icb_fd c = fd ->
  audio_thread_rm_callback fd (before ++ c :: after) = before ++ after.
Proof.
  intros Hb Hc. induction before as [|x before IH]; simpl.
  - rewrite Hc, Z.eqb_refl. reflexivity.
  - destruct (Z.eqb_spec (icb_fd x) fd) as [Heq|_].
    + exfalso. apply (Hb x); [apply elem_of_cons; auto|exact Heq].
    + rewrite IH; [reflexivity|]. intros y Hy. apply Hb. apply elem_of_cons. auto.
Qed.

(** X3.  Removal by fd takes out the first record with that fd and nothing
    else: the records before and after it stay, in order, also later records
    with the same fd. *)
Theorem rm_callback_removes_first (fd : Z) (before after : list iodev_callback_list)
    (c : iodev_callback_list) :
  (forall x, x ∈ before -> icb_fd x <> fd) ->
  icb_fd c = fd ->
  audio_thread_rm_callback fd (before ++ c :: after) = before ++ after.
Proof. apply rm_callback_first. Qed.

Lemma rm_callback_removes_first_witness :
  audio_thread_rm_callback 7
    ([mk_callback 3 0 1 100 0] ++ mk_callback 7 0 1 100 0 :: [mk_callback 7 1 1 200 5])
  = [mk_callback 3 0 1 100 0] ++ [mk_callback 7 1 1 200 5].
Proof.
  apply (rm_callback_removes_first 7 [mk_callback 3 0 1 100 0]
           [mk_callback 7 1 1 200 5] (mk_callback 7 0 1 100 0)).
  - intros x Hx. apply list_elem_of_singleton in Hx. subst x. simpl. lia.
  - reflexivity.
Defined.

Lemma rm_callback_absent (fd : Z) (l : list iodev_callback_list) :
  (forall x, x ∈ l -> icb_fd x <> fd) ->
  audio_thread_rm_callback fd l = l.
Proof.
  intros H. induction l as [|x l IH]; simpl; [reflexivity|].
  destruct (Z.eqb_spec (icb_fd x) fd) as [Heq|_].
  - exfalso. apply (H x); [apply elem_of_cons; auto|exact Heq].
  - rewrite IH; [reflexivity|]. intros y Hy. apply H. apply elem_of_cons. auto.
Qed.

(** X4.  Registering a callback on an fd no record uses and removing the fd
    again gives the registry back as it was; removing an fd no record uses
    changes nothing. *)
Theorem add_rm_callback_round_trip (fd cb data is_write : Z)
    (l : list iodev_callback_list) :
  (forall x, x ∈ l -> icb_fd x <> fd) ->
  audio_thread_rm_callback fd (_audio_thread_add_callback fd cb data is_write l) = l /\
  audio_thread_rm_callback fd l = l.
Proof.
  intros H. split; [|apply rm_callback_absent; exact H].
  unfold _audio_thread_add_callback.
  destruct (existsb _ l) eqn:E.
  - apply existsb_exists in E as (c & Hc & Hk).
    apply andb_true_iff in Hk as [H1 _]. apply Z.eqb_eq in H1.
    exfalso. apply (H c); [apply list_elem_of_In; exact Hc|exact H1].
  - rewrite rm_callback_first; [apply app_nil_r|exact H|reflexivity].
Qed.

Lemma add_rm_callback_round_trip_witness :
  let l := [mk_callback 3 0 1 100 0; mk_callback 4 1 0 100 0] in
  audio_thread_rm_callback 7 (_audio_thread_add_callback 7 200 5 0 l) = l /\
  audio_thread_rm_callback 7 l = l.
Proof.
  apply (add_rm_callback_round_trip 7 200 5 0
           [mk_callback 3 0 1 100 0; mk_callback 4 1 0 100 0]).
  intros x Hx. apply elem_of_cons in Hx as [->|Hx]; [simpl; lia|].
  apply list_elem_of_singleton in Hx. subst x. simpl. lia.
Defined.

(** X5.  Enabling or disabling by fd sets the flag of the first record with
    that fd to 0 or 1 and touches no other record, later records with the
    same fd included. *)
Theorem enable_callback_first_only (fd enabled : Z)
    (before after : list iodev_callback_list) (c : iodev_callback_list) :
  (forall x, x ∈ before -> icb_fd x <> fd) ->
  icb_fd c = fd ->
  audio_thread_enable_callback fd enabled (before ++ c :: after)
  = before ++ set_icb_enabled (if enabled =? 0 then 0 else 1) c :: after.
Proof.
  intros Hb Hc. induction before as [|x before IH]; simpl.
  - rewrite Hc, Z.eqb_refl. reflexivity.
  - destruct (Z.eqb_spec (icb_fd x) fd) as [Heq|_].
    + exfalso. apply (Hb x); [apply elem_of_cons; auto|exact Heq].
    + rewrite IH; [reflexivity|]. intros y Hy. apply Hb. apply elem_of_cons. auto.
Qed.

Lemma enable_callback_first_only_witness :
  audio_thread_enable_callback 7 0
    ([mk_callback 3 0 1 100 0] ++ mk_callback 7 0 1 100 0 :: [mk_callback 7 1 1 200 5])
  = [mk_callback 3 0 1 100 0] ++ mk_callback 7 0 0 100 0 :: [mk_callback 7 1 1 200 5].
Proof.
  apply (enable_callback_first_only 7 0 [mk_callback 3 0 1 100 0]
           [mk_callback 7 1 1 200 5] (mk_callback 7 0 1 100 0)).
  - intros x Hx. apply list_elem_of_singleton in Hx. subst x. simpl. lia.
  - reflexivity.
Defined.

(** ** Opening and closing devices *)

Lemma search_open_dev_none (l : list open_dev) (iodev : ptr) :
  search_open_dev l iodev = None <-> iodev ∉ map od_dev l.
Proof.
  unfold search_open_dev. induction l as [|a l IH]; simpl.
  - split; [intros _ H; apply elem_of_nil in H; contradiction|reflexivity].
  - destruct (Pos.eqb_spec (od_dev a) iodev) as [Heq|Hne].
    + split; [discriminate|]. intros H. exfalso. apply H. apply elem_of_cons. auto.
    + rewrite IH. split.
      * intros H Hin. apply elem_of_cons in Hin as [Heq|Hin]; [congruence|tauto].
      * intros H Hin. apply H. apply elem_of_cons. auto.
Qed.

Lemma search_open_dev_some (l : list open_dev) (iodev : ptr) (adev : open_dev) :
  search_open_dev l iodev = Some adev -> adev ∈ l /\ od_dev adev = iodev.
Proof.
  unfold search_open_dev. intros H. apply find_some in H as [Hin Heq].
  apply Pos.eqb_eq in Heq. apply list_elem_of_In in Hin. tauto.
Qed.

Lemma search_open_dev_app_new (l : list open_dev) (adev : open_dev) :
  search_open_dev (l ++ [adev]) (od_dev adev) <> None.
Proof.
  rewrite search_open_dev_none. intros H. apply H.
  rewrite map_app. apply elem_of_app. right. simpl.
  apply list_elem_of_singleton. reflexivity.
Qed.

Lemma dev_direction_fill_zeros odev frames t p :
  dev_direction (get_iodev (cras_iodev_fill_odev_zeros odev frames t) p)
  = dev_direction (get_iodev t p).
Proof.
  unfold cras_iodev_fill_odev_zeros. rewrite get_iodev_update.
  destruct (decide (odev = p)) as [->|]; reflexivity.
Qed.

(** The state an accepted AddOpenDev leaves. *)
Lemma thread_add_open_dev_accepted iodev t :
  search_open_dev (open_devs t (dev_direction (get_iodev t iodev))) iodev = None ->
  let dir := dev_direction (get_iodev t iodev) in
  let r := thread_add_open_dev iodev t in
  fst r = 0 /\
  open_devs (snd r) dir = open_devs t dir ++ [opened iodev] /\
  (forall dir', dir' <> dir -> open_devs (snd r) dir' = open_devs t dir') /\
  (forall p, dev_direction (get_iodev (snd r) p) = dev_direction (get_iodev t p)) /\
  (forall p, p <> iodev -> get_iodev (snd r) p = get_iodev t p) /\
  rstreams (snd r) = rstreams t.
Proof.
  intros Hnone. cbv zeta. unfold thread_add_open_dev. rewrite Hnone.
  destruct (dev_direction (get_iodev t iodev)) eqn:Hdir; cbn [fst snd].
  - split; [reflexivity|]. split; [reflexivity|].
    split; [intros [] H; [congruence|reflexivity]|].
    split; [intros p; apply dev_direction_fill_zeros|].
    split; [|reflexivity].
    intros p Hp. unfold fill_odevs_zeros_min_level, cras_iodev_fill_odev_zeros.
    change (get_iodev (set_open_devs ?d ?l ?u) p) with (get_iodev u p).
    rewrite get_iodev_update. destruct (decide (iodev = p)); [congruence|reflexivity].
  - split; [reflexivity|]. split; [reflexivity|].
    split; [intros [] H; [reflexivity|congruence]|].
    split; [reflexivity|]. split; reflexivity.
Qed.

(** X6.  AddOpenDev either accepts the device (reply 0) or refuses it with
    [-EEXIST] and changes nothing; either way the device is open afterwards
    (IsDevOpen replies 1) and a further AddOpenDev of it is refused with
    [-EEXIST] and changes nothing. *)
Theorem thread_add_open_dev_twice clk ok md ms (iodev : ptr) (t : audio_thread) :
  let r := handle_playback_thread_message clk ok md ms
             (AUDIO_THREAD_ADD_OPEN_DEV iodev) t in
  (fst r = 0 \/ (fst r = - EEXIST /\ snd r = t)) /\
  handle_playback_thread_message clk ok md ms (AUDIO_THREAD_IS_DEV_OPEN iodev) (snd r)
    = (1, snd r) /\
  handle_playback_thread_message clk ok md ms (AUDIO_THREAD_ADD_OPEN_DEV iodev) (snd r)
    = (- EEXIST, snd r).
Proof.
  cbv zeta. cbn [handle_playback_thread_message].
  assert (forall u, search_open_dev (open_devs u (dev_direction (get_iodev u iodev)))
                      iodev <> None ->
                    thread_is_dev_open iodev u = 1 /\
                    thread_add_open_dev iodev u = (- EEXIST, u)) as Hopen.
  { intros u Hu. unfold thread_is_dev_open, thread_add_open_dev, dev_io_find_open_dev.
    destruct (search_open_dev _ iodev); [split; reflexivity|congruence]. }
  destruct (search_open_dev (open_devs t (dev_direction (get_iodev t iodev))) iodev)
    as [adev|] eqn:E.
  - assert (thread_add_open_dev iodev t = (- EEXIST, t)) as ->.
    { unfold thread_add_open_dev. rewrite E. reflexivity. }
    cbn [fst snd]. split; [right; split; reflexivity|].
    destruct (Hopen t) as [-> ->]; [congruence|]. split; reflexivity.
  - destruct (thread_add_open_dev_accepted iodev t E) as (H0 & Hl & _ & Hd & _).
    cbv zeta in H0, Hl, Hd. split; [left; exact H0|].
    destruct (Hopen (snd (thread_add_open_dev iodev t))) as [-> ->];
      [|split; reflexivity].
    rewrite Hd, Hl. apply (search_open_dev_app_new _ (opened iodev)).
Qed.

Lemma same_devs_refl t : same_devs t t.
Proof. unfold same_devs. tauto. Qed.

Lemma same_devs_trans t1 t2 t3 :
  same_devs t1 t2 -> same_devs t2 t3 -> same_devs t1 t3.
Proof.
  intros (A1 & A2 & A3) (B1 & B2 & B3). unfold same_devs.
  rewrite B1, B2, A1, A2. split; [reflexivity|]. split; [reflexivity|].
  intros p. rewrite B3. apply A3.
Qed.

Lemma same_devs_update_iodev p f t :
  (forall d, dev_direction (f d) = dev_direction d) ->
  same_devs t (update_iodev p f t).
Proof.
  intros Hf. split; [reflexivity|]. split; [reflexivity|].
  intros q. rewrite get_iodev_update. destruct (decide (p = q)) as [->|]; [apply Hf|reflexivity].
Qed.

Lemma same_devs_frame t t' :
  open_odevs t' = open_odevs t -> open_idevs t' = open_idevs t ->
  iodevs t' = iodevs t -> same_devs t t'.
Proof.
  intros H1 H2 H3. split; [exact H1|]. split; [exact H2|].
  intros p. unfold get_iodev. rewrite H3. reflexivity.
Qed.

Lemma same_devs_add_stream dev out t : same_devs t (cras_iodev_add_stream dev out t).
Proof. apply same_devs_update_iodev. reflexivity. Qed.

Lemma same_devs_rm_stream dev stream t : same_devs t (cras_iodev_rm_stream dev stream t).
Proof. apply same_devs_update_iodev. reflexivity. Qed.

Lemma same_devs_stream_written dev out n t :
  same_devs t (cras_iodev_stream_written dev out n t).
Proof. apply same_devs_update_iodev. reflexivity. Qed.

Lemma same_devs_wf t t' : same_devs t t' -> open_devs_wf t -> open_devs_wf t'.
Proof.
  intros (Ho & Hi & Hd) (N1 & N2 & Hdir). unfold open_devs_wf.
  rewrite Ho, Hi. split; [exact N1|]. split; [exact N2|].
  intros dir adev Hin. rewrite Hd. apply Hdir.
  destruct dir; simpl in *; congruence.
Qed.

Section StreamHandlersKeepDevices.

Variable clk : nat -> timespec.
Variable ok : ptr -> ptr -> bool.

Lemma append_stream_dev_same_devs stream iodev t l :
  match append_stream_dev clk ok stream iodev t l with
  | Next t' _ => same_devs t t'
  | Break _ t' _ => same_devs t t'
  end.
Proof.
  unfold append_stream_dev.
  destruct (search_open_dev _ iodev); [|apply same_devs_refl].
  destruct (search_dev_stream _ stream); [apply same_devs_refl|].
  set (l2 := match rs_direction (get_rstream t stream) with
             | CRAS_STREAM_OUTPUT => _ | CRAS_STREAM_INPUT => _ end).
  assert (exists t3 l3,
            (if cb_ts_set l2 then (t, l2)
             else let '(now, t0) := clock_gettime clk t in
                  (t0, {| init_cb_ts := now; cb_ts_set := cb_ts_set l2 |})) = (t3, l3) /\
            same_devs t t3) as (t3 & l3 & -> & Hframe).
  { destruct (cb_ts_set l2); eexists _, _; (split; [reflexivity|]);
      unfold same_devs; simpl; tauto. }
  destruct (dev_stream_create ok stream _ iodev _) as [out|]; [|exact Hframe].
  destruct (rs_direction (get_rstream t stream)).
  - eapply same_devs_trans; [exact Hframe|apply same_devs_add_stream].
  - destruct (dev_streams (get_iodev t iodev)) as [|first rest].
    + destruct (_ <? 0); [exact Hframe|].
      eapply same_devs_trans; [exact Hframe|apply same_devs_add_stream].
    + eapply same_devs_trans; [exact Hframe|].
      eapply same_devs_trans; [apply same_devs_add_stream|].
      unfold align_input_offsets.
      eapply same_devs_trans; [apply same_devs_stream_written|].
      apply same_devs_frame; reflexivity.
Qed.

Lemma append_stream_loop_same_devs stream devs : forall t l,
  same_devs t (snd (fst (append_stream_loop clk ok stream devs t l))).
Proof.
  induction devs as [|iodev rest IH]; intros t l; simpl; [apply same_devs_refl|].
  pose proof (append_stream_dev_same_devs stream iodev t l) as H.
  destruct (append_stream_dev clk ok stream iodev t l) as [t2 l2|rc2 t2 l2].
  - eapply same_devs_trans; [exact H|apply IH].
  - exact H.
Qed.

Lemma rollback_same_devs stream devs : forall t,
  same_devs t (append_stream_rollback stream devs t).
Proof.
  induction devs as [|adev rest IH]; intros t; simpl; [apply same_devs_refl|].
  destruct (search_dev_stream _ stream) as [found|]; [|apply IH].
  eapply same_devs_trans; [|apply IH].
  eapply same_devs_trans; [apply same_devs_rm_stream|].
  apply same_devs_frame; reflexivity.
Qed.

Lemma thread_add_stream_same_devs stream devs t :
  same_devs t (snd (thread_add_stream clk ok stream devs t)).
Proof.
  unfold thread_add_stream, append_stream.
  pose proof (append_stream_loop_same_devs stream devs t append_locals_init) as H.
  destruct (append_stream_loop clk ok stream devs t append_locals_init) as [[rc t1] l1].
  cbn [fst snd] in H.
  destruct (rc =? 0).
  - destruct (rc <? 0); exact H.
  - assert (same_devs t (append_stream_rollback stream
                           (open_devs t1 (rs_direction (get_rstream t1 stream))) t1))
      as H' by (eapply same_devs_trans; [exact H|apply rollback_same_devs]).
    destruct (rc <? 0); exact H'.
Qed.

End StreamHandlersKeepDevices.

Lemma detach_everywhere_same_devs stream devs : forall t,
  same_devs t (detach_everywhere devs stream t).
Proof.
  induction devs as [|adev rest IH]; intros t; simpl; [apply same_devs_refl|].
  eapply same_devs_trans; [apply same_devs_rm_stream|apply IH].
Qed.

Lemma dev_io_remove_stream_same_devs dir stream dev t :
  same_devs t (snd (dev_io_remove_stream dir stream dev t)).
Proof.
  destruct dev; simpl; [apply same_devs_rm_stream|apply detach_everywhere_same_devs].
Qed.

Lemma thread_drain_stream_same_devs stream t :
  same_devs t (snd (thread_drain_stream stream t)).
Proof.
  unfold thread_drain_stream.
  destruct (negb _); [apply same_devs_refl|].
  unfold thread_drain_stream_ms_remaining.
  destruct (rs_direction (get_rstream t stream)).
  - destruct (_ <=? 0).
    + cbn [Z.eqb snd]. apply dev_io_remove_stream_same_devs.
    + destruct (_ =? 0); cbn [snd].
      * eapply same_devs_trans; [|apply dev_io_remove_stream_same_devs].
        apply same_devs_frame; reflexivity.
      * apply same_devs_frame; reflexivity.
  - cbn [Z.eqb snd]. apply dev_io_remove_stream_same_devs.
Qed.

Lemma thread_disconnect_stream_same_devs stream dev t :
  same_devs t (snd (thread_disconnect_stream stream dev t)).
Proof.
  unfold thread_disconnect_stream.
  destruct (negb _); [apply same_devs_refl|apply dev_io_remove_stream_same_devs].
Qed.

Lemma dump_dev_streams_same_devs ms streams idx : forall d t,
  same_devs t (snd (dump_dev_streams ms streams idx d t)).
Proof.
  induction streams as [|s rest IH]; intros d t; simpl; [apply same_devs_refl|].
  destruct (_ =? ms); [apply same_devs_refl|].
  eapply same_devs_trans; [|apply IH]. apply same_devs_frame; reflexivity.
Qed.

Lemma dump_output_devs_same_devs md ms devs : forall d t,
  same_devs t (snd (dump_output_devs md ms devs d t)).
Proof.
  induction devs as [|adev rest IH]; intros d t; simpl; [apply same_devs_refl|].
  destruct (_ =? md); [apply same_devs_refl|].
  pose proof (dump_dev_streams_same_devs ms
                (dev_streams (get_iodev t (od_dev adev)))
                (dev_info_idx (get_iodev t (od_dev adev)))
                (incr_num_devs (append_dev_dump_info adev t d)) t) as H.
  destruct (dump_dev_streams ms _ _ _ t) as [d1 t1]. cbn [snd] in H.
  eapply same_devs_trans; [exact H|apply IH].
Qed.

Lemma dump_input_devs_same_devs md ms devs : forall d t,
  same_devs t (snd (dump_input_devs md ms devs d t)).
Proof.
  induction devs as [|adev rest IH]; intros d t; simpl; [apply same_devs_refl|].
  destruct (_ =? md); [apply same_devs_refl|].
  pose proof (dump_dev_streams_same_devs ms
                (dev_streams (get_iodev t (od_dev adev)))
                (dev_info_idx (get_iodev t (od_dev adev)))
                (append_dev_dump_info adev t d) t) as H.
  destruct (dump_dev_streams ms _ _ _ t) as [d1 t1]. cbn [snd] in H.
  eapply same_devs_trans; [exact H|apply IH].
Qed.

Lemma thread_dump_same_devs md ms t :
  same_devs t (snd (thread_dump_thread_info md ms t)).
Proof.
  unfold thread_dump_thread_info.
  pose proof (dump_output_devs_same_devs md ms (open_devs t CRAS_STREAM_OUTPUT)
                {| num_devs := 0; num_streams := 0; dumped_devs := [];
                   dumped_streams := [] |} t) as H1.
  destruct (dump_output_devs md ms _ _ t) as [d1 t1]. cbn [snd] in H1.
  pose proof (dump_input_devs_same_devs md ms (open_devs t1 CRAS_STREAM_INPUT) d1 t1)
    as H2.
  destruct (dump_input_devs md ms _ d1 t1) as [d2 t2]. cbn [snd] in H2 |- *.
  eapply same_devs_trans; [exact H1|]. eapply same_devs_trans; [exact H2|].
  apply same_devs_frame; reflexivity.
Qed.

Lemma rm_open_dev_subset (l : list open_dev) (iodev : ptr) (x : open_dev) :
  x ∈ dev_io_rm_open_dev l iodev -> x ∈ l.
Proof.
  induction l as [|a l IH]; simpl; [tauto|].
  destruct (Pos.eqb (od_dev a) iodev).
  - intros H. apply elem_of_cons. auto.
  - intros H. apply elem_of_cons in H as [->|H]; apply elem_of_cons; auto.
Qed.

Lemma rm_open_dev_nodup (l : list open_dev) (iodev : ptr) :
  NoDup (map od_dev l) ->
  NoDup (map od_dev (dev_io_rm_open_dev l iodev)) /\
  iodev ∉ map od_dev (dev_io_rm_open_dev l iodev).
Proof.
  induction l as [|a l IH]; simpl; intros Hnd.
  - split; [exact Hnd|]. intros H. apply elem_of_nil in H. contradiction.
  - apply NoDup_cons in Hnd as [Ha Hnd].
    destruct (Pos.eqb_spec (od_dev a) iodev) as [Heq|Hne].
    + split; [exact Hnd|]. rewrite <- Heq. exact Ha.
    + destruct (IH Hnd) as [H1 H2]. simpl. split.
      * apply NoDup_cons. split; [|exact H1].
        intros Hin. apply Ha.
        apply list_elem_of_In, in_map_iff in Hin as (x & Hx & Hin).
        apply list_elem_of_In, in_map_iff. exists x. split; [exact Hx|].
        apply list_elem_of_In. eapply rm_open_dev_subset.
        apply list_elem_of_In. exact Hin.
      * intros Hin. apply elem_of_cons in Hin as [Heq|Hin]; [congruence|tauto].
Qed.

Lemma rm_open_dev_others (l : list open_dev) (iodev p : ptr) :
  p <> iodev ->
  (p ∈ map od_dev (dev_io_rm_open_dev l iodev) <-> p ∈ map od_dev l).
Proof.
  intros Hp. induction l as [|a l IH]; simpl; [tauto|].
  destruct (Pos.eqb_spec (od_dev a) iodev) as [Heq|Hne].
  - rewrite elem_of_cons. split; [auto|]. intros [H|H]; [congruence|exact H].
  - simpl. rewrite !elem_of_cons, IH. tauto.
Qed.

Lemma rm_open_dev_last (l : list open_dev) (adev : open_dev) :
  od_dev adev ∉ map od_dev l ->
  dev_io_rm_open_dev (l ++ [adev]) (od_dev adev) = l.
Proof.
  induction l as [|a l IH]; simpl; intros H.
  - rewrite Pos.eqb_refl. reflexivity.
  - destruct (Pos.eqb_spec (od_dev a) (od_dev adev)) as [Heq|Hne].
    + exfalso. apply H. apply elem_of_cons. auto.
    + rewrite IH; [reflexivity|]. intros Hin. apply H. apply elem_of_cons. auto.
Qed.

Lemma open_devs_set_open_devs dir l t dir' :
  open_devs (set_open_devs dir l t) dir' = if direction_eqb dir dir' then l else open_devs t dir'.
Proof. destruct dir, dir'; reflexivity. Qed.

Lemma thread_add_open_dev_wf iodev t :
  open_devs_wf t -> open_devs_wf (snd (thread_add_open_dev iodev t)).
Proof.
  intros Hwf.
  destruct (search_open_dev (open_devs t (dev_direction (get_iodev t iodev))) iodev)
    as [adev|] eqn:E.
  - unfold thread_add_open_dev. rewrite E. exact Hwf.
  - destruct (thread_add_open_dev_accepted iodev t E) as (_ & Hl & Hl' & Hd & _).
    cbv zeta in Hl, Hl', Hd. destruct Hwf as (N1 & N2 & Hdir).
    set (t' := snd (thread_add_open_dev iodev t)) in *.
    assert (forall dir, NoDup (map od_dev (open_devs t dir))) as Hnd
      by (intros []; assumption).
    assert (forall dir, NoDup (map od_dev (open_devs t' dir))) as Hnd'.
    { intros dir.
      destruct (direction_eqb dir (dev_direction (get_iodev t iodev))) eqn:Hd'.
      - assert (dir = dev_direction (get_iodev t iodev)) as ->
          by (destruct dir, (dev_direction (get_iodev t iodev)); simpl in Hd';
              congruence).
        rewrite Hl, map_app. apply NoDup_app. split; [apply Hnd|]. split.
        + intros p Hp Hp'. simpl in Hp'. apply list_elem_of_singleton in Hp'.
          subst p. apply search_open_dev_none in E. exact (E Hp).
        + simpl. apply NoDup_singleton.
      - rewrite Hl'; [apply Hnd|]. intros ->.
        destruct (dev_direction (get_iodev t iodev)); simpl in Hd'; congruence. }
    split; [exact (Hnd' CRAS_STREAM_OUTPUT)|]. split; [exact (Hnd' CRAS_STREAM_INPUT)|].
    intros dir adev Hin. rewrite Hd.
    destruct (direction_eqb dir (dev_direction (get_iodev t iodev))) eqn:Hd'.
    + assert (dir = dev_direction (get_iodev t iodev)) as Heq
        by (destruct dir, (dev_direction (get_iodev t iodev)); simpl in Hd';
            congruence).
      rewrite Heq in Hin. rewrite Hl in Hin. apply elem_of_app in Hin as [Hin|Hin].
      * rewrite Heq. apply Hdir. exact Hin.
      * apply list_elem_of_singleton in Hin. subst adev. simpl. congruence.
    + rewrite Hl' in Hin; [apply Hdir; exact Hin|]. intros ->.
      destruct (dev_direction (get_iodev t iodev)); simpl in Hd'; congruence.
Qed.

Lemma thread_rm_open_dev_wf iodev t :
  open_devs_wf t -> open_devs_wf (snd (thread_rm_open_dev iodev t)).
Proof.
  intros Hwf. unfold thread_rm_open_dev.
  destruct (dev_io_find_open_dev _ iodev) as [adev|]; [|exact Hwf].
  cbn [snd]. destruct Hwf as (N1 & N2 & Hdir).
  set (dir := dev_direction (get_iodev t iodev)).
  assert (forall d, NoDup (map od_dev (open_devs t d))) as Hnd
    by (intros []; assumption).
  assert (forall d, NoDup (map od_dev
            (open_devs (set_open_devs dir
               (dev_io_rm_open_dev (open_devs t dir) (od_dev adev)) t) d))) as Hnd'.
  { intros d. rewrite open_devs_set_open_devs.
    destruct (direction_eqb dir d); [|apply Hnd].
    apply rm_open_dev_nodup. apply Hnd. }
  split; [exact (Hnd' CRAS_STREAM_OUTPUT)|]. split; [exact (Hnd' CRAS_STREAM_INPUT)|].
  intros d a Hin. rewrite open_devs_set_open_devs in Hin.
  change (get_iodev (set_open_devs ?x ?y ?u) ?p) with (get_iodev u p).
  destruct (direction_eqb dir d) eqn:Hd.
  - assert (dir = d) as <- by (destruct dir, d; simpl in Hd; congruence).
    apply Hdir. eapply rm_open_dev_subset. exact Hin.
  - apply Hdir. exact Hin.
Qed.

Lemma handle_message_wf clk ok md ms msg t :
  open_devs_wf t ->
  open_devs_wf (snd (handle_playback_thread_message clk ok md ms msg t)).
Proof.
  intros Hwf. destruct msg; cbn [handle_playback_thread_message snd].
  - apply thread_add_open_dev_wf. exact Hwf.
  - apply thread_rm_open_dev_wf. exact Hwf.
  - exact Hwf.
  - eapply same_devs_wf; [apply thread_add_stream_same_devs|exact Hwf].
  - eapply same_devs_wf; [apply thread_disconnect_stream_same_devs|exact Hwf].
  - eapply same_devs_wf; [apply thread_dump_same_devs|exact Hwf].
  - eapply same_devs_wf; [apply thread_drain_stream_same_devs|exact Hwf].
Qed.

(** X7.  Whatever commands the thread handles, no device comes to be listed
    twice in an open-device list, and every entry stays in the list of its
    device's direction. *)
Theorem open_devs_wf_preserved clk ok md ms (msgs : list audio_thread_msg)
    (t : audio_thread) :
  open_devs_wf t -> open_devs_wf (run_commands clk ok md ms msgs t).
Proof.
  revert t. induction msgs as [|msg msgs IH]; intros t Hwf; [exact Hwf|].
  unfold run_commands. cbn [fold_left]. apply IH. apply handle_message_wf. exact Hwf.
Qed.

Lemma thread_started_wf : open_devs_wf thread_started.
Proof.
  split; [apply NoDup_nil; reflexivity|]. split; [apply NoDup_nil; reflexivity|].
  intros [] adev Hin; simpl in Hin; apply elem_of_nil in Hin; contradiction.
Qed.

Lemma open_devs_wf_preserved_witness :
  open_devs_wf
    (run_commands example_clock create_always_ok 4 8
       [AUDIO_THREAD_ADD_OPEN_DEV 1; AUDIO_THREAD_ADD_OPEN_DEV 2;
        AUDIO_THREAD_ADD_OPEN_DEV 1; AUDIO_THREAD_RM_OPEN_DEV 2]
       thread_started).
Proof.
  apply (open_devs_wf_preserved example_clock create_always_ok 4 8
           [AUDIO_THREAD_ADD_OPEN_DEV 1; AUDIO_THREAD_ADD_OPEN_DEV 2;
            AUDIO_THREAD_ADD_OPEN_DEV 1; AUDIO_THREAD_RM_OPEN_DEV 2]
           thread_started).
  exact thread_started_wf.
Defined.

Lemma thread_is_dev_open_spec iodev t :
  (thread_is_dev_open iodev t = 1 <->
   iodev ∈ map od_dev (open_devs t (dev_direction (get_iodev t iodev)))) /\
  (thread_is_dev_open iodev t = 0 <->
   iodev ∉ map od_dev (open_devs t (dev_direction (get_iodev t iodev)))).
Proof.
  unfold thread_is_dev_open, dev_io_find_open_dev.
  pose proof (search_open_dev_none
                (open_devs t (dev_direction (get_iodev t iodev))) iodev) as H.
  destruct (search_open_dev _ iodev).
  - assert (~ (iodev ∉ map od_dev (open_devs t (dev_direction (get_iodev t iodev)))))
      as Hn by (intros Hn; apply H in Hn; discriminate).
    split; split.
    + intros _. destruct (decide (iodev ∈ map od_dev
                  (open_devs t (dev_direction (get_iodev t iodev))))); tauto.
    + reflexivity.
    + discriminate.
    + tauto.
  - pose proof (proj1 H eq_refl) as Hn. split; split.
    + discriminate.
    + tauto.
    + intros _. exact Hn.
    + reflexivity.
Qed.

(** X8.  With well-formed open-device lists, RmOpenDev of an open device
    replies 0, after which IsDevOpen replies 0 for it; whether any other
    device is open does not change. *)
Theorem thread_rm_open_dev_closes clk ok md ms (iodev : ptr) (t : audio_thread) :
  open_devs_wf t ->
  thread_is_dev_open iodev t = 1 ->
  let r := handle_playback_thread_message clk ok md ms
             (AUDIO_THREAD_RM_OPEN_DEV iodev) t in
  fst r = 0 /\
  handle_playback_thread_message clk ok md ms (AUDIO_THREAD_IS_DEV_OPEN iodev) (snd r)
    = (0, snd r) /\
  (forall p, p <> iodev -> thread_is_dev_open p (snd r) = thread_is_dev_open p t).
Proof.
  intros Hwf Hopen. cbv zeta. cbn [handle_playback_thread_message].
  set (dir := dev_direction (get_iodev t iodev)).
  assert (exists adev, dev_io_find_open_dev (open_devs t dir) iodev = Some adev)
    as [adev E].
  { unfold thread_is_dev_open in Hopen. fold dir in Hopen.
    destruct (dev_io_find_open_dev (open_devs t dir) iodev); [eauto|discriminate]. }
  destruct (search_open_dev_some _ _ _ E) as [_ Hdev].
  unfold thread_rm_open_dev. fold dir. rewrite E, Hdev. cbn [fst snd].
  set (t' := set_open_devs dir (dev_io_rm_open_dev (open_devs t dir) iodev) t).
  assert (forall p, get_iodev t' p = get_iodev t p) as Hget by reflexivity.
  assert (forall d, NoDup (map od_dev (open_devs t d))) as Hnd
    by (destruct Hwf as (N1 & N2 & _); intros []; assumption).
  split; [reflexivity|]. split.
  - f_equal. apply thread_is_dev_open_spec. rewrite Hget. fold dir.
    unfold t'. rewrite open_devs_set_open_devs.
    assert (direction_eqb dir dir = true) as -> by (destruct dir; reflexivity).
    apply rm_open_dev_nodup. apply Hnd.
  - intros p Hp.
    assert (forall u, thread_is_dev_open p u = 1 \/ thread_is_dev_open p u = 0) as Hb.
    { intros u. unfold thread_is_dev_open.
      destruct (dev_io_find_open_dev _ p); auto. }
    assert (p ∈ map od_dev (open_devs t' (dev_direction (get_iodev t' p))) <->
            p ∈ map od_dev (open_devs t (dev_direction (get_iodev t p)))) as Hiff.
    { rewrite Hget. unfold t'. rewrite open_devs_set_open_devs.
      destruct (direction_eqb dir (dev_direction (get_iodev t p))) eqn:Hd;
        [|reflexivity].
      assert (dir = dev_direction (get_iodev t p)) as <-
          by (destruct dir, (dev_direction (get_iodev t p)); simpl in Hd; congruence).
      apply rm_open_dev_others. exact Hp. }
    destruct (Hb t') as [H1|H0]; destruct (Hb t) as [H1'|H0']; try congruence.
    + apply thread_is_dev_open_spec in H1. apply thread_is_dev_open_spec in H0'. tauto.
    + apply thread_is_dev_open_spec in H0. apply thread_is_dev_open_spec in H1'. tauto.
Qed.

Lemma thread_both_open_wf : open_devs_wf thread_both_open.
Proof.
  split; [apply NoDup_singleton|]. split; [apply NoDup_singleton|].
  intros [] adev Hin; simpl in Hin; apply list_elem_of_singleton in Hin;
    subst adev; reflexivity.
Qed.

Lemma thread_rm_open_dev_closes_witness :
  let r := handle_playback_thread_message example_clock create_always_ok 4 8
             (AUDIO_THREAD_RM_OPEN_DEV 1) thread_both_open in
  fst r = 0 /\
  handle_playback_thread_message example_clock create_always_ok 4 8
    (AUDIO_THREAD_IS_DEV_OPEN 1) (snd r) = (0, snd r) /\
  (forall p, p <> 1%positive ->
             thread_is_dev_open p (snd r) = thread_is_dev_open p thread_both_open).
Proof.
  apply (thread_rm_open_dev_closes example_clock create_always_ok 4 8 1
           thread_both_open).
  - exact thread_both_open_wf.
  - reflexivity.
Defined.

(** X9.  Opening a device that is not open and closing it again gives both
    open-device lists back as they were, both commands replying 0. *)
Theorem add_rm_open_dev_round_trip clk ok md ms (iodev : ptr) (t : audio_thread) :
  thread_is_dev_open iodev t = 0 ->
  let r1 := handle_playback_thread_message clk ok md ms
              (AUDIO_THREAD_ADD_OPEN_DEV iodev) t in
  let r2 := handle_playback_thread_message clk ok md ms
              (AUDIO_THREAD_RM_OPEN_DEV iodev) (snd r1) in
  fst r1 = 0 /\ fst r2 = 0 /\
  open_odevs (snd r2) = open_odevs t /\ open_idevs (snd r2) = open_idevs t.
Proof.
  intros Hclosed. cbv zeta. cbn [handle_playback_thread_message].
  apply thread_is_dev_open_spec in Hclosed.
  pose proof (proj2 (search_open_dev_none _ _) Hclosed) as E.
  destruct (thread_add_open_dev_accepted iodev t E) as (H0 & Hl & Hl' & Hd & _).
  cbv zeta in H0, Hl, Hl', Hd.
  set (t1 := snd (thread_add_open_dev iodev t)) in *.
  set (dir := dev_direction (get_iodev t iodev)) in *.
  split; [exact H0|].
  unfold thread_rm_open_dev. rewrite Hd. fold dir. rewrite Hl.
  destruct (dev_io_find_open_dev (open_devs t dir ++ [opened iodev]) iodev)
    as [adev|] eqn:E'.
  - destruct (search_open_dev_some _ _ _ E') as [_ Hdev]. rewrite Hdev.
    cbn [fst snd]. split; [reflexivity|].
    change iodev with (od_dev (opened iodev)) at 2 4.
    rewrite (rm_open_dev_last (open_devs t dir) (opened iodev) Hclosed).
    assert (forall d, open_devs (set_open_devs dir (open_devs t dir) t1) d
                      = open_devs t d) as Hall.
    { intros d. rewrite open_devs_set_open_devs.
      destruct (direction_eqb dir d) eqn:Hdd.
      - assert (dir = d) as -> by (destruct dir, d; simpl in Hdd; congruence).
        reflexivity.
      - apply Hl'. intros ->. destruct dir; simpl in Hdd; congruence. }
    split; [exact (Hall CRAS_STREAM_OUTPUT)|exact (Hall CRAS_STREAM_INPUT)].
  - exfalso. exact (search_open_dev_app_new (open_devs t dir) (opened iodev) E').
Qed.

Lemma add_rm_open_dev_round_trip_witness :
  let r1 := handle_playback_thread_message example_clock create_always_ok 4 8
              (AUDIO_THREAD_ADD_OPEN_DEV 1) thread_started in
  let r2 := handle_playback_thread_message example_clock create_always_ok 4 8
              (AUDIO_THREAD_RM_OPEN_DEV 1) (snd r1) in
  fst r1 = 0 /\ fst r2 = 0 /\
  open_odevs (snd r2) = open_odevs thread_started /\
  open_idevs (snd r2) = open_idevs thread_started.
Proof.
  apply (add_rm_open_dev_round_trip example_clock create_always_ok 4 8 1 thread_started).
  reflexivity.
Defined.

(** ** More on attaching and detaching streams *)

Section AttachMore.

Variable clk : nat -> timespec.
Variable ok : ptr -> ptr -> bool.

(** What one iteration of the device loop does to the stream lists: it
    touches the device at hand only, and there it appends at most one binding
    of the stream, and only where none was. *)
Lemma append_stream_dev_streams stream iodev t l :
  match append_stream_dev clk ok stream iodev t l with
  | Next t' _ =>
      (forall p, p <> iodev -> get_iodev t' p = get_iodev t p) /\
      (dev_streams (get_iodev t' iodev) = dev_streams (get_iodev t iodev) \/
       (search_dev_stream (dev_streams (get_iodev t iodev)) stream = None /\
        exists out, ds_stream out = stream /\
          dev_streams (get_iodev t' iodev) = dev_streams (get_iodev t iodev) ++ [out]))
  | Break _ t' _ => iodevs t' = iodevs t
  end.
Proof.
  destruct (search_open_dev (open_devs t (rs_direction (get_rstream t stream))) iodev)
    as [adev|] eqn:Hopen.
  2:{ unfold append_stream_dev. rewrite Hopen. split; [reflexivity|left; reflexivity]. }
  destruct (search_dev_stream (dev_streams (get_iodev t iodev)) stream)
    as [found|] eqn:Hs.
  { rewrite append_stream_dev_bound_skip by congruence.
    split; [reflexivity|left; reflexivity]. }
  destruct (append_stream_dev clk ok stream iodev t l) as [t' l'|rc t' l'] eqn:E.
  - split.
    + revert E. unfold append_stream_dev. rewrite Hopen, Hs.
      set (l2 := match rs_direction (get_rstream t stream) with
                 | CRAS_STREAM_OUTPUT => _ | CRAS_STREAM_INPUT => _ end).
      assert (exists t3 l3,
                (if cb_ts_set l2 then (t, l2)
                 else let '(now, t0) := clock_gettime clk t in
                      (t0, {| init_cb_ts := now; cb_ts_set := cb_ts_set l2 |}))
                = (t3, l3) /\ iodevs t3 = iodevs t) as (t3 & l3 & -> & Hio).
      { destruct (cb_ts_set l2); eexists _, _; (split; [reflexivity|]); reflexivity. }
      assert (forall p, get_iodev t3 p = get_iodev t p) as Hget
        by (intros p; unfold get_iodev; rewrite Hio; reflexivity).
      destruct (dev_stream_create ok stream _ iodev _) as [out|]; [|discriminate].
      assert (forall p, p <> iodev ->
                get_iodev (cras_iodev_add_stream iodev out t3) p = get_iodev t p)
        as Hadd.
      { intros p Hp. unfold cras_iodev_add_stream. rewrite get_iodev_update.
        destruct (decide (iodev = p)); [congruence|apply Hget]. }
      destruct (rs_direction (get_rstream t stream)).
      * intros [= <- _]. exact Hadd.
      * destruct (dev_streams (get_iodev t iodev)) as [|first rest].
        -- destruct (_ <? 0); [discriminate|]. intros [= <- _]. exact Hadd.
        -- intros [= <- _] p Hp. unfold align_input_offsets.
           change (get_iodev (cras_rstream_dev_offset_update ?s ?o ?i ?u) p)
             with (get_iodev u p).
           unfold cras_iodev_stream_written. rewrite get_iodev_update.
           destruct (decide (iodev = p)); [congruence|apply Hadd; exact Hp].
    + right. split; [reflexivity|].
      apply (append_stream_dev_attach clk ok stream iodev t l t' l');
        [congruence|exact Hs|exact E].
  - revert E. unfold append_stream_dev. rewrite Hopen, Hs.
    set (l2 := match rs_direction (get_rstream t stream) with
               | CRAS_STREAM_OUTPUT => _ | CRAS_STREAM_INPUT => _ end).
    assert (exists t3 l3,
              (if cb_ts_set l2 then (t, l2)
               else let '(now, t0) := clock_gettime clk t in
                    (t0, {| init_cb_ts := now; cb_ts_set := cb_ts_set l2 |}))
              = (t3, l3) /\ iodevs t3 = iodevs t) as (t3 & l3 & -> & Hio).
    { destruct (cb_ts_set l2); eexists _, _; (split; [reflexivity|]); reflexivity. }
    destruct (dev_stream_create ok stream _ iodev _) as [out|].
    + destruct (rs_direction (get_rstream t stream)); [discriminate|].
      destruct (dev_streams (get_iodev t iodev)); [|discriminate].
      destruct (_ <? 0); [|discriminate]. intros [= _ <- _]. exact Hio.
    + intros [= _ <- _]. exact Hio.
Qed.

Lemma search_open_dev_same_lists stream iodev t t' :
  same_lists t t' ->
  search_open_dev (open_devs t' (rs_direction (get_rstream t' stream))) iodev
  = search_open_dev (open_devs t (rs_direction (get_rstream t stream))) iodev.
Proof.
  intros H. destruct H as (H1 & H2 & H3). rewrite H3.
  destruct (rs_direction (get_rstream t stream)); simpl; congruence.
Qed.

Lemma append_stream_loop_skip_closed stream iodev pre post : forall t l,
  search_open_dev (open_devs t (rs_direction (get_rstream t stream))) iodev = None ->
  append_stream_loop clk ok stream (pre ++ iodev :: post) t l
  = append_stream_loop clk ok stream (pre ++ post) t l.
Proof.
  induction pre as [|d pre IH]; intros t l Hclosed.
  - cbn [app append_stream_loop]. unfold append_stream_dev at 1.
    rewrite Hclosed. reflexivity.
  - cbn [app append_stream_loop].
    pose proof (append_stream_dev_same_lists clk ok stream d t l) as Hsame.
    destruct (append_stream_dev clk ok stream d t l) as [t2 l2|rc t2 l2];
      [|reflexivity].
    apply IH. rewrite (search_open_dev_same_lists stream iodev t t2 Hsame).
    exact Hclosed.
Qed.

End AttachMore.

(** X10.  A requested device that is not open in the stream's direction is
    skipped silently: AddStream with and without it in the device array reply
    the same and leave the same state. *)
Theorem thread_add_stream_skips_closed clk ok md ms (stream iodev : ptr)
    (pre post : list ptr) (t : audio_thread) :
  search_open_dev (open_devs t (rs_direction (get_rstream t stream))) iodev = None ->
  handle_playback_thread_message clk ok md ms
    (AUDIO_THREAD_ADD_STREAM stream (pre ++ iodev :: post)) t
  = handle_playback_thread_message clk ok md ms
      (AUDIO_THREAD_ADD_STREAM stream (pre ++ post)) t.
Proof.
  intros H. cbn [handle_playback_thread_message].
  unfold thread_add_stream, append_stream.
  rewrite (append_stream_loop_skip_closed clk ok stream iodev pre post t _ H).
  reflexivity.
Qed.

Lemma thread_add_stream_skips_closed_witness :
  handle_playback_thread_message example_clock create_always_ok 4 8
    (AUDIO_THREAD_ADD_STREAM 21 ([1%positive] ++ 9%positive :: [3%positive]))
    thread_two_outputs
  = handle_playback_thread_message example_clock create_always_ok 4 8
      (AUDIO_THREAD_ADD_STREAM 21 ([1%positive] ++ [3%positive])) thread_two_outputs.
Proof.
  apply (thread_add_stream_skips_closed example_clock create_always_ok 4 8 21 9
           [1%positive] [3%positive] thread_two_outputs).
  reflexivity.
Defined.

(** A transition that creates no second binding of a stream on a device. *)
Lemma bound_count_same_devs_map stream iodev t t' :
  dev_streams (get_iodev t' iodev) = dev_streams (get_iodev t iodev) ->
  bound_count stream iodev t' = bound_count stream iodev t.
Proof. unfold bound_count. intros ->. reflexivity. Qed.

Lemma filter_filter_length (P Q : dev_stream -> Prop)
    `{forall x, Decision (P x)} `{forall x, Decision (Q x)} (l : list dev_stream) :
  (length (filter P (filter Q l)) <= length (filter P l))%nat.
Proof.
  induction l as [|x l IH]; [reflexivity|].
  rewrite !filter_cons.
  destruct (decide (Q x)); destruct (decide (P x)); rewrite ?filter_cons;
    repeat match goal with |- context [decide ?A] => destruct (decide A) end;
    simpl; try tauto; lia.
Qed.

Lemma bound_count_rm_stream stream iodev dev s t :
  (bound_count stream iodev (cras_iodev_rm_stream dev s t)
   <= bound_count stream iodev t)%nat.
Proof.
  unfold bound_count. rewrite dev_streams_rm_stream.
  destruct (decide (dev = iodev)); [|reflexivity].
  apply filter_filter_length.
Qed.

Lemma bound_count_detach_everywhere stream iodev s devs : forall t,
  (bound_count stream iodev (detach_everywhere devs s t)
   <= bound_count stream iodev t)%nat.
Proof.
  induction devs as [|adev rest IH]; intros t; simpl; [reflexivity|].
  etransitivity; [apply IH|apply bound_count_rm_stream].
Qed.

Lemma bound_count_rollback stream iodev s devs : forall t,
  (bound_count stream iodev (append_stream_rollback s devs t)
   <= bound_count stream iodev t)%nat.
Proof.
  induction devs as [|adev rest IH]; intros t; simpl; [reflexivity|].
  destruct (search_dev_stream _ s) as [found|]; [|apply IH].
  etransitivity; [apply IH|].
  change (bound_count stream iodev
            (dev_stream_destroy found (cras_iodev_rm_stream (od_dev adev) s t)))
    with (bound_count stream iodev (cras_iodev_rm_stream (od_dev adev) s t)).
  apply bound_count_rm_stream.
Qed.

Section BindingsUnique.

Variable clk : nat -> timespec.
Variable ok : ptr -> ptr -> bool.

Lemma append_stream_dev_unique stream iodev t l s p :
  (bound_count s p t <= 1)%nat ->
  match append_stream_dev clk ok stream iodev t l with
  | Next t' _ => (bound_count s p t' <= 1)%nat
  | Break _ t' _ => (bound_count s p t' <= 1)%nat
  end.
Proof.
  intros Hle.
  pose proof (append_stream_dev_streams clk ok stream iodev t l) as H.
  destruct (append_stream_dev clk ok stream iodev t l) as [t' l'|rc t' l'].
  - destruct H as [Hother Hdev].
    destruct (decide (p = iodev)) as [->|Hp].
    + destruct Hdev as [Hsame|(Hnone & out & Hout & Happ)].
      * rewrite (bound_count_same_devs_map _ _ _ _ Hsame). exact Hle.
      * unfold bound_count in *. rewrite Happ, filter_app, length_app.
        destruct (decide (s = stream)) as [->|Hs].
        -- rewrite (filter_none _ stream)
             by (apply search_dev_stream_none; exact Hnone).
           rewrite filter_cons_True by exact Hout. simpl. lia.
        -- rewrite (filter_cons_False _ out) by congruence. simpl. lia.
    + unfold bound_count in *. rewrite (Hother p Hp). exact Hle.
  - unfold bound_count, get_iodev in *. rewrite H. exact Hle.
Qed.

Lemma append_stream_loop_unique stream devs s p : forall t l,
  (bound_count s p t <= 1)%nat ->
  (bound_count s p (snd (fst (append_stream_loop clk ok stream devs t l))) <= 1)%nat.
Proof.
  induction devs as [|iodev rest IH]; intros t l Hle; simpl; [exact Hle|].
  pose proof (append_stream_dev_unique stream iodev t l s p Hle) as H.
  destruct (append_stream_dev clk ok stream iodev t l) as [t2 l2|rc t2 l2].
  - apply IH. exact H.
  - exact H.
Qed.

Lemma thread_add_stream_unique stream devs t s p :
  (bound_count s p t <= 1)%nat ->
  (bound_count s p (snd (thread_add_stream clk ok stream devs t)) <= 1)%nat.
Proof.
  intros Hle. unfold thread_add_stream, append_stream.
  pose proof (append_stream_loop_unique stream devs s p t append_locals_init Hle) as H.
  destruct (append_stream_loop clk ok stream devs t append_locals_init) as [[rc t1] l1].
  cbn [fst snd] in H.
  destruct (rc =? 0).
  - destruct (rc <? 0); exact H.
  - assert (bound_count s p (append_stream_rollback stream
              (open_devs t1 (rs_direction (get_rstream t1 stream))) t1) <= 1)%nat
      as H' by (etransitivity; [apply bound_count_rollback|exact H]).
    destruct (rc <? 0); exact H'.
Qed.

End BindingsUnique.

Lemma dump_dev_streams_iodevs ms streams idx : forall d t,
  iodevs (snd (dump_dev_streams ms streams idx d t)) = iodevs t.
Proof.
  induction streams as [|s rest IH]; intros d t; simpl; [reflexivity|].
  destruct (_ =? ms); [reflexivity|]. rewrite IH. reflexivity.
Qed.

Lemma dump_output_devs_iodevs md ms devs : forall d t,
  iodevs (snd (dump_output_devs md ms devs d t)) = iodevs t.
Proof.
  induction devs as [|adev rest IH]; intros d t; simpl; [reflexivity|].
  destruct (_ =? md); [reflexivity|].
  pose proof (dump_dev_streams_iodevs ms
                (dev_streams (get_iodev t (od_dev adev)))
                (dev_info_idx (get_iodev t (od_dev adev)))
                (incr_num_devs (append_dev_dump_info adev t d)) t) as H.
  destruct (dump_dev_streams ms _ _ _ t) as [d1 t1]. cbn [snd] in H.
  rewrite IH. exact H.
Qed.

Lemma dump_input_devs_iodevs md ms devs : forall d t,
  iodevs (snd (dump_input_devs md ms devs d t)) = iodevs t.
Proof.
  induction devs as [|adev rest IH]; intros d t; simpl; [reflexivity|].
  destruct (_ =? md); [reflexivity|].
  pose proof (dump_dev_streams_iodevs ms
                (dev_streams (get_iodev t (od_dev adev)))
                (dev_info_idx (get_iodev t (od_dev adev)))
                (append_dev_dump_info adev t d) t) as H.
  destruct (dump_dev_streams ms _ _ _ t) as [d1 t1]. cbn [snd] in H.
  rewrite IH. exact H.
Qed.

Lemma thread_dump_iodevs md ms t :
  iodevs (snd (thread_dump_thread_info md ms t)) = iodevs t.
Proof.
  unfold thread_dump_thread_info.
  pose proof (dump_output_devs_iodevs md ms (open_devs t CRAS_STREAM_OUTPUT)
                {| num_devs := 0; num_streams := 0; dumped_devs := [];
                   dumped_streams := [] |} t) as H1.
  destruct (dump_output_devs md ms _ _ t) as [d1 t1]. cbn [snd] in H1.
  pose proof (dump_input_devs_iodevs md ms (open_devs t1 CRAS_STREAM_INPUT) d1 t1)
    as H2.
  destruct (dump_input_devs md ms _ d1 t1) as [d2 t2]. cbn [snd] in H2 |- *.
  simpl. congruence.
Qed.

Lemma handle_message_unique clk ok md ms msg t s p :
  (bound_count s p t <= 1)%nat ->
  (bound_count s p (snd (handle_playback_thread_message clk ok md ms msg t)) <= 1)%nat.
Proof.
  intros Hle. destruct msg; cbn [handle_playback_thread_message snd].
  - unfold thread_add_open_dev.
    destruct (search_open_dev _ dev); [exact Hle|].
    destruct (dev_direction (get_iodev t dev)); cbn [snd]; [|exact Hle].
    unfold bound_count in *.
    change (get_iodev (set_open_devs ?x ?y ?u) p) with (get_iodev u p).
    unfold fill_odevs_zeros_min_level, cras_iodev_fill_odev_zeros.
    rewrite get_iodev_update. destruct (decide (dev = p)) as [->|]; exact Hle.
  - unfold thread_rm_open_dev. destruct (dev_io_find_open_dev _ dev); exact Hle.
  - exact Hle.
  - apply thread_add_stream_unique. exact Hle.
  - unfold thread_disconnect_stream. destruct (negb _); [exact Hle|].
    cbn [dev_io_remove_stream snd].
    etransitivity; [apply bound_count_rm_stream|exact Hle].
  - unfold bound_count, get_iodev in *. rewrite thread_dump_iodevs. exact Hle.
  - unfold thread_drain_stream. destruct (negb _); [exact Hle|].
    unfold thread_drain_stream_ms_remaining.
    destruct (rs_direction (get_rstream t stream)).
    + destruct (_ <=? 0).
      * cbn [Z.eqb snd dev_io_remove_stream].
        etransitivity; [apply bound_count_detach_everywhere|exact Hle].
      * destruct (_ =? 0); cbn [snd dev_io_remove_stream].
        -- etransitivity; [apply bound_count_detach_everywhere|exact Hle].
        -- exact Hle.
    + cbn [Z.eqb snd dev_io_remove_stream].
      etransitivity; [apply bound_count_detach_everywhere|exact Hle].
Qed.

(** X11.  Invariant 1 is kept: if no device holds two bindings of one
    stream, no sequence of commands makes one hold two. *)
Theorem bindings_unique_preserved clk ok md ms (msgs : list audio_thread_msg)
    (t : audio_thread) :
  bindings_unique t -> bindings_unique (run_commands clk ok md ms msgs t).
Proof.
  revert t. induction msgs as [|msg msgs IH]; intros t H; [exact H|].
  unfold run_commands. cbn [fold_left]. apply IH.
  intros s p. apply handle_message_unique. apply H.
Qed.

Lemma thread_two_outputs_unique : bindings_unique thread_two_outputs.
Proof.
  intros s p. unfold bound_count, get_iodev. simpl.
  destruct (decide (p = 1%positive)) as [->|H1].
  - rewrite lookup_insert_eq. simpl. apply length_filter.
  - rewrite lookup_insert_ne by congruence.
    destruct (decide (p = 3%positive)) as [->|H3].
    + rewrite lookup_singleton_eq. simpl. lia.
    + rewrite lookup_singleton_ne by congruence. simpl. lia.
Qed.

Lemma bindings_unique_preserved_witness :
  bindings_unique
    (run_commands example_clock create_always_ok 4 8
       [AUDIO_THREAD_ADD_STREAM 21 [1; 3]%positive;
        AUDIO_THREAD_ADD_STREAM 21 [3; 1]%positive;
        AUDIO_THREAD_DRAIN_STREAM 20]
       thread_two_outputs).
Proof.
  apply (bindings_unique_preserved example_clock create_always_ok 4 8
           [AUDIO_THREAD_ADD_STREAM 21 [1; 3]%positive;
            AUDIO_THREAD_ADD_STREAM 21 [3; 1]%positive;
            AUDIO_THREAD_DRAIN_STREAM 20]
           thread_two_outputs).
  exact thread_two_outputs_unique.
Defined.

Lemma filter_others_all (l : list dev_stream) (stream : ptr) :
  (forall out, out ∈ l -> ds_stream out <> stream) ->
  filter (fun out => ds_stream out <> stream) l = l.
Proof.
  induction l as [|x l IH]; intros H; [reflexivity|].
  rewrite filter_cons_True by (apply H; apply elem_of_cons; auto).
  rewrite IH; [reflexivity|]. intros out Hout. apply H. apply elem_of_cons. auto.
Qed.

(** X12.  After a stream has been attached to an open device it was not
    bound to, [thread_find_stream] finds it, so that DisconnectStream for
    that device does not return early but hands the stream and the device to
    the removal helper and replies what the helper returns; with the stream
    detached from that device, the stream list of every device is as it was
    before the attach. *)
Theorem add_disconnect_stream_round_trip clk ok md ms (stream iodev : ptr)
    (t : audio_thread) :
  search_open_dev (open_devs t (rs_direction (get_rstream t stream))) iodev <> None ->
  search_dev_stream (dev_streams (get_iodev t iodev)) stream = None ->
  let r1 := handle_playback_thread_message clk ok md ms
              (AUDIO_THREAD_ADD_STREAM stream [iodev]) t in
  fst r1 = 0 ->
  let r2 := handle_playback_thread_message clk ok md ms
              (AUDIO_THREAD_DISCONNECT_STREAM stream iodev) (snd r1) in
  thread_find_stream stream (snd r1) = true /\
  r2 = dev_io_remove_stream (rs_direction (get_rstream (snd r1) stream)) stream
         (Some iodev) (snd r1) /\
  (forall p, dev_streams (get_iodev (snd r2) p) = dev_streams (get_iodev t p)).
Proof.
  intros Hopen Hnone. cbv zeta. cbn [handle_playback_thread_message].
  pose proof (thread_add_stream_single clk ok stream iodev t) as Hsingle.
  pose proof (append_stream_dev_streams clk ok stream iodev t append_locals_init)
    as Hstreams.
  pose proof (append_stream_dev_same_lists clk ok stream iodev t append_locals_init)
    as Hsame.
  destruct (append_stream_dev clk ok stream iodev t append_locals_init)
    as [t' l'|rc t' l'] eqn:E.
  2:{ destruct Hsingle as [-> Hneg]. intros H0. lia. }
  rewrite Hsingle. cbn [fst snd]. intros _.
  destruct Hstreams as [Hother _].
  destruct (append_stream_dev_attach clk ok stream iodev t _ t' l' Hopen Hnone E)
    as (out & Hout & Happ).
  assert (thread_find_stream stream t' = true) as Hfind.
  { apply not_false_iff_true. intros Hf. apply thread_find_stream_false in Hf.
    destruct (search_open_dev (open_devs t' (rs_direction (get_rstream t' stream)))
                iodev) as [adev|] eqn:Ho.
    - apply search_open_dev_some in Ho as [Hin Hdev].
      apply (Hf adev out Hin); [|exact Hout].
      rewrite Hdev, Happ. apply elem_of_app. right.
      apply list_elem_of_singleton. reflexivity.
    - rewrite (search_open_dev_same_lists stream iodev t t' Hsame) in Ho.
      congruence. }
  unfold thread_disconnect_stream. rewrite Hfind. cbn [negb].
  split; [reflexivity|]. split; [reflexivity|].
  cbn [dev_io_remove_stream snd].
  intros p. rewrite dev_streams_rm_stream.
  destruct (decide (iodev = p)) as [<-|Hp].
  - rewrite Happ, filter_app.
    rewrite filter_others_all by (apply search_dev_stream_none; exact Hnone).
    rewrite filter_cons_False by (intros H; apply H; exact Hout).
    apply app_nil_r.
  - rewrite Hother by congruence. reflexivity.
Qed.

Lemma add_disconnect_stream_round_trip_witness :
  let r1 := handle_playback_thread_message example_clock create_always_ok 4 8
              (AUDIO_THREAD_ADD_STREAM 10 [2%positive]) thread_second_capture in
  let r2 := handle_playback_thread_message example_clock create_always_ok 4 8
              (AUDIO_THREAD_DISCONNECT_STREAM 10 2) (snd r1) in
  thread_find_stream 10 (snd r1) = true /\
  r2 = dev_io_remove_stream (rs_direction (get_rstream (snd r1) 10)) 10
         (Some 2%positive) (snd r1) /\
  (forall p, dev_streams (get_iodev (snd r2) p)
             = dev_streams (get_iodev thread_second_capture p)).
Proof.
  apply (add_disconnect_stream_round_trip example_clock create_always_ok 4 8 10 2
           thread_second_capture).
  - vm_compute. discriminate.
  - reflexivity.
  - reflexivity.
Defined.

(** ** Bounds of the thread dump *)

Lemma dump_dev_streams_counts ms streams idx (k : Z) : forall d t,
  Z.of_nat (length (dumped_devs d)) = num_devs d + k ->
  Z.of_nat (length (dumped_streams d)) = num_streams d ->
  num_streams d <= ms ->
  let r := fst (dump_dev_streams ms streams idx d t) in
  Z.of_nat (length (dumped_devs r)) = num_devs r + k /\
  Z.of_nat (length (dumped_streams r)) = num_streams r /\
  num_streams r <= ms /\ num_devs r = num_devs d.
Proof.
  induction streams as [|s rest IH]; intros d t H1 H2 H3; cbv zeta; simpl; [tauto|].
  destruct (Z.eqb_spec (num_streams d) ms) as [Heq|Hne]; [simpl; tauto|].
  lazymatch goal with
  | |- context [dump_dev_streams ms rest idx ?dd ?tt] =>
      destruct (IH dd tt) as (A1 & A2 & A3 & A4)
  end; simpl; rewrite ?length_app; simpl; try lia.
  cbv zeta in A1, A2, A3, A4. simpl in A4. tauto.
Qed.

Lemma dump_output_devs_counts md ms devs : forall d t,
  dump_counts_ok ms d -> num_devs d < md ->
  dump_counts_ok ms (fst (dump_output_devs md ms devs d t)) /\
  num_devs (fst (dump_output_devs md ms devs d t)) <= md.
Proof.
  induction devs as [|adev rest IH]; intros d t Hok Hlt; simpl; [split; [exact Hok|lia]|].
  destruct Hok as (H1 & H2 & H3).
  destruct (Z.eqb_spec (num_devs d + 1) md) as [Heq|Hne].
  - cbn [fst]. unfold dump_counts_ok. simpl. rewrite length_app. simpl. lia.
  - destruct (dump_dev_streams_counts ms
                (dev_streams (get_iodev t (od_dev adev)))
                (dev_info_idx (get_iodev t (od_dev adev))) 0
                (incr_num_devs (append_dev_dump_info adev t d)) t)
      as (A1 & A2 & A3 & A4); simpl; rewrite ?length_app; simpl; try lia.
    cbv zeta in A1, A2, A3, A4.
    destruct (dump_dev_streams ms _ _ _ t) as [d1 t1]. cbn [fst] in A1, A2, A3, A4.
    simpl in A4.
    apply IH; [unfold dump_counts_ok; lia|lia].
Qed.

Lemma dump_input_devs_counts md ms devs : forall d t,
  dump_counts_ok ms d -> num_devs d <= md ->
  dump_counts_ok ms (fst (dump_input_devs md ms devs d t)) /\
  num_devs (fst (dump_input_devs md ms devs d t)) <= md.
Proof.
  induction devs as [|adev rest IH]; intros d t Hok Hle; simpl; [tauto|].
  destruct (Z.eqb_spec (num_devs d) md) as [Heq|Hne]; [tauto|].
  destruct Hok as (H1 & H2 & H3).
  destruct (dump_dev_streams_counts ms
              (dev_streams (get_iodev t (od_dev adev)))
              (dev_info_idx (get_iodev t (od_dev adev))) 1
              (append_dev_dump_info adev t d) t)
    as (A1 & A2 & A3 & A4); simpl; rewrite ?length_app; simpl; try lia.
  cbv zeta in A1, A2, A3, A4.
  destruct (dump_dev_streams ms _ _ _ t) as [d1 t1]. cbn [fst] in A1, A2, A3, A4.
  simpl in A4.
  apply IH; [unfold dump_counts_ok; simpl; lia|simpl; lia].
Qed.

(** X13.  With bounds [MAX_DEBUG_DEVS >= 1] and [MAX_DEBUG_STREAMS >= 0], a
    thread dump replies 0 and never fills more than [MAX_DEBUG_DEVS] device
    records or [MAX_DEBUG_STREAMS] stream records, however many devices and
    streams are open; the counts it reports are the numbers of records
    filled. *)
Theorem thread_dump_within_bounds clk ok md ms (t : audio_thread) :
  1 <= md -> 0 <= ms ->
  let r := handle_playback_thread_message clk ok md ms AUDIO_THREAD_DUMP_THREAD_INFO t in
  fst r = 0 /\
  exists info,
    debug_info (snd r) = Some info /\
    info_num_devs info <= md /\ info_num_streams info <= ms /\
    Z.of_nat (length (info_devs info)) = info_num_devs info /\
    Z.of_nat (length (info_streams info)) = info_num_streams info.
Proof.
  intros Hmd Hms. cbv zeta. cbn [handle_playback_thread_message].
  unfold thread_dump_thread_info.
  set (d0 := {| num_devs := 0; num_streams := 0; dumped_devs := [];
                dumped_streams := [] |}).
  assert (dump_counts_ok ms d0) as Hok0 by (unfold dump_counts_ok; simpl; lia).
  destruct (dump_output_devs_counts md ms (open_devs t CRAS_STREAM_OUTPUT) d0 t Hok0)
    as [Hok1 Hle1]; [simpl; lia|].
  destruct (dump_output_devs md ms _ d0 t) as [d1 t1]. cbn [fst] in Hok1, Hle1.
  destruct (dump_input_devs_counts md ms (open_devs t1 CRAS_STREAM_INPUT) d1 t1
              Hok1 Hle1) as [Hok2 Hle2].
  destruct (dump_input_devs md ms _ d1 t1) as [d2 t2]. cbn [fst snd] in *.
  split; [reflexivity|]. eexists. split; [reflexivity|].
  destruct Hok2 as (H1 & H2 & H3). simpl. tauto.
Qed.

Lemma thread_dump_within_bounds_witness :
  let r := handle_playback_thread_message example_clock create_always_ok 1 0
             AUDIO_THREAD_DUMP_THREAD_INFO thread_two_outputs in
  fst r = 0 /\
  exists info,
    debug_info (snd r) = Some info /\
    info_num_devs info <= 1 /\ info_num_streams info <= 0 /\
    Z.of_nat (length (info_devs info)) = info_num_devs info /\
    Z.of_nat (length (info_streams info)) = info_num_streams info.
Proof.
  apply (thread_dump_within_bounds example_clock create_always_ok 1 0
           thread_two_outputs); lia.
Defined.

(** ** What the wake planner waits on *)

Lemma stream_wake_count t streams : forall min_ts,
  fst (get_next_stream_wake_from_list t streams min_ts)
  = Z.of_nat (length (List.filter (stream_wakes t) streams)).
Proof.
  induction streams as [|s rest IH]; intros min_ts; simpl; [reflexivity|].
  unfold stream_wakes at 1.
  destruct (rs_is_draining _ && _); simpl; [apply IH|].
  destruct (ds_can_fetch s); simpl; [|apply IH].
  destruct (ds_next_cb_ts s) as [next|]; [|apply IH].
  specialize (IH (if timespec_after min_ts next then next else min_ts)).
  destruct (get_next_stream_wake_from_list t rest _) as [ret m].
  cbn [fst] in IH |- *. rewrite IH. simpl length. lia.
Qed.

Lemma output_wake_streams_count t odevs : forall min_ts,
  fst (output_wake_streams t odevs min_ts)
  = Z.of_nat (length (List.filter (stream_wakes t)
       (concat (map (fun adev => dev_streams (get_iodev t (od_dev adev))) odevs)))).
Proof.
  induction odevs as [|adev rest IH]; intros min_ts; simpl; [reflexivity|].
  pose proof (stream_wake_count t (dev_streams (get_iodev t (od_dev adev))) min_ts) as H.
  destruct (get_next_stream_wake_from_list t _ min_ts) as [n m]. cbn [fst] in H.
  specialize (IH m). destruct (output_wake_streams t rest m) as [ret m2].
  cbn [fst] in IH |- *. rewrite List.filter_app, length_app, H, IH. lia.
Qed.

Lemma output_wake_devs_count t odevs : forall min_ts,
  fst (output_wake_devs t odevs min_ts)
  = Z.of_nat (length (List.filter
       (fun adev => dev_odev_should_wake (get_iodev t (od_dev adev))) odevs)).
Proof.
  induction odevs as [|adev rest IH]; intros min_ts; simpl; [reflexivity|].
  destruct (dev_odev_should_wake _); simpl; [|apply IH].
  specialize (IH (if timespec_after min_ts (od_wake_ts adev)
                  then od_wake_ts adev else min_ts)).
  destruct (output_wake_devs t rest _) as [ret m]. cbn [fst] in IH |- *.
  rewrite IH. lia.
Qed.

Lemma next_input_wake_count t idevs : forall min_ts,
  fst (dev_io_next_input_wake t idevs min_ts)
  = Z.of_nat (length (List.filter
       (fun adev => dev_is_open (get_iodev t (od_dev adev))) idevs)).
Proof.
  induction idevs as [|adev rest IH]; intros min_ts; simpl; [reflexivity|].
  destruct (dev_is_open _); simpl; [|apply IH].
  specialize (IH (if timespec_after min_ts (od_wake_ts adev)
                  then od_wake_ts adev else min_ts)).
  destruct (dev_io_next_input_wake t rest _) as [ret m]. cbn [fst] in IH |- *.
  rewrite IH. lia.
Qed.

Lemma sleep_interval_count clk (t : audio_thread) :
  fst (fst (fill_next_sleep_interval clk t)) = Z.of_nat (wake_count t).
Proof.
  unfold fill_next_sleep_interval, next_wake_deadline, get_next_output_wake.
  cbn [clock_gettime].
  set (t' := set_clock_reads (S (clock_reads t)) t).
  set (m0 := add_timespecs (Timespec 20 0) (clk (clock_reads t))).
  pose proof (output_wake_streams_count t' (open_devs t' CRAS_STREAM_OUTPUT) m0) as H1.
  destruct (output_wake_streams t' _ m0) as [r1 m1]. cbn [fst] in H1.
  pose proof (output_wake_devs_count t' (open_devs t' CRAS_STREAM_OUTPUT) m1) as H2.
  destruct (output_wake_devs t' _ m1) as [r2 m2]. cbn [fst] in H2.
  pose proof (next_input_wake_count t' (open_devs t' CRAS_STREAM_INPUT) m2) as H3.
  destruct (dev_io_next_input_wake t' _ m2) as [r3 m3]. cbn [fst] in H3 |- *.
  rewrite H1, H2, H3. unfold wake_count.
  change (open_devs t' CRAS_STREAM_OUTPUT) with (open_odevs t).
  change (open_devs t' CRAS_STREAM_INPUT) with (open_idevs t).
  rewrite !Nat2Z.inj_add. reflexivity.
Qed.

(** X14.  The count [fill_next_sleep_interval] returns is the number of
    wakers: the bindings it waits on, the output devices that ask to be woken
    and the open input devices.  It is zero, and the loop then waits without
    a timeout, exactly when there is none. *)
Theorem fill_next_sleep_interval_count clk (t : audio_thread) :
  fst (fst (fill_next_sleep_interval clk t)) = Z.of_nat (wake_count t) /\
  (fst (fst (fill_next_sleep_interval clk t)) = 0 <-> wake_count t = 0%nat).
Proof.
  pose proof (sleep_interval_count clk t) as H.
  split; [exact H|]. rewrite H. lia.
Qed.

(** The interval planned is [max (min_ts - now, 0)], in normal form. *)
Lemma sleep_interval_max clk (t : audio_thread) :
  timespec_valid (clk (clock_reads t)) ->
  deadlines_valid t ->
  let now := clk (clock_reads t) in
  let ts := snd (fst (fill_next_sleep_interval clk t)) in
  let min_ts := snd (next_wake_deadline (snd (clock_gettime clk t)) now) in
  timespec_valid ts /\ 0 <= tv_sec ts /\
  timespec_ns ts = Z.max (timespec_ns min_ts - timespec_ns now) 0.
Proof.
  intros Hnow Hvalid. cbv zeta. unfold fill_next_sleep_interval.
  cbn [clock_gettime].
  set (now := clk (clock_reads t)) in *.
  set (t' := set_clock_reads (S (clock_reads t)) t).
  change (snd (clock_gettime clk t)) with t'.
  assert (deadlines_valid t') as Hvalid' by exact Hvalid.
  destruct (next_wake_deadline_lowered t' now Hnow Hvalid') as [Hv _].
  destruct (next_wake_deadline t' now) as [ret min_ts]. cbn [fst snd] in *.
  destruct (timespec_after min_ts now) eqn:E.
  - apply timespec_after_ns in E; [|assumption..].
    destruct (subtract_timespecs_after min_ts now Hv Hnow E) as (H1 & H2 & H3).
    rewrite H3. split; [exact H1|]. split; [exact H2|lia].
  - assert (~ timespec_ns now < timespec_ns min_ts) as Hn.
    { intros Hlt. apply timespec_after_ns in Hlt; [|assumption..]. congruence. }
    unfold timespec_valid, timespec_ns, NSEC_PER_SEC in *. simpl. lia.
Qed.

Lemma min_covers (min_ts ts : timespec) :
  timespec_valid min_ts -> timespec_valid ts ->
  timespec_ns (if timespec_after min_ts ts then ts else min_ts) <= timespec_ns ts.
Proof.
  intros Hm Ht. destruct (timespec_after min_ts ts) eqn:E; [lia|].
  destruct (Z.lt_ge_cases (timespec_ns ts) (timespec_ns min_ts)) as [Hlt|Hge]; [|lia].
  apply timespec_after_ns in Hlt; [congruence|assumption..].
Qed.

Lemma stream_wake_covers t streams out d : forall min_ts,
  timespec_valid min_ts ->
  (forall o ts, o ∈ streams -> ds_next_cb_ts o = Some ts -> timespec_valid ts) ->
  out ∈ streams -> stream_wakes t out = true -> ds_next_cb_ts out = Some d ->
  timespec_ns (snd (get_next_stream_wake_from_list t streams min_ts)) <= timespec_ns d.
Proof.
  induction streams as [|s rest IH]; intros min_ts Hm Hvalid Hin Hw Hd.
  - apply elem_of_nil in Hin. contradiction.
  - assert (forall o ts, o ∈ rest -> ds_next_cb_ts o = Some ts -> timespec_valid ts)
      as Hrest by (intros o ts Ho; apply Hvalid; apply elem_of_cons; auto).
    apply elem_of_cons in Hin as [<-|Hin].
    + simpl. unfold stream_wakes in Hw.
      apply andb_true_iff in Hw as [Hw _]. apply andb_true_iff in Hw as [Hw1 Hw2].
      apply negb_true_iff in Hw1. rewrite Hw1, Hw2, Hd. simpl.
      assert (timespec_valid d) as Hdv
        by (apply (Hvalid out d); [apply elem_of_cons; auto|exact Hd]).
      pose proof (min_covers min_ts d Hm Hdv) as Hc.
      pose proof (lowered_min min_ts d Hm Hdv) as Hl.
      pose proof (stream_wake_lowered t rest _ (proj1 Hl) Hrest) as Hl2.
      destruct (get_next_stream_wake_from_list t rest _) as [ret m].
      cbn [snd] in Hl2 |- *. destruct Hl2 as [_ Hl2]. lia.
    + simpl.
      destruct (_ && _); [apply IH; assumption|].
      destruct (negb _); [apply IH; assumption|].
      destruct (ds_next_cb_ts s) as [next|] eqn:E; [|apply IH; assumption].
      assert (timespec_valid next) as Hn
        by (apply (Hvalid s next); [apply elem_of_cons; auto|exact E]).
      pose proof (lowered_min min_ts next Hm Hn) as Hl.
      specialize (IH _ (proj1 Hl) Hrest Hin Hw Hd).
      destruct (get_next_stream_wake_from_list t rest _) as [ret m]. exact IH.
Qed.

Lemma output_wake_streams_covers t odevs adev out d : forall min_ts,
  timespec_valid min_ts ->
  (forall a o ts,
     a ∈ odevs -> o ∈ dev_streams (get_iodev t (od_dev a)) ->
     ds_next_cb_ts o = Some ts -> timespec_valid ts) ->
  adev ∈ odevs -> out ∈ dev_streams (get_iodev t (od_dev adev)) ->
  stream_wakes t out = true -> ds_next_cb_ts out = Some d ->
  timespec_ns (snd (output_wake_streams t odevs min_ts)) <= timespec_ns d.
Proof.
  induction odevs as [|a rest IH]; intros min_ts Hm Hvalid Hin Hout Hw Hd.
  - apply elem_of_nil in Hin. contradiction.
  - assert (forall o ts, o ∈ dev_streams (get_iodev t (od_dev a)) ->
              ds_next_cb_ts o = Some ts -> timespec_valid ts) as Hhead
      by (intros o ts; apply Hvalid; apply elem_of_cons; auto).
    assert (forall a' o ts,
              a' ∈ rest -> o ∈ dev_streams (get_iodev t (od_dev a')) ->
              ds_next_cb_ts o = Some ts -> timespec_valid ts) as Hrest
      by (intros a' o ts Ha'; apply Hvalid; apply elem_of_cons; auto).
    simpl.
    pose proof (stream_wake_lowered t (dev_streams (get_iodev t (od_dev a)))
                  min_ts Hm Hhead) as Hl.
    apply elem_of_cons in Hin as [<-|Hin].
    + pose proof (stream_wake_covers t _ out d min_ts Hm Hhead Hout Hw Hd) as Hc.
      destruct (get_next_stream_wake_from_list t _ min_ts) as [n m].
      cbn [snd] in Hl, Hc.
      pose proof (output_wake_streams_lowered t rest m (proj1 Hl) Hrest) as Hl2.
      destruct (output_wake_streams t rest m) as [ret m2].
      cbn [snd] in Hl2 |- *. destruct Hl2 as [_ Hl2]. lia.
    + destruct (get_next_stream_wake_from_list t _ min_ts) as [n m]. cbn [snd] in Hl.
      specialize (IH m (proj1 Hl) Hrest Hin Hout Hw Hd).
      destruct (output_wake_streams t rest m) as [ret m2]. exact IH.
Qed.

Lemma filter_length_pos {A} (f : A -> bool) (l : list A) (x : A) :
  x ∈ l -> f x = true -> (1 <= length (List.filter f l))%nat.
Proof.
  intros Hin Hf. apply list_elem_of_In in Hin.
  assert (In x (List.filter f l)) as H by (apply filter_In; tauto).
  destruct (List.filter f l); [contradiction|simpl; lia].
Qed.

(** X15.  The thread never plans to sleep past a deadline it waits on.  With
    the clock reading and the deadlines in normal form, for a binding on an
    open output device that is waited on and due at [d], the planned interval
    is at most [max (d - now, 0)], it is exactly zero when [d] is not after
    [now], and the count returned is at least one, so the wait has a
    timeout. *)
Theorem fill_next_sleep_interval_meets_deadline clk (t : audio_thread)
    (adev : open_dev) (out : dev_stream) (d : timespec) :
  timespec_valid (clk (clock_reads t)) ->
  deadlines_valid t ->
  adev ∈ open_odevs t ->
  out ∈ dev_streams (get_iodev t (od_dev adev)) ->
  stream_wakes t out = true ->
  ds_next_cb_ts out = Some d ->
  let now := clk (clock_reads t) in
  let ret := fst (fst (fill_next_sleep_interval clk t)) in
  let ts := snd (fst (fill_next_sleep_interval clk t)) in
  1 <= ret /\
  timespec_ns ts <= Z.max (timespec_ns d - timespec_ns now) 0 /\
  (timespec_ns d <= timespec_ns now -> ts = Timespec 0 0).
Proof.
  intros Hnow Hvalid Hadev Hout Hw Hd. cbv zeta.
  pose proof (sleep_interval_count clk t) as Hcount.
  destruct (sleep_interval_max clk t Hnow Hvalid) as (Hv & Hsec & Hmax).
  cbv zeta in Hv, Hsec, Hmax.
  assert (timespec_ns (snd (next_wake_deadline (snd (clock_gettime clk t))
                              (clk (clock_reads t)))) <= timespec_ns d) as Hcover.
  { unfold next_wake_deadline, get_next_output_wake. cbn [clock_gettime snd].
    set (t' := set_clock_reads (S (clock_reads t)) t).
    destruct Hvalid as [Hwake Hcb].
    destruct (add_timespecs_20s _ Hnow) as [Hv0 _].
    pose proof (output_wake_streams_covers t' (open_devs t' CRAS_STREAM_OUTPUT)
                  adev out d _ Hv0 Hcb Hadev Hout Hw Hd) as Hc.
    pose proof (output_wake_streams_lowered t' (open_devs t' CRAS_STREAM_OUTPUT)
                  _ Hv0 Hcb) as H1.
    destruct (output_wake_streams t' _ _) as [r1 m1]. cbn [snd] in H1, Hc.
    assert (lowered m1 (snd (output_wake_devs t' (open_devs t' CRAS_STREAM_OUTPUT) m1)))
      as H2.
    { apply output_wake_devs_lowered; [exact (proj1 H1)|].
      intros a Ha. apply Hwake. apply elem_of_app. left. exact Ha. }
    destruct (output_wake_devs t' _ m1) as [r2 m2]. cbn [snd] in H2.
    assert (lowered m2 (snd (dev_io_next_input_wake t'
                               (open_devs t' CRAS_STREAM_INPUT) m2))) as H3.
    { apply next_input_wake_lowered; [exact (proj1 H2)|].
      intros a Ha. apply Hwake. apply elem_of_app. right. exact Ha. }
    destruct (dev_io_next_input_wake t' _ m2) as [r3 m3]. cbn [snd] in H3 |- *.
    destruct H2 as [_ H2]. destruct H3 as [_ H3]. lia. }
  split; [|split].
  - rewrite Hcount. unfold wake_count.
    assert (1 <= length (List.filter (stream_wakes t)
              (concat (map (fun a => dev_streams (get_iodev t (od_dev a)))
                           (open_odevs t)))))%nat as Hpos.
    { apply (filter_length_pos _ _ out); [|exact Hw].
      apply list_elem_of_In, in_concat.
      exists (dev_streams (get_iodev t (od_dev adev))). split.
      - apply in_map_iff. exists adev. split; [reflexivity|].
        apply list_elem_of_In. exact Hadev.
      - apply list_elem_of_In. exact Hout. }
    lia.
  - rewrite Hmax. lia.
  - intros Hdue.
    assert (timespec_ns (snd (fst (fill_next_sleep_interval clk t))) = 0) as H0
      by (rewrite Hmax; lia).
    destruct (snd (fst (fill_next_sleep_interval clk t))) as [s n].
    unfold timespec_valid, timespec_ns, NSEC_PER_SEC in *. simpl in *.
    f_equal; nia.
Qed.

Lemma fill_next_sleep_interval_meets_deadline_witness :
  let ret := fst (fst (fill_next_sleep_interval example_clock thread_playing_overdue)) in
  let ts := snd (fst (fill_next_sleep_interval example_clock thread_playing_overdue)) in
  1 <= ret /\ ts = Timespec 0 0.
Proof.
  assert (deadlines_valid thread_playing_overdue) as Hvalid.
  { split.
    - intros adev Ha. simpl in Ha. apply list_elem_of_singleton in Ha. subst adev.
      unfold timespec_valid, NSEC_PER_SEC. simpl. lia.
    - intros adev out ts Ha Ho Hts. simpl in Ha.
      apply list_elem_of_singleton in Ha. subst adev.
      change (out ∈ [mk_binding 20 3 (Some (Timespec 99 990000000)) 0]) in Ho.
      apply list_elem_of_singleton in Ho. subst out.
      injection Hts as <-. unfold timespec_valid, NSEC_PER_SEC. simpl. lia. }
  assert (timespec_valid (example_clock (clock_reads thread_playing_overdue))) as Hnow.
  { unfold timespec_valid, NSEC_PER_SEC. simpl. lia. }
  destruct (fill_next_sleep_interval_meets_deadline example_clock
              thread_playing_overdue (opened 1)
              (mk_binding 20 3 (Some (Timespec 99 990000000)) 0)
              (Timespec 99 990000000) Hnow Hvalid) as (H1 & _ & H3).
  - simpl. apply list_elem_of_singleton. reflexivity.
  - change (mk_binding 20 3 (Some (Timespec 99 990000000)) 0
            ∈ [mk_binding 20 3 (Some (Timespec 99 990000000)) 0]).
    apply list_elem_of_singleton. reflexivity.
  - reflexivity.
  - reflexivity.
  - cbv zeta. split; [exact H1|]. apply H3. unfold timespec_ns, NSEC_PER_SEC. simpl. lia.
Defined.

(** ** Reading commands from the pipe *)

Lemma int_of_small (z : Z) : - 2 ^ 31 <= z < 2 ^ 31 -> int_of z = z.
Proof.
  intros H. unfold int_of. rewrite Z.mod_small by lia. lia.
Qed.

Lemma pipe_bytes_unread bytes pipe :
  pipe_bytes (unread bytes pipe) = bytes ++ pipe_bytes pipe.
Proof. destruct bytes; reflexivity. Qed.

Lemma read_loop_reassembles pipe count : forall count_left buf,
  0 < count_left ->
  count_left <= Z.of_nat (length (pipe_bytes pipe)) ->
  exists pipe',
    read_loop pipe count count_left buf
    = Some (int_of count, buf ++ take (Z.to_nat count_left) (pipe_bytes pipe), pipe') /\
    pipe_bytes pipe' = drop (Z.to_nat count_left) (pipe_bytes pipe).
Proof.
  induction pipe as [|ev rest IH]; intros count_left buf Hpos Hle.
  - simpl in Hle. lia.
  - destruct ev as [b bs|errno|].
    + cbn [read_loop].
      change (pipe_bytes (ReadBytes b bs :: rest))
        with ((b :: bs) ++ pipe_bytes rest) in *.
      set (avail := b :: bs) in *.
      rewrite length_app in Hle.
      destruct (Z.ltb_spec 0 (count_left - Z.min count_left (Z.of_nat (length avail))))
        as [Hmore|Hdone].
      * assert (Z.min count_left (Z.of_nat (length avail)) = Z.of_nat (length avail))
          as Hmin by lia.
        rewrite Hmin, Nat2Z.id, firstn_all.
        destruct (IH (count_left - Z.of_nat (length avail)) (buf ++ avail))
          as (pipe' & Hr & Hb); [lia|lia|].
        exists pipe'. rewrite Hr. split.
        -- f_equal. f_equal. f_equal. rewrite <- app_assoc. f_equal.
           rewrite take_app.
           replace (Z.to_nat count_left - length avail)%nat
             with (Z.to_nat (count_left - Z.of_nat (length avail))) by lia.
           rewrite (take_ge avail) by lia. reflexivity.
        -- rewrite Hb, drop_app.
           replace (Z.to_nat count_left - length avail)%nat
             with (Z.to_nat (count_left - Z.of_nat (length avail))) by lia.
           rewrite (drop_ge avail) by lia. reflexivity.
      * assert (Z.min count_left (Z.of_nat (length avail)) = count_left) as Hmin by lia.
        rewrite Hmin. eexists. split; [|rewrite pipe_bytes_unread].
        -- f_equal. f_equal. f_equal. f_equal.
           rewrite take_app. replace (Z.to_nat count_left - length avail)%nat
             with 0%nat by lia.
           rewrite take_0, app_nil_r. reflexivity.
        -- rewrite drop_app. replace (Z.to_nat count_left - length avail)%nat
             with 0%nat by lia.
           rewrite drop_0. reflexivity.
    + cbn [read_loop pipe_bytes] in *.
      destruct (errno =? EINTR); [apply IH; assumption|simpl in Hle; lia].
    + simpl in Hle. lia.
Qed.

(** The bytes asked for are all there: the call returns [count] with them. *)
Lemma read_until_finished_enough pipe count :
  0 <= count < 2 ^ 31 ->
  count <= Z.of_nat (length (pipe_bytes pipe)) ->
  exists pipe',
    read_until_finished pipe count
    = Some (count, take (Z.to_nat count) (pipe_bytes pipe), pipe') /\
    pipe_bytes pipe' = drop (Z.to_nat count) (pipe_bytes pipe).
Proof.
  intros Hc Hle. unfold read_until_finished.
  rewrite int_of_small by lia.
  destruct (Z.ltb_spec 0 count) as [Hpos|H0].
  - destruct (read_loop_reassembles pipe count count [] Hpos Hle) as (pipe' & Hr & Hb).
    rewrite int_of_small in Hr by lia. exists pipe'. split; [exact Hr|exact Hb].
  - assert (count = 0) as -> by lia. exists pipe. split; reflexivity.
Qed.

(** X16.  [read_until_finished] reassembles short reads: when the pipe
    delivers at least [count] bytes before any end of file or error, it
    returns [count] with exactly the first [count] bytes, however the data is
    cut into reads and however many reads are interrupted ([EINTR]); the bytes
    after them stay in the pipe. *)
Theorem read_until_finished_reassembles (pipe : list read_event) (count : Z) :
  0 <= count < 2 ^ 31 ->
  count <= Z.of_nat (length (pipe_bytes pipe)) ->
  exists pipe',
    read_until_finished pipe count
    = Some (count, take (Z.to_nat count) (pipe_bytes pipe), pipe') /\
    pipe_bytes pipe' = drop (Z.to_nat count) (pipe_bytes pipe).
Proof. apply read_until_finished_enough. Qed.

Lemma read_until_finished_reassembles_witness :
  exists pipe',
    read_until_finished
      [ReadBytes 1 [2]; ReadErrno EINTR; ReadBytes 3 []; ReadBytes 4 [5; 6]] 5
    = Some (5, [1; 2; 3; 4; 5], pipe') /\
    pipe_bytes pipe' = [6].
Proof.
  apply (read_until_finished_reassembles
           [ReadBytes 1 [2]; ReadErrno EINTR; ReadBytes 3 []; ReadBytes 4 [5; 6]] 5).
  - lia.
  - simpl. lia.
Defined.

Lemma read_loop_short pipe count : forall count_left buf,
  Z.of_nat (length (pipe_bytes pipe)) < count_left ->
  match read_loop pipe count count_left buf with
  | Some (rc, buf', _) => pipe_end pipe = Some rc /\ buf' = buf ++ pipe_bytes pipe
  | None => pipe_end pipe = None
  end.
Proof.
  induction pipe as [|ev rest IH]; intros count_left buf Hlt.
  - reflexivity.
  - destruct ev as [b bs|errno|].
    + cbn [read_loop pipe_end].
      change (pipe_bytes (ReadBytes b bs :: rest))
        with ((b :: bs) ++ pipe_bytes rest) in *.
      set (avail := b :: bs) in *. rewrite length_app in Hlt.
      assert (Z.min count_left (Z.of_nat (length avail)) = Z.of_nat (length avail))
        as Hmin by lia.
      rewrite Hmin, Nat2Z.id, firstn_all.
      destruct (Z.ltb_spec 0 (count_left - Z.of_nat (length avail))); [|lia].
      specialize (IH (count_left - Z.of_nat (length avail)) (buf ++ avail)).
      destruct (read_loop rest count _ (buf ++ avail)) as [[[rc buf'] p']|].
      * destruct IH as [He Hb]; [lia|]. split; [exact He|].
        rewrite Hb, <- app_assoc. reflexivity.
      * apply IH. lia.
    + cbn [read_loop pipe_bytes pipe_end] in *.
      destruct (errno =? EINTR); [apply IH; exact Hlt|].
      split; [reflexivity|]. symmetry. apply app_nil_r.
    + cbn [read_loop pipe_bytes pipe_end]. split; [reflexivity|].
      symmetry. apply app_nil_r.
Qed.

(** X17.  When the data runs out before [count] bytes, [read_until_finished]
    returns [-EPIPE] at an end of file and -1 at a failed read, whatever the
    errno (other than [EINTR], which is retried); the bytes before that are in
    the buffer; and it does not return while the pipe just stays silent. *)
Theorem read_until_finished_short (pipe : list read_event) (count : Z) :
  0 < count < 2 ^ 31 ->
  Z.of_nat (length (pipe_bytes pipe)) < count ->
  match read_until_finished pipe count with
  | Some (rc, buf, _) =>
      pipe_end pipe = Some rc /\ (rc = - EPIPE \/ rc = -1) /\ buf = pipe_bytes pipe
  | None => pipe_end pipe = None
  end.
Proof.
  intros Hc Hlt. unfold read_until_finished. rewrite int_of_small by lia.
  destruct (Z.ltb_spec 0 count); [|lia].
  pose proof (read_loop_short pipe count count [] Hlt) as Hs.
  destruct (read_loop pipe count count []) as [[[rc buf] p']|]; [|exact Hs].
  destruct Hs as [He Hb]. split; [exact He|]. split; [|exact Hb].
  clear - He. induction pipe as [|ev rest IH]; [discriminate|].
  destruct ev as [b bs|errno|]; simpl in He.
  - apply IH. exact He.
  - destruct (errno =? EINTR); [apply IH; exact He|]. injection He as <-. auto.
  - injection He as <-. auto.
Qed.

Lemma read_until_finished_short_witness :
  match read_until_finished [ReadBytes 1 [2]; ReadErrno 5; ReadBytes 3 [4]] 4 with
  | Some (rc, buf, _) =>
      pipe_end [ReadBytes 1 [2]; ReadErrno 5; ReadBytes 3 [4]] = Some rc /\
      (rc = - EPIPE \/ rc = -1) /\
      buf = pipe_bytes [ReadBytes 1 [2]; ReadErrno 5; ReadBytes 3 [4]]
  | None => pipe_end [ReadBytes 1 [2]; ReadErrno 5; ReadBytes 3 [4]] = None
  end.
Proof.
  apply (read_until_finished_short [ReadBytes 1 [2]; ReadErrno 5; ReadBytes 3 [4]] 4).
  - lia.
  - simpl. lia.
Defined.

Lemma int_of_mod_size_t (sizeof_length z : Z) :
  4 <= sizeof_length ->
  int_of (z mod size_t_modulus sizeof_length) = int_of z.
Proof.
  intros Hs. unfold int_of, size_t_modulus. f_equal.
  assert (2 ^ (8 * sizeof_length) = 2 ^ 32 * 2 ^ (8 * sizeof_length - 32)) as HM.
  { rewrite <- Z.pow_add_r by lia. f_equal. lia. }
  assert (0 < 2 ^ (8 * sizeof_length - 32)) as Hpos by (apply Z.pow_pos_nonneg; lia).
  rewrite (Z.add_mod (z mod _)), (Z.add_mod z) by lia.
  f_equal. f_equal.
  apply Z.mod_mod_divide.
  exists (2 ^ (8 * sizeof_length - 32)). lia.
Qed.

Lemma size_t_modulus_large (sizeof_length : Z) :
  4 <= sizeof_length -> 2 ^ 32 <= size_t_modulus sizeof_length.
Proof.
  intros Hs. unfold size_t_modulus. apply Z.pow_le_mono_r; lia.
Qed.

Section ReadCommand.

Variable sizeof_length : Z.
Variable decode_length : list Z -> Z.
Hypothesis sizeof_length_int : 4 <= sizeof_length < 2 ^ 31.

(** The length field is there: the command reader gets past its first read. *)
Lemma read_command_header pipe :
  sizeof_length <= Z.of_nat (length (pipe_bytes pipe)) ->
  exists pipe1,
    read_until_finished pipe sizeof_length
    = Some (sizeof_length, take (Z.to_nat sizeof_length) (pipe_bytes pipe), pipe1) /\
    pipe_bytes pipe1 = drop (Z.to_nat sizeof_length) (pipe_bytes pipe).
Proof. intros H. apply read_until_finished_enough; lia. Qed.

Lemma read_command_message pipe max_len msg more :
  max_len < 2 ^ 31 ->
  pipe_bytes pipe = msg ++ more ->
  decode_length (take (Z.to_nat sizeof_length) msg) = Z.of_nat (length msg) ->
  sizeof_length <= Z.of_nat (length msg) <= max_len ->
  exists pipe',
    audio_thread_read_command sizeof_length decode_length pipe max_len
    = Some (0, msg, pipe') /\
    pipe_bytes pipe' = more.
Proof.
  intros Hmax Hbytes Hdec Hlen.
  destruct (read_command_header pipe) as (pipe1 & Hr1 & Hb1).
  { rewrite Hbytes, length_app. lia. }
  rewrite Hbytes in Hr1, Hb1. rewrite take_app_le in Hr1 by lia.
  unfold audio_thread_read_command. rewrite Hr1.
  destruct (Z.ltb_spec sizeof_length 0); [lia|].
  rewrite Hdec.
  destruct (Z.ltb_spec max_len (Z.of_nat (length msg))); [lia|].
  pose proof (size_t_modulus_large sizeof_length ltac:(lia)) as HM.
  rewrite (Z.mod_small (Z.of_nat (length msg) - sizeof_length)) by lia.
  rewrite int_of_small by lia.
  rewrite (Z.mod_small (Z.of_nat (length msg) - sizeof_length)) by lia.
  destruct (read_until_finished_enough pipe1
              (Z.of_nat (length msg) - sizeof_length)) as (pipe2 & Hr2 & Hb2);
    [lia|rewrite Hb1, length_drop, length_app; lia|].
  rewrite Hr2.
  destruct (Z.ltb_spec (Z.of_nat (length msg) - sizeof_length) 0); [lia|].
  exists pipe2. rewrite Hb2, Hb1.
  rewrite drop_app_le by lia.
  split.
  - f_equal. f_equal. f_equal.
    rewrite take_app_le by (rewrite length_drop; lia).
    rewrite (take_ge (drop _ msg)) by (rewrite length_drop; lia).
    apply take_drop.
  - rewrite drop_app_length'; [reflexivity|]. rewrite length_drop. lia.
Qed.

Lemma read_command_overflow pipe max_len :
  sizeof_length <= Z.of_nat (length (pipe_bytes pipe)) ->
  max_len < decode_length (take (Z.to_nat sizeof_length) (pipe_bytes pipe)) ->
  exists pipe',
    audio_thread_read_command sizeof_length decode_length pipe max_len
    = Some (- ENOMEM, take (Z.to_nat sizeof_length) (pipe_bytes pipe), pipe') /\
    pipe_bytes pipe' = drop (Z.to_nat sizeof_length) (pipe_bytes pipe).
Proof.
  intros Hlen Hbig.
  destruct (read_command_header pipe Hlen) as (pipe1 & Hr1 & Hb1).
  unfold audio_thread_read_command. rewrite Hr1.
  destruct (Z.ltb_spec sizeof_length 0); [lia|].
  destruct (Z.ltb_spec max_len
              (decode_length (take (Z.to_nat sizeof_length) (pipe_bytes pipe))));
    [|lia].
  exists pipe1. split; [reflexivity|exact Hb1].
Qed.

Lemma read_command_short_length pipe max_len :
  sizeof_length <= Z.of_nat (length (pipe_bytes pipe)) ->
  let length := decode_length (take (Z.to_nat sizeof_length) (pipe_bytes pipe)) in
  0 <= length < sizeof_length ->
  length <= max_len ->
  exists pipe',
    audio_thread_read_command sizeof_length decode_length pipe max_len
    = Some (length - sizeof_length,
            take (Z.to_nat sizeof_length) (pipe_bytes pipe), pipe') /\
    pipe_bytes pipe' = drop (Z.to_nat sizeof_length) (pipe_bytes pipe).
Proof.
  intros Hlen. cbv zeta. intros Hshort Hmax.
  destruct (read_command_header pipe Hlen) as (pipe1 & Hr1 & Hb1).
  unfold audio_thread_read_command. rewrite Hr1.
  destruct (Z.ltb_spec sizeof_length 0); [lia|].
  set (len := decode_length (take (Z.to_nat sizeof_length) (pipe_bytes pipe))) in *.
  destruct (Z.ltb_spec max_len len); [lia|].
  rewrite int_of_mod_size_t by lia.
  assert (- 2 ^ 31 <= len - sizeof_length < 0) as Hneg by lia.
  rewrite (int_of_small (len - sizeof_length)) by lia.
  unfold read_until_finished.
  rewrite int_of_mod_size_t by lia.
  rewrite int_of_small by lia.
  destruct (Z.ltb_spec 0 (len - sizeof_length)); [lia|].
  destruct (Z.ltb_spec (len - sizeof_length) 0); [|lia].
  exists pipe1. split; [|exact Hb1]. rewrite app_nil_r. reflexivity.
Qed.

End ReadCommand.

(** X18.  Round trip of the framing: when the pipe holds a message whose
    length field is its own length, between [sizeof(length)] and the buffer
    size, then whatever follows it and however the bytes are cut into reads,
    [audio_thread_read_command] returns 0 with exactly the bytes of the
    message and leaves exactly what follows in the pipe. *)
Theorem audio_thread_read_command_round_trip (sizeof_length : Z)
    (decode_length : list Z -> Z) (pipe : list read_event) (max_len : Z)
    (msg more : list Z) :
  4 <= sizeof_length < 2 ^ 31 ->
  max_len < 2 ^ 31 ->
  pipe_bytes pipe = msg ++ more ->
  decode_length (take (Z.to_nat sizeof_length) msg) = Z.of_nat (length msg) ->
  sizeof_length <= Z.of_nat (length msg) <= max_len ->
  exists pipe',
    audio_thread_read_command sizeof_length decode_length pipe max_len
    = Some (0, msg, pipe') /\
    pipe_bytes pipe' = more.
Proof. intros Hs. apply read_command_message. exact Hs. Qed.

Lemma audio_thread_read_command_round_trip_witness :
  exists pipe',
    audio_thread_read_command 8 le_length
      [ReadBytes 10 [0; 0]; ReadErrno EINTR; ReadBytes 0 [0; 0; 0; 0; 5; 9; 16];
       ReadBytes 0 [0]] 256
    = Some (0, [10; 0; 0; 0; 0; 0; 0; 0; 5; 9], pipe') /\
    pipe_bytes pipe' = [16; 0; 0].
Proof.
  apply (audio_thread_read_command_round_trip 8 le_length
           [ReadBytes 10 [0; 0]; ReadErrno EINTR; ReadBytes 0 [0; 0; 0; 0; 5; 9; 16];
            ReadBytes 0 [0]] 256 [10; 0; 0; 0; 0; 0; 0; 0; 5; 9] [16; 0; 0]).
  - lia.
  - lia.
  - reflexivity.
  - reflexivity.
  - simpl. lia.
Defined.

(** X19.  A message whose length field exceeds the buffer size is refused
    with [-ENOMEM] after the length field alone has been read: everything
    behind the length field is still in the pipe, where the next read of a
    command will take it for a length field. *)
Theorem audio_thread_read_command_overflow (sizeof_length : Z)
    (decode_length : list Z -> Z) (pipe : list read_event) (max_len : Z) :
  4 <= sizeof_length < 2 ^ 31 ->
  sizeof_length <= Z.of_nat (length (pipe_bytes pipe)) ->
  max_len < decode_length (take (Z.to_nat sizeof_length) (pipe_bytes pipe)) ->
  exists pipe',
    audio_thread_read_command sizeof_length decode_length pipe max_len
    = Some (- ENOMEM, take (Z.to_nat sizeof_length) (pipe_bytes pipe), pipe') /\
    pipe_bytes pipe' = drop (Z.to_nat sizeof_length) (pipe_bytes pipe).
Proof. intros Hs. apply read_command_overflow. exact Hs. Qed.

Lemma audio_thread_read_command_overflow_witness :
  exists pipe',
    audio_thread_read_command 8 le_length
      [ReadBytes 1 [1; 0; 0; 0; 0; 0; 0; 7; 7]] 256
    = Some (- ENOMEM, [1; 1; 0; 0; 0; 0; 0; 0], pipe') /\
    pipe_bytes pipe' = [7; 7].
Proof.
  apply (audio_thread_read_command_overflow 8 le_length
           [ReadBytes 1 [1; 0; 0; 0; 0; 0; 0; 7; 7]] 256).
  - lia.
  - simpl. lia.
  - vm_compute. reflexivity.
Defined.

(** X20.  A length field smaller than [sizeof(length)] makes
    [audio_thread_read_command] return the negative number
    [length - sizeof(length)], the signed byte count it computed, without
    reading anything behind the length field. *)
Theorem audio_thread_read_command_short_length (sizeof_length : Z)
    (decode_length : list Z -> Z) (pipe : list read_event) (max_len : Z) :
  4 <= sizeof_length < 2 ^ 31 ->
  sizeof_length <= Z.of_nat (length (pipe_bytes pipe)) ->
  let length := decode_length (take (Z.to_nat sizeof_length) (pipe_bytes pipe)) in
  0 <= length < sizeof_length ->
  length <= max_len ->
  exists pipe',
    audio_thread_read_command sizeof_length decode_length pipe max_len
    = Some (length - sizeof_length,
            take (Z.to_nat sizeof_length) (pipe_bytes pipe), pipe') /\
    pipe_bytes pipe' = drop (Z.to_nat sizeof_length) (pipe_bytes pipe).
Proof. intros Hs. apply read_command_short_length. exact Hs. Qed.

Lemma audio_thread_read_command_short_length_witness :
  exists pipe',
    audio_thread_read_command 8 le_length
      [ReadBytes 3 [0; 0; 0; 0; 0; 0; 0; 7; 7]] 256
    = Some (3 - 8, [3; 0; 0; 0; 0; 0; 0; 0], pipe') /\
    pipe_bytes pipe' = [7; 7].
Proof.
  apply (audio_thread_read_command_short_length 8 le_length
           [ReadBytes 3 [0; 0; 0; 0; 0; 0; 0; 7; 7]] 256).
  - lia.
  - simpl. lia.
  - vm_compute. split; [discriminate|reflexivity].
  - vm_compute. discriminate.
Defined.

(** *** The remix check *)

Section RemixCheck.

Variable float : Type.
Variable ne_one : float -> bool.
Variable ne_zero : float -> bool.
Variable num_channels : Z.
Variable coefficient : Z -> float.

Lemma remix_row_loop_cleared (i : Z) (js : list Z) :
  remix_row_loop float ne_zero num_channels coefficient i js 0 = 0.
Proof.
  induction js as [|j js IH]; [reflexivity|].
  cbn [remix_row_loop]. destruct (_ || _); [reflexivity|exact IH].
Qed.

Lemma remix_loop_cleared (rows : list Z) :
  remix_loop float ne_one ne_zero num_channels coefficient rows 0 = 0.
Proof.
  induction rows as [|i rows IH]; [reflexivity|].
  cbn [remix_loop]. destruct (ne_one _); [reflexivity|].
  rewrite remix_row_loop_cleared. exact IH.
Qed.

Lemma remix_row_loop_one (i : Z) (js : list Z) :
  remix_row_loop float ne_zero num_channels coefficient i js 1 = 1 <->
  forall j, j ∈ js ->
    ne_zero (coefficient (uint_of (i * num_channels + j))) = false /\
    ne_zero (coefficient (uint_of (j * num_channels + i))) = false.
Proof.
  induction js as [|j js IH].
  - split; [|reflexivity]. intros _ j Hj. inversion Hj.
  - cbn [remix_row_loop].
    destruct (ne_zero (coefficient (uint_of (i * num_channels + j)))) eqn:E1;
      cbn [orb].
    { split; [discriminate|]. intros H.
      destruct (H j) as [H1 _]; [left|]. congruence. }
    destruct (ne_zero (coefficient (uint_of (j * num_channels + i)))) eqn:E2.
    { split; [discriminate|]. intros H.
      destruct (H j) as [_ H2]; [left|]. congruence. }
    rewrite IH. split.
    + intros H j' Hj'. apply elem_of_cons in Hj' as [->|Hj']; auto.
    + intros H j' Hj'. apply H. right. exact Hj'.
Qed.

Lemma remix_row_loop_bit (i : Z) (js : list Z) :
  remix_row_loop float ne_zero num_channels coefficient i js 1 = 1 \/
  remix_row_loop float ne_zero num_channels coefficient i js 1 = 0.
Proof.
  induction js as [|j js IH]; [left; reflexivity|].
  cbn [remix_row_loop]. destruct (_ || _); [right; reflexivity|exact IH].
Qed.

Lemma remix_loop_one (rows : list Z) :
  remix_loop float ne_one ne_zero num_channels coefficient rows 1 = 1 <->
  forall i, i ∈ rows ->
    ne_one (coefficient (uint_of (i * num_channels + i))) = false /\
    forall j, i + 1 <= j < num_channels ->
      ne_zero (coefficient (uint_of (i * num_channels + j))) = false /\
      ne_zero (coefficient (uint_of (j * num_channels + i))) = false.
Proof.
  induction rows as [|i rows IH].
  - split; [|reflexivity]. intros _ i Hi. inversion Hi.
  - cbn [remix_loop].
    destruct (ne_one (coefficient (uint_of (i * num_channels + i)))) eqn:E1.
    { split; [discriminate|]. intros H.
      destruct (H i) as [H1 _]; [left|]. congruence. }
    destruct (remix_row_loop_bit i (seqZ (i + 1) (num_channels - (i + 1))))
      as [Hrow|Hrow]; rewrite Hrow.
    + rewrite IH. pose proof (proj1 (remix_row_loop_one _ _) Hrow) as Hr. split.
      * intros H i' Hi'. apply elem_of_cons in Hi' as [->|Hi']; [|auto].
        split; [exact E1|]. intros j Hj. apply Hr.
        apply elem_of_seqZ. lia.
      * intros H i' Hi'. apply H. right. exact Hi'.
    + rewrite remix_loop_cleared. split; [discriminate|]. intros H.
      assert (remix_row_loop float ne_zero num_channels coefficient i
                (seqZ (i + 1) (num_channels - (i + 1))) 1 = 1) as Hone; [|congruence].
      apply remix_row_loop_one. intros j Hj. apply elem_of_seqZ in Hj.
      destruct (H i) as [_ H2]; [left|]. apply H2. lia.
Qed.

Lemma remix_index (i j : Z) :
  0 <= num_channels -> num_channels * num_channels <= 2 ^ 32 ->
  0 <= i < num_channels -> 0 <= j < num_channels ->
  uint_of (i * num_channels + j) = i * num_channels + j.
Proof.
  intros Hn Hsq Hi Hj. unfold uint_of. apply Z.mod_small. nia.
Qed.

Lemma identity_remix_spec :
  0 <= num_channels -> num_channels * num_channels <= 2 ^ 32 ->
  (identity_remix float ne_one ne_zero num_channels coefficient = 1 <->
   forall i j, 0 <= i < num_channels -> 0 <= j < num_channels ->
     if i =? j then ne_one (coefficient (i * num_channels + j)) = false
     else ne_zero (coefficient (i * num_channels + j)) = false).
Proof.
  intros Hn Hsq. unfold identity_remix. rewrite remix_loop_one. split.
  - intros H i j Hi Hj. destruct (Z.eqb_spec i j) as [->|Hne].
    + destruct (H j) as [H1 _]; [apply elem_of_seqZ; lia|].
      rewrite remix_index in H1 by assumption. exact H1.
    + destruct (Z.lt_ge_cases i j) as [Hlt|Hge].
      * destruct (H i) as [_ H2]; [apply elem_of_seqZ; lia|].
        destruct (H2 j) as [H3 _]; [lia|].
        rewrite remix_index in H3 by assumption. exact H3.
      * destruct (H j) as [_ H2]; [apply elem_of_seqZ; lia|].
        destruct (H2 i) as [_ H3]; [lia|].
        rewrite remix_index in H3 by assumption. exact H3.
  - intros H i Hi. apply elem_of_seqZ in Hi. split.
    + rewrite remix_index by lia.
      specialize (H i i ltac:(lia) ltac:(lia)). rewrite Z.eqb_refl in H. exact H.
    + intros j Hj. rewrite !remix_index by lia. split.
      * specialize (H i j ltac:(lia) ltac:(lia)).
        destruct (Z.eqb_spec i j); [lia|exact H].
      * specialize (H j i ltac:(lia) ltac:(lia)).
        destruct (Z.eqb_spec j i); [lia|exact H].
Qed.

Lemma identity_remix_bit :
  identity_remix float ne_one ne_zero num_channels coefficient = 1 \/
  identity_remix float ne_one ne_zero num_channels coefficient = 0.
Proof.
  unfold identity_remix. generalize (seqZ 0 num_channels) as rows.
  induction rows as [|i rows IH]; [left; reflexivity|].
  cbn [remix_loop]. destruct (ne_one _); [right; reflexivity|].
  destruct (remix_row_loop_bit i (seqZ (i + 1) (num_channels - (i + 1))))
    as [Hrow|Hrow]; rewrite Hrow; [exact IH|].
  right. apply remix_loop_cleared.
Qed.

End RemixCheck.

(** X21.  The check of [audio_thread_config_global_remix] leaves
    [identity_remix] set exactly when the coefficients are those of the
    identity matrix: every diagonal entry compares equal to [1.0f] and every
    other entry compares equal to [0].  For any other matrix it is [0], also
    when the first offending entry only ended a row. *)
Theorem identity_remix_iff_identity (float : Type) (ne_one ne_zero : float -> bool)
    (num_channels : Z) (coefficient : Z -> float) :
  0 <= num_channels -> num_channels * num_channels <= 2 ^ 32 ->
  (identity_remix float ne_one ne_zero num_channels coefficient = 1 <->
   forall i j, 0 <= i < num_channels -> 0 <= j < num_channels ->
     if i =? j then ne_one (coefficient (i * num_channels + j)) = false
     else ne_zero (coefficient (i * num_channels + j)) = false) /\
  (identity_remix float ne_one ne_zero num_channels coefficient = 1 \/
   identity_remix float ne_one ne_zero num_channels coefficient = 0).
Proof.
  intros Hn Hsq. split.
  - apply identity_remix_spec; assumption.
  - apply identity_remix_bit.
Qed.

Lemma identity_remix_iff_identity_witness :
  (identity_remix Z (fun x => negb (x =? 1)) (fun x => negb (x =? 0)) 3
     (matrix_of [1; 0; 0; 0; 1; 5; 0; 0; 1]) = 1 <->
   forall i j, 0 <= i < 3 -> 0 <= j < 3 ->
     if i =? j
     then negb (matrix_of [1; 0; 0; 0; 1; 5; 0; 0; 1] (i * 3 + j) =? 1) = false
     else negb (matrix_of [1; 0; 0; 0; 1; 5; 0; 0; 1] (i * 3 + j) =? 0) = false) /\
  (identity_remix Z (fun x => negb (x =? 1)) (fun x => negb (x =? 0)) 3
     (matrix_of [1; 0; 0; 0; 1; 5; 0; 0; 1]) = 1 \/
   identity_remix Z (fun x => negb (x =? 1)) (fun x => negb (x =? 0)) 3
     (matrix_of [1; 0; 0; 0; 1; 5; 0; 0; 1]) = 0).
Proof.
  apply (identity_remix_iff_identity Z (fun x => negb (x =? 1))
           (fun x => negb (x =? 0)) 3 (matrix_of [1; 0; 0; 0; 1; 5; 0; 0; 1])).
  - lia.
  - vm_compute. discriminate.
Defined.

(** *** The poll set *)

Lemma grown_refl (p : poll_set) : poll_set_ok p -> grown p p [].
Proof.
  intros Hok. split; [exact Hok|]. split.
  - cbn. lia.
  - rewrite app_nil_r. reflexivity.
Qed.

Lemma grown_trans (p p' p'' : poll_set) (r1 r2 : list (Z * Z)) :
  grown p p' r1 -> grown p' p'' r2 -> grown p p'' (r1 ++ r2).
Proof.
  intros (Hok1 & Hn1 & Hp1) (Hok2 & Hn2 & Hp2).
  split; [exact Hok2|]. split.
  - rewrite Hn2, Hn1, length_app. lia.
  - rewrite Hp2, Hp1, app_assoc. reflexivity.
Qed.

Lemma pass_outcome_refl (p : poll_set) : poll_set_ok p -> pass_outcome false p p [].
Proof. intros Hok. split; [apply grown_refl; exact Hok|reflexivity]. Qed.

Lemma pass_outcome_seq (restart : bool) (p p' p'' : poll_set) (r1 r2 : list (Z * Z)) :
  pass_outcome false p p' r1 -> pass_outcome restart p' p'' r2 ->
  pass_outcome restart p p'' (r1 ++ r2).
Proof.
  intros [Hg1 Hs1] H2. destruct restart; cbn [pass_outcome] in *.
  - destruct Hg1 as (Hok1 & Hn1 & Hp1).
    destruct H2 as (Hok2 & Hs2 & Hfull & reqs & Hp2).
    split; [exact Hok2|]. split; [lia|]. split.
    + rewrite length_app. lia.
    + exists (r1 ++ reqs). rewrite Hp2, Hp1, app_assoc. reflexivity.
  - destruct H2 as [Hg2 Hs2]. split; [|lia].
    eapply grown_trans; eassumption.
Qed.

Lemma pass_outcome_restart_more (p p' : poll_set) (r1 r2 : list (Z * Z)) :
  pass_outcome true p p' r1 -> pass_outcome true p p' (r1 ++ r2).
Proof.
  intros (Hok & Hs & Hfull & Hreqs). split; [exact Hok|]. split; [exact Hs|].
  split; [rewrite length_app; lia|exact Hreqs].
Qed.

Section PollSetFacts.

Variable sizeof_size_t : Z.
Variable uninit : pollfd.

Lemma add_pollfd_spec (fd is_write : Z) (p : poll_set) :
  poll_set_ok p ->
  16 * (num_pollfds p + 1) < size_t_modulus sizeof_size_t ->
  exists slot p',
    add_pollfd sizeof_size_t uninit fd is_write p = Some (slot, p') /\
    grown p p' [(fd, if is_write =? 0 then POLLIN else POLLOUT)] /\
    ((slot = Some (Z.to_nat (num_pollfds p)) /\ pollfds_size p' = pollfds_size p) \/
     (slot = None /\ pollfds_size p' = 2 * pollfds_size p /\
      pollfds_size p <= num_pollfds p + 1)).
Proof.
  intros [[Hn0 Hn] Hlen] HM. unfold add_pollfd.
  destruct (pollfds p !! Z.to_nat (num_pollfds p)) as [slot|] eqn:Hslot.
  2: { apply lookup_ge_None in Hslot. lia. }
  set (entry := {| pfd_fd := fd;
                   pfd_events := if is_write =? 0 then POLLIN else POLLOUT;
                   pfd_revents := pfd_revents slot |}).
  assert (size_t_of sizeof_size_t (num_pollfds p + 1) = num_pollfds p + 1) as Hnum.
  { unfold size_t_of. apply Z.mod_small. lia. }
  rewrite Hnum.
  assert (Z.to_nat (num_pollfds p) < length (pollfds p))%nat as Hi by lia.
  assert (take (Z.to_nat (num_pollfds p + 1))
               (<[Z.to_nat (num_pollfds p) := entry]> (pollfds p))
          = take (Z.to_nat (num_pollfds p)) (pollfds p) ++ [entry]) as Htake.
  { replace (Z.to_nat (num_pollfds p + 1)) with (S (Z.to_nat (num_pollfds p))) by lia.
    erewrite take_S_r by (apply list_lookup_insert_eq; exact Hi).
    rewrite take_insert_ge by lia. reflexivity. }
  destruct (Z.leb_spec (pollfds_size p) (num_pollfds p + 1)) as [Hfull|Hroom].
  - assert (size_t_of sizeof_size_t (pollfds_size p * 2) = pollfds_size p * 2) as Hsz.
    { unfold size_t_of. apply Z.mod_small. lia. }
    rewrite Hsz.
    assert (size_t_of sizeof_size_t (sizeof_pollfd * (pollfds_size p * 2))
            = pollfds_size p * 2 * sizeof_pollfd) as Hbytes.
    { unfold size_t_of, sizeof_pollfd. rewrite Z.mod_small by lia. lia. }
    rewrite Hbytes. unfold realloc.
    rewrite Z.div_mul by (unfold sizeof_pollfd; lia).
    eexists _, _. split; [reflexivity|].
    split; [|right; cbn; split; [reflexivity|lia]].
    split; [|split].
    + split; cbn [num_pollfds pollfds_size pollfds]; [lia|].
      rewrite length_resize. lia.
    + cbn. lia.
    + unfold polled. cbn [num_pollfds pollfds].
      rewrite take_resize, Nat.min_l by lia.
      rewrite resize_le by (rewrite length_insert; lia).
      rewrite Htake, map_app. reflexivity.
  - assert (size_t_of sizeof_size_t (num_pollfds p + 1 - 1) = num_pollfds p) as Hback.
    { unfold size_t_of. rewrite Z.mod_small by lia. lia. }
    rewrite Hback.
    eexists _, _. split; [reflexivity|]. split; [|left; cbn; auto].
    split; [|split].
    + split; cbn [num_pollfds pollfds_size pollfds]; [lia|].
      rewrite length_insert. lia.
    + cbn. lia.
    + unfold polled. cbn [num_pollfds pollfds].
      rewrite Htake, map_app. reflexivity.
Qed.

(** One call of [add_pollfd] seen as a pass of one request. *)
Lemma add_pollfd_outcome (fd is_write : Z) (p : poll_set) :
  poll_set_ok p ->
  16 * (num_pollfds p + 1) < size_t_modulus sizeof_size_t ->
  exists slot p',
    add_pollfd sizeof_size_t uninit fd is_write p = Some (slot, p') /\
    ((slot = Some (Z.to_nat (num_pollfds p)) /\
      pass_outcome false p p' [(fd, if is_write =? 0 then POLLIN else POLLOUT)]) \/
     (slot = None /\
      pass_outcome true p p' [(fd, if is_write =? 0 then POLLIN else POLLOUT)])).
Proof.
  intros Hok HM.
  destruct (add_pollfd_spec fd is_write p Hok HM) as (slot & p' & Hadd & Hg & Hcase).
  exists slot, p'. split; [exact Hadd|].
  destruct Hcase as [[-> Hs]|(-> & Hs & Hfull)].
  - left. split; [reflexivity|]. split; assumption.
  - right. split; [reflexivity|]. destruct Hg as (Hok' & Hn' & Hp').
    split; [exact Hok'|]. split; [exact Hs|]. split; [cbn; lia|].
    eexists. exact Hp'.
Qed.

Lemma poll_streams_spec (streams : list dev_stream) (p : poll_set) :
  poll_set_ok p ->
  16 * (num_pollfds p + Z.of_nat (length (stream_reqs streams)) + 1)
    < size_t_modulus sizeof_size_t ->
  exists restart p',
    poll_streams sizeof_size_t uninit streams p = Some (restart, p') /\
    pass_outcome restart p p' (stream_reqs streams).
Proof.
  revert p. induction streams as [|curr rest IH]; intros p Hok HM.
  - exists false, p. split; [reflexivity|]. apply pass_outcome_refl. exact Hok.
  - cbn [poll_streams]. unfold stream_reqs in *. cbn [List.filter] in *.
    destruct (Z.ltb_spec (ds_poll_stream_fd curr) 0) as [Hneg|Hfd]; cbn [negb] in *.
    { apply IH; assumption. }
    cbn [map length] in HM.
    destruct (add_pollfd_outcome (ds_poll_stream_fd curr) 0 p Hok ltac:(lia))
      as (slot & p1 & Hadd & Hcase).
    rewrite Hadd. change (0 =? 0) with true in Hcase. cbv iota in Hcase.
    destruct Hcase as [[-> Hout]|[-> Hout]].
    + pose proof Hout as [(Hok1 & Hn1 & _) _]. cbn [length] in Hn1.
      destruct (IH p1 Hok1 ltac:(lia)) as (restart & p' & Hrest & Hout').
      exists restart, p'. split; [exact Hrest|].
      apply (pass_outcome_seq restart p p1 p' [_] _ Hout Hout').
    + exists true, p1. split; [reflexivity|].
      apply (pass_outcome_restart_more p p1 [_] _ Hout).
Qed.

Lemma poll_open_devs_spec (t : audio_thread) (devs : list open_dev) (p : poll_set) :
  poll_set_ok p ->
  16 * (num_pollfds p + Z.of_nat (length (open_dev_reqs t devs)) + 1)
    < size_t_modulus sizeof_size_t ->
  exists restart p',
    poll_open_devs sizeof_size_t uninit t devs p = Some (restart, p') /\
    pass_outcome restart p p' (open_dev_reqs t devs).
Proof.
  revert p. induction devs as [|adev rest IH]; intros p Hok HM.
  - exists false, p. split; [reflexivity|]. apply pass_outcome_refl. exact Hok.
  - cbn [poll_open_devs]. unfold open_dev_reqs in *. cbn [flat_map] in *.
    rewrite length_app in HM.
    destruct (poll_streams_spec (dev_streams (get_iodev t (od_dev adev))) p Hok
                ltac:(lia)) as (restart & p1 & Hstreams & Hout).
    rewrite Hstreams. destruct restart.
    + exists true, p1. split; [reflexivity|].
      apply pass_outcome_restart_more. exact Hout.
    + pose proof Hout as [(Hok1 & Hn1 & _) _].
      destruct (IH p1 Hok1 ltac:(lia)) as (restart & p' & Hrest & Hout').
      exists restart, p'. split; [exact Hrest|].
      eapply pass_outcome_seq; eassumption.
Qed.

End PollSetFacts.

Lemma callback_kept_refl (c : iodev_callback_list) : callback_kept c c.
Proof. destruct c. split; [reflexivity|auto]. Qed.

Lemma callbacks_kept_refl (l : list iodev_callback_list) : Forall2 callback_kept l l.
Proof. apply Forall_Forall2_diag, Forall_forall. intros c _. apply callback_kept_refl. Qed.

Lemma callback_kept_reqs (l l' : list iodev_callback_list) :
  Forall2 callback_kept l l' -> callback_reqs l' = callback_reqs l.
Proof.
  unfold callback_reqs. induction 1 as [|c c' l l' [Hc _] _ IH]; [reflexivity|].
  assert (icb_enabled c' = icb_enabled c) as He by (rewrite Hc; reflexivity).
  assert (callback_req c' = callback_req c) as Hr by (rewrite Hc; reflexivity).
  cbn [List.filter]. rewrite He.
  destruct (negb (icb_enabled c =? 0)); [|exact IH].
  cbn [map]. rewrite IH, Hr. reflexivity.
Qed.

Lemma callback_kept_polled (p : poll_set) (c c1 c' : iodev_callback_list) :
  callback_kept c c1 -> callback_polled p c1 c' -> callback_polled p c c'.
Proof.
  intros [H1 Hd1] [[H2 Hd2] Hs]. rewrite H1 in H2, Hd2, Hs.
  cbn [set_icb_pollfd icb_enabled icb_pollfd] in *.
  split; [split|].
  - exact H2.
  - intros Hd. rewrite Hd2 by exact Hd. apply Hd1, Hd.
  - exact Hs.
Qed.

Lemma callback_polled_kept (p : poll_set) (l l' : list iodev_callback_list) :
  Forall2 (callback_polled p) l l' -> Forall2 callback_kept l l'.
Proof. intros H. eapply Forall2_impl; [exact H|]. intros c c' [Hk _]. exact Hk. Qed.

Lemma slot_holds_more (p p' : poll_set) (reqs : list (Z * Z)) (c : iodev_callback_list) :
  polled p' = polled p ++ reqs -> slot_holds p c -> slot_holds p' c.
Proof.
  intros Hp (k & Hk & Hl). exists k. split; [exact Hk|].
  rewrite Hp. apply lookup_app_l_Some. exact Hl.
Qed.

Lemma callback_polled_more (p p' : poll_set) (reqs : list (Z * Z))
    (l l' : list iodev_callback_list) :
  polled p' = polled p ++ reqs ->
  Forall2 (callback_polled p) l l' -> Forall2 (callback_polled p') l l'.
Proof.
  intros Hp H. eapply Forall2_impl; [exact H|]. intros c c' [Hk Hs].
  split; [exact Hk|]. intros He. eapply slot_holds_more; eauto.
Qed.

Lemma length_polled (p : poll_set) :
  poll_set_ok p -> length (polled p) = Z.to_nat (num_pollfds p).
Proof.
  intros [Hn Hlen]. unfold polled. rewrite length_map, length_take. lia.
Qed.

Lemma pass_outcome_polled (restart : bool) (p p' : poll_set) (reqs : list (Z * Z)) :
  pass_outcome restart p p' reqs -> exists more, polled p' = polled p ++ more.
Proof.
  destruct restart.
  - intros (_ & _ & _ & Hmore). exact Hmore.
  - intros [(_ & _ & Hp) _]. eexists. exact Hp.
Qed.

Lemma pass_outcome_ok (restart : bool) (p p' : poll_set) (reqs : list (Z * Z)) :
  pass_outcome restart p p' reqs -> poll_set_ok p'.
Proof.
  destruct restart.
  - intros (Hok & _). exact Hok.
  - intros [(Hok & _) _]. exact Hok.
Qed.

Section PollPassFacts.

Variable sizeof_size_t : Z.
Variable uninit : pollfd.

Lemma poll_callbacks_spec (iodev_callbacks : list iodev_callback_list) (p : poll_set) :
  poll_set_ok p ->
  16 * (num_pollfds p + Z.of_nat (length (callback_reqs iodev_callbacks)) + 1)
    < size_t_modulus sizeof_size_t ->
  exists restart iodev_callbacks' p',
    poll_callbacks sizeof_size_t uninit iodev_callbacks p
    = Some (restart, iodev_callbacks', p') /\
    pass_outcome restart p p' (callback_reqs iodev_callbacks) /\
    Forall2 (if restart then callback_kept else callback_polled p')
            iodev_callbacks iodev_callbacks'.
Proof.
  revert p. induction iodev_callbacks as [|c rest IH]; intros p Hok HM.
  - exists false, [], p. split; [reflexivity|].
    split; [apply pass_outcome_refl; exact Hok|constructor].
  - cbn [poll_callbacks]. unfold callback_reqs in *. cbn [List.filter] in *.
    destruct (Z.eqb_spec (icb_enabled c) 0) as [Hoff|Hon]; cbn [negb] in *.
    { destruct (IH p Hok HM) as (restart & rest' & p' & Hrest & Hout & Hall).
      rewrite Hrest. exists restart, (c :: rest'), p'.
      split; [reflexivity|]. split; [exact Hout|].
      constructor; [|exact Hall].
      destruct restart; [apply callback_kept_refl|].
      split; [apply callback_kept_refl|]. intros Hne. contradiction. }
    cbn [map length] in HM.
    destruct (add_pollfd_outcome sizeof_size_t uninit (icb_fd c) (icb_is_write c) p
                Hok ltac:(lia)) as (slot & p1 & Hadd & Hcase).
    rewrite Hadd. cbn [map].
    change (icb_fd c, if icb_is_write c =? 0 then POLLIN else POLLOUT)
      with (callback_req c) in Hcase.
    destruct Hcase as [[-> Hout]|[-> Hout]].
    + pose proof Hout as [(Hok1 & Hn1 & Hp1) _]. cbn [length] in Hn1.
      destruct (IH p1 Hok1 ltac:(lia)) as (restart & rest' & p' & Hrest & Hout' & Hall).
      rewrite Hrest.
      exists restart, (set_icb_pollfd (Some (Z.to_nat (num_pollfds p))) c :: rest'), p'.
      split; [reflexivity|]. split.
      { apply (pass_outcome_seq restart p p1 p' [_] _ Hout Hout'). }
      assert (callback_kept c (set_icb_pollfd (Some (Z.to_nat (num_pollfds p))) c))
        as Hkept.
      { split; [reflexivity|]. intros He. contradiction. }
      constructor; [|exact Hall].
      destruct restart; [exact Hkept|]. split; [exact Hkept|]. intros _.
      exists (Z.to_nat (num_pollfds p)). split; [reflexivity|].
      destruct Hout' as [(_ & _ & Hp') _]. rewrite Hp', Hp1.
      apply lookup_app_l_Some.
      change (callback_req (set_icb_pollfd (Some (Z.to_nat (num_pollfds p))) c))
        with (callback_req c).
      apply list_lookup_middle. rewrite length_polled by exact Hok. reflexivity.
    + exists true, (set_icb_pollfd None c :: rest), p1.
      split; [reflexivity|]. split.
      { apply (pass_outcome_restart_more p p1 [_] _ Hout). }
      constructor; [|apply callbacks_kept_refl].
      split; [reflexivity|]. intros He. contradiction.
Qed.

Lemma poll_pass_spec (t : audio_thread) (iodev_callbacks : list iodev_callback_list)
    (p : poll_set) :
  2 <= pollfds_size p ->
  Z.of_nat (length (pollfds p)) = pollfds_size p ->
  16 * (Z.of_nat (length (poll_reqs t iodev_callbacks)) + 2)
    < size_t_modulus sizeof_size_t ->
  exists restart iodev_callbacks' p',
    poll_pass sizeof_size_t uninit t iodev_callbacks p
    = Some (restart, iodev_callbacks', p') /\
    pass_outcome restart (set_num_pollfds 1 p) p' (poll_reqs t iodev_callbacks) /\
    Forall2 (if restart then callback_kept else callback_polled p')
            iodev_callbacks iodev_callbacks'.
Proof.
  intros Hsize Hlen HM. unfold poll_pass, poll_reqs in *.
  rewrite !length_app in HM.
  set (p0 := set_num_pollfds 1 p).
  assert (poll_set_ok p0) as Hok0 by (split; cbn; lia).
  destruct (poll_callbacks_spec iodev_callbacks p0 Hok0 ltac:(cbn; lia))
    as (r1 & cbs' & p1 & Hcbs & Hout1 & Hall).
  rewrite Hcbs. destruct r1.
  { exists true, cbs', p1. split; [reflexivity|].
    split; [apply pass_outcome_restart_more; exact Hout1|exact Hall]. }
  pose proof Hout1 as [(Hok1 & Hn1 & Hp1) _]. cbn [num_pollfds p0 set_num_pollfds] in Hn1.
  destruct (poll_open_devs_spec sizeof_size_t uninit t (open_devs t CRAS_STREAM_OUTPUT)
              p1 Hok1 ltac:(lia)) as (r2 & p2 & Hodevs & Hout2).
  rewrite Hodevs.
  pose proof (pass_outcome_seq r2 _ _ _ _ _ Hout1 Hout2) as Hout12.
  destruct r2.
  { exists true, cbs', p2. split; [reflexivity|]. split.
    - rewrite app_assoc. apply pass_outcome_restart_more. exact Hout12.
    - eapply callback_polled_kept. exact Hall. }
  pose proof Hout2 as [(Hok2 & Hn2 & Hp2) _].
  destruct (poll_open_devs_spec sizeof_size_t uninit t (open_devs t CRAS_STREAM_INPUT)
              p2 Hok2 ltac:(lia)) as (r3 & p3 & Hidevs & Hout3).
  rewrite Hidevs.
  pose proof (pass_outcome_seq r3 _ _ _ _ _ Hout12 Hout3) as Hout123.
  rewrite <- app_assoc in Hout123.
  exists r3, cbs', p3. split; [reflexivity|]. split; [exact Hout123|].
  destruct r3.
  - eapply callback_polled_kept. exact Hall.
  - destruct Hout3 as [(_ & _ & Hp3) _].
    eapply callback_polled_more; [exact Hp3|].
    eapply callback_polled_more; [exact Hp2|exact Hall].
Qed.

Lemma polled_first (p p' : poll_set) (more : list (Z * Z)) :
  2 <= pollfds_size p -> Z.of_nat (length (pollfds p)) = pollfds_size p ->
  poll_set_ok p' ->
  polled p' = polled (set_num_pollfds 1 p) ++ more ->
  polled (set_num_pollfds 1 p') = polled (set_num_pollfds 1 p).
Proof.
  intros Hsize Hlen Hok' Hp.
  assert (length (polled (set_num_pollfds 1 p)) = 1%nat) as Hone.
  { apply length_polled. split; cbn; lia. }
  assert (1 <= num_pollfds p') as Hnum.
  { pose proof (length_polled p' Hok') as Hl. rewrite Hp, length_app, Hone in Hl. lia. }
  transitivity (take 1 (polled p')).
  - unfold polled. cbn [num_pollfds set_num_pollfds pollfds].
    change (map pfd_req) with (fmap (M := list) pfd_req).
    rewrite <- fmap_take, take_take. f_equal. f_equal. lia.
  - rewrite Hp. rewrite take_app_length'; [reflexivity|]. symmetry. exact Hone.
Qed.

Lemma restart_poll_loop_spec (t : audio_thread) (fuel : nat) :
  forall (iodev_callbacks : list iodev_callback_list) (p : poll_set),
  2 <= pollfds_size p ->
  Z.of_nat (length (pollfds p)) = pollfds_size p ->
  16 * (Z.of_nat (length (poll_reqs t iodev_callbacks)) + 2)
    < size_t_modulus sizeof_size_t ->
  (Z.to_nat (Z.of_nat (length (poll_reqs t iodev_callbacks)) + 2 - pollfds_size p)
   < fuel)%nat ->
  exists iodev_callbacks' p',
    restart_poll_loop sizeof_size_t uninit fuel t iodev_callbacks p
    = Some (iodev_callbacks', p') /\
    poll_set_ok p' /\
    polled p' = polled (set_num_pollfds 1 p) ++ poll_reqs t iodev_callbacks /\
    Forall2 (callback_polled p') iodev_callbacks iodev_callbacks' /\
    pollfds_size p <= pollfds_size p'
      <= Z.max (pollfds_size p)
               (2 * (Z.of_nat (length (poll_reqs t iodev_callbacks)) + 1)).
Proof.
  induction fuel as [|fuel IH]; intros cbs p Hsize Hlen HM Hfuel; [lia|].
  cbn [restart_poll_loop].
  destruct (poll_pass_spec t cbs p Hsize Hlen HM) as (restart & cbs1 & p1 & Hpass & Hout & Hall).
  rewrite Hpass. destruct restart.
  - destruct Hout as (Hok1 & Hs1 & Hfull & more & Hp1).
    cbn [num_pollfds pollfds_size set_num_pollfds] in Hs1, Hfull.
    assert (poll_reqs t cbs1 = poll_reqs t cbs) as Hreqs.
    { unfold poll_reqs. rewrite (callback_kept_reqs _ _ Hall). reflexivity. }
    destruct Hok1 as [Hn1 Hlen1].
    destruct (IH cbs1 p1 ltac:(lia) Hlen1 ltac:(rewrite Hreqs; exact HM)
                 ltac:(rewrite Hreqs; lia))
      as (cbs' & p' & Hloop & Hok' & Hp' & Hall' & Hsz).
    rewrite Hreqs in Hp', Hsz.
    exists cbs', p'. split; [exact Hloop|]. split; [exact Hok'|]. split; [|split].
    + rewrite Hp'. f_equal.
      apply (polled_first p p1 more Hsize Hlen); [split; assumption|exact Hp1].
    + eapply Forall2_trans; [|exact Hall|exact Hall'].
      intros c c1 c'. apply callback_kept_polled.
    + lia.
  - destruct Hout as [(Hok1 & Hn1 & Hp1) Hs1].
    cbn [pollfds_size set_num_pollfds] in Hs1.
    exists cbs1, p1. split; [reflexivity|]. split; [exact Hok1|].
    split; [exact Hp1|]. split; [exact Hall|]. lia.
Qed.

End PollPassFacts.

(** X22.  [add_pollfd] stores the entry behind the entries in use whatever it
    returns, and leaves room for one more: it returns null exactly when the
    entry took the last free place, and then the capacity has doubled. *)
Theorem add_pollfd_keeps_room (sizeof_size_t : Z) (uninit : pollfd)
    (fd is_write : Z) (p : poll_set) :
  0 <= num_pollfds p < pollfds_size p ->
  Z.of_nat (length (pollfds p)) = pollfds_size p ->
  16 * (num_pollfds p + 1) < size_t_modulus sizeof_size_t ->
  exists slot p',
    add_pollfd sizeof_size_t uninit fd is_write p = Some (slot, p') /\
    polled p' = polled p ++ [(fd, if is_write =? 0 then POLLIN else POLLOUT)] /\
    num_pollfds p' = num_pollfds p + 1 /\
    num_pollfds p' < pollfds_size p' /\
    Z.of_nat (length (pollfds p')) = pollfds_size p' /\
    (if pollfds_size p <=? num_pollfds p + 1
     then slot = None /\ pollfds_size p' = 2 * pollfds_size p
     else slot = Some (Z.to_nat (num_pollfds p)) /\ pollfds_size p' = pollfds_size p).
Proof.
  intros Hn Hlen HM.
  destruct (add_pollfd_spec sizeof_size_t uninit fd is_write p (conj Hn Hlen) HM)
    as (slot & p' & Hadd & ([Hn' Hlen'] & Hnum & Hp) & Hcase).
  cbn [length] in Hnum.
  exists slot, p'. split; [exact Hadd|]. split; [exact Hp|].
  split; [lia|]. split; [lia|]. split; [exact Hlen'|].
  destruct (Z.leb_spec (pollfds_size p) (num_pollfds p + 1)) as [Hfull|Hroom];
    destruct Hcase as [[Hslot Hs]|(Hslot & Hs & Hf)]; try lia; auto.
Qed.

Lemma add_pollfd_keeps_room_witness :
  exists slot p',
    add_pollfd 8 (mk_pollfd 0 0) 9 1 small_poll_set = Some (slot, p') /\
    polled p' = polled small_poll_set ++ [(9, if 1 =? 0 then POLLIN else POLLOUT)] /\
    num_pollfds p' = num_pollfds small_poll_set + 1 /\
    num_pollfds p' < pollfds_size p' /\
    Z.of_nat (length (pollfds p')) = pollfds_size p' /\
    (if pollfds_size small_poll_set <=? num_pollfds small_poll_set + 1
     then slot = None /\ pollfds_size p' = 2 * pollfds_size small_poll_set
     else slot = Some (Z.to_nat (num_pollfds small_poll_set)) /\
          pollfds_size p' = pollfds_size small_poll_set).
Proof.
  apply (add_pollfd_keeps_room 8 (mk_pollfd 0 0) 9 1 small_poll_set).
  - cbn. lia.
  - reflexivity.
  - vm_compute. reflexivity.
Defined.

(** X23.  The build of the poll set in [audio_io_thread] ends after at most
    as many restarts as there are descriptors to poll, without writing
    behind the array.  The entries in use are then slot 0 as it was set
    up, the enabled callbacks in the order of the registry, the streams of
    the open output devices and those of the open input devices that have a
    descriptor; at least one free entry is left, and the capacity is the one
    the array had or at most twice the number of entries in use. *)
Theorem restart_poll_loop_builds (sizeof_size_t : Z) (uninit : pollfd)
    (t : audio_thread) (iodev_callbacks : list iodev_callback_list)
    (p : poll_set) (msg_slot : pollfd) (fuel : nat) :
  2 <= pollfds_size p ->
  Z.of_nat (length (pollfds p)) = pollfds_size p ->
  pollfds p !! 0%nat = Some msg_slot ->
  16 * (Z.of_nat (length (poll_reqs t iodev_callbacks)) + 2)
    < size_t_modulus sizeof_size_t ->
  (length (poll_reqs t iodev_callbacks) < fuel)%nat ->
  exists iodev_callbacks' p',
    restart_poll_loop sizeof_size_t uninit fuel t iodev_callbacks p
    = Some (iodev_callbacks', p') /\
    polled p' = pfd_req msg_slot :: poll_reqs t iodev_callbacks /\
    num_pollfds p' < pollfds_size p' /\
    Z.of_nat (length (pollfds p')) = pollfds_size p' /\
    pollfds_size p <= pollfds_size p'
      <= Z.max (pollfds_size p) (2 * num_pollfds p').
Proof.
  intros Hsize Hlen Hmsg HM Hfuel.
  destruct (restart_poll_loop_spec sizeof_size_t uninit t fuel iodev_callbacks p
              Hsize Hlen HM ltac:(lia))
    as (cbs' & p' & Hloop & Hok' & Hp' & _ & Hsz).
  assert (polled (set_num_pollfds 1 p) = [pfd_req msg_slot]) as Hfirst.
  { unfold polled. cbn [num_pollfds set_num_pollfds pollfds].
    destruct (pollfds p) as [|s l]; [discriminate|].
    cbn in Hmsg. injection Hmsg as ->. reflexivity. }
  rewrite Hfirst in Hp'.
  pose proof (length_polled p' Hok') as Hnum. rewrite Hp' in Hnum.
  cbn [length app] in Hnum. destruct Hok' as [Hn' Hlen'].
  exists cbs', p'. split; [exact Hloop|]. split; [exact Hp'|].
  split; [lia|]. split; [exact Hlen'|]. lia.
Qed.

Lemma restart_poll_loop_builds_witness :
  exists iodev_callbacks' p',
    restart_poll_loop 8 (mk_pollfd 0 0) 5 thread_polling three_callbacks small_poll_set
    = Some (iodev_callbacks', p') /\
    polled p' = pfd_req (mk_pollfd 5 POLLIN) :: poll_reqs thread_polling three_callbacks /\
    num_pollfds p' < pollfds_size p' /\
    Z.of_nat (length (pollfds p')) = pollfds_size p' /\
    pollfds_size small_poll_set <= pollfds_size p'
      <= Z.max (pollfds_size small_poll_set) (2 * num_pollfds p').
Proof.
  apply (restart_poll_loop_builds 8 (mk_pollfd 0 0) thread_polling three_callbacks
           small_poll_set (mk_pollfd 5 POLLIN) 5).
  - cbn. lia.
  - reflexivity.
  - reflexivity.
  - vm_compute. reflexivity.
  - vm_compute. lia.
Defined.

(** X24.  After the build of the poll set every enabled callback points at
    an entry in use that holds its descriptor, with [POLLOUT] for a write
    callback and [POLLIN] otherwise, also when the array was reallocated on
    the way; a disabled callback keeps the slot it had before.  Nothing
    else of a callback changes. *)
Theorem restart_poll_loop_callback_slots (sizeof_size_t : Z) (uninit : pollfd)
    (t : audio_thread) (iodev_callbacks : list iodev_callback_list)
    (p : poll_set) (fuel : nat) :
  2 <= pollfds_size p ->
  Z.of_nat (length (pollfds p)) = pollfds_size p ->
  16 * (Z.of_nat (length (poll_reqs t iodev_callbacks)) + 2)
    < size_t_modulus sizeof_size_t ->
  (length (poll_reqs t iodev_callbacks) < fuel)%nat ->
  exists iodev_callbacks' p',
    restart_poll_loop sizeof_size_t uninit fuel t iodev_callbacks p
    = Some (iodev_callbacks', p') /\
    Forall2 (fun c c' =>
               c' = set_icb_pollfd (icb_pollfd c') c /\
               (icb_enabled c = 0 -> icb_pollfd c' = icb_pollfd c) /\
               (icb_enabled c <> 0 ->
                exists k, icb_pollfd c' = Some k /\
                          polled p' !! k = Some (callback_req c)))
            iodev_callbacks iodev_callbacks'.
Proof.
  intros Hsize Hlen HM Hfuel.
  destruct (restart_poll_loop_spec sizeof_size_t uninit t fuel iodev_callbacks p
              Hsize Hlen HM ltac:(lia))
    as (cbs' & p' & Hloop & _ & _ & Hall & _).
  exists cbs', p'. split; [exact Hloop|].
  eapply Forall2_impl; [exact Hall|].
  intros c c' [[Hc Hoff] Hon]. split; [exact Hc|]. split; [exact Hoff|].
  intros He. destruct (Hon He) as (k & Hk & Hl). exists k. split; [exact Hk|].
  rewrite Hl. rewrite Hc. reflexivity.
Qed.

Lemma restart_poll_loop_callback_slots_witness :
  exists iodev_callbacks' p',
    restart_poll_loop 8 (mk_pollfd 0 0) 5 thread_polling three_callbacks small_poll_set
    = Some (iodev_callbacks', p') /\
    Forall2 (fun c c' =>
               c' = set_icb_pollfd (icb_pollfd c') c /\
               (icb_enabled c = 0 -> icb_pollfd c' = icb_pollfd c) /\
               (icb_enabled c <> 0 ->
                exists k, icb_pollfd c' = Some k /\
                          polled p' !! k = Some (callback_req c)))
            three_callbacks iodev_callbacks'.
Proof.
  apply (restart_poll_loop_callback_slots 8 (mk_pollfd 0 0) thread_polling
           three_callbacks small_poll_set 5).
  - cbn. lia.
  - reflexivity.
  - vm_compute. reflexivity.
  - vm_compute. lia.
Defined.
